(** * Delta moment-independent sensitivity analysis (SALib, [analyze/delta.py])

    A shallow embedding of [SALib/analyze/delta.py] and of the numpy / scipy
    primitives it calls, followed by the properties of the estimator.

    Conventions of the embedding.
    - A float is an exact rational ([Q]); the IEEE special values that numpy
      produces instead of raising (division by zero, [inf - inf]) are kept
      in [npfloat].  Rounding is not modelled there: what is proved of a
      value over [Q] is a fact of exact arithmetic, and is stated as such
      where rounding can change it.
    - Where rounding decides what the code returns, the code is embedded a
      second time over IEEE binary64 numbers (the module [F64], on the
      kernel's primitive floats), with numpy's order of summation.
    - Python exceptions are values of [exn]; code that can raise returns a
      [result].
    - [np.random] is an explicit stream of draws read at a cursor; the
      stream, the cursor and the console make up the [world] threaded
      through the bootstrap routines and [analyze].
    - The transcendental primitives ([exp], [sqrt], [power], [tanh], the
      normal quantile) are the fields of the class [Libm]: no result below
      depends on their values beyond the few range facts stated as
      hypotheses. *)

From Stdlib Require Import String.
From Stdlib Require Import List ZArith QArith Qabs Qround Qminmax.
From Stdlib Require Import Lia Lqa Bool Arith PeanoNat.
From Stdlib Require Import Sorted Permutation Setoid Morphisms.
From Stdlib Require PrimFloat.
Import ListNotations.

Local Open Scope Q_scope.

(* ================================================================= *)
(** ** Numbers *)

(** A numpy [float64]: a finite value or one of the IEEE special values. *)
Inductive npfloat : Type :=
| Fin (q : Q)
| PInf
| NInf
| NaN.

(** The infinity (or NaN) that a non-zero (or zero) finite factor selects. *)
Definition finf_of (c : comparison) : npfloat :=
  match c with
  | Gt => PInf
  | Lt => NInf
  | Eq => NaN
  end.

Definition fneg (x : npfloat) : npfloat :=
  match x with
  | Fin q => Fin (- q)
  | PInf => NInf
  | NInf => PInf
  | NaN => NaN
  end.

Definition fadd (x y : npfloat) : npfloat :=
  match x, y with
  | NaN, _ | _, NaN => NaN
  | Fin a, Fin b => Fin (a + b)
  | PInf, NInf | NInf, PInf => NaN
  | PInf, _ | _, PInf => PInf
  | NInf, _ | _, NInf => NInf
  end.

Definition fsub (x y : npfloat) : npfloat := fadd x (fneg y).

Definition fmul (x y : npfloat) : npfloat :=
  match x, y with
  | NaN, _ | _, NaN => NaN
  | Fin a, Fin b => Fin (a * b)
  | Fin a, PInf | PInf, Fin a => finf_of (a ?= 0)
  | Fin a, NInf | NInf, Fin a => finf_of (0 ?= a)
  | PInf, PInf | NInf, NInf => PInf
  | PInf, NInf | NInf, PInf => NInf
  end.

(** numpy's true division: a zero divisor gives [nan] or an infinity (and
    a warning), never an exception. *)
Definition fdiv (x y : npfloat) : npfloat :=
  match x, y with
  | NaN, _ | _, NaN => NaN
  | Fin a, Fin b => if Qeq_bool b 0 then finf_of (a ?= 0) else Fin (a / b)
  | Fin _, PInf | Fin _, NInf => Fin 0
  | PInf, Fin b => if Qle_bool 0 b then PInf else NInf
  | NInf, Fin b => if Qle_bool 0 b then NInf else PInf
  | _, _ => NaN
  end.

(** [x ** 2]. *)
Definition fsqr (x : npfloat) : npfloat := fmul x x.

Definition of_nat (n : nat) : Q := inject_Z (Z.of_nat n).

(** Equality of floats as numbers: finite values are compared with [==]. *)
Definition feq (x y : npfloat) : Prop :=
  match x, y with
  | Fin a, Fin b => a == b
  | PInf, PInf | NInf, NInf | NaN, NaN => True
  | _, _ => False
  end.

Definition Qlt_bool (a b : Q) : bool := negb (Qle_bool b a).

(* ================================================================= *)
(** ** Exceptions and the error monad *)

Inductive exn : Type :=
| RuntimeError (msg : string)
| ValueError (msg : string)
| LinAlgError (msg : string)
| ZeroDivisionError (msg : string)
| IndexError (index size : nat).

Inductive result (A : Type) : Type :=
| Ok (a : A)
| Raise (e : exn).

Arguments Ok {A} a.
Arguments Raise {A} e.

Definition bind {A B : Type} (c : result A) (k : A -> result B) : result B :=
  match c with
  | Ok a => k a
  | Raise e => Raise e
  end.

Declare Scope result_scope.
Delimit Scope result_scope with result.
Notation "x <- c ;; k" := (bind c (fun x => k))
  (at level 61, c at next level, right associativity) : result_scope.
Local Open Scope result_scope.

(** A [for] loop with an accumulator; the first exception ends it. *)
Fixpoint for_ {A S : Type} (l : list A) (body : S -> A -> result S) (s : S)
  : result S :=
  match l with
  | [] => Ok s
  | a :: l' => s' <- body s a ;; for_ l' body s'
  end.

(** Python's [/] on two [int]s under [from __future__ import division]. *)
Definition py_truediv (a b : nat) : result Q :=
  match b with
  | O => Raise (ZeroDivisionError "division by zero")
  | _ => Ok (of_nat a / of_nat b)
  end.

(* ================================================================= *)
(** ** numpy arrays *)

Definition Qsum (l : list Q) : Q := fold_left Qplus l 0.

Definition np_sum (l : list npfloat) : npfloat := fold_left fadd l (Fin 0).

(** [arr.mean()]: [sum / size], [nan] on an empty array. *)
Definition np_mean (l : list npfloat) : npfloat :=
  fdiv (np_sum l) (Fin (of_nat (length l))).

(** [arr.var(ddof)]: the squared deviations are summed and divided by
    [max(size - ddof, 0)]. *)
Definition np_var (ddof : nat) (l : list npfloat) : npfloat :=
  let arrmean := np_mean l in
  let x := map (fun a => fsqr (fsub a arrmean)) l in
  fdiv (np_sum x) (Fin (of_nat (length l - ddof))).

(** [np.linspace(start, stop, num)] with the end point included. *)
Definition linspace (start stop : Q) (num : nat) : list Q :=
  match num with
  | O => []
  | 1%nat => [start]
  | S div =>
      let step := (stop - start) / of_nat div in
      map (fun k => of_nat k * step + start) (seq 0 div) ++ [stop]
  end.

(** [np.trapz(y, x)]. *)
Fixpoint trapz (y x : list Q) : Q :=
  match y, x with
  | y0 :: ((y1 :: _) as y'), x0 :: ((x1 :: _) as x') =>
      (x1 - x0) * (y1 + y0) / 2 + trapz y' x'
  | _, _ => 0
  end.

(** [np.abs(a - b)], element by element. *)
Fixpoint abs_diff (a b : list Q) : list Q :=
  match a, b with
  | a0 :: a', b0 :: b' => Qabs (a0 - b0) :: abs_diff a' b'
  | _, _ => []
  end.

(** [np.where(mask)[0]]: the positions of the true entries. *)
Fixpoint where_from (k : nat) (mask : list bool) : list nat :=
  match mask with
  | [] => []
  | b :: mask' =>
      if b then k :: where_from (S k) mask' else where_from (S k) mask'
  end.

Definition np_where (mask : list bool) : list nat := where_from 0 mask.

(** [Y[ix]] for an index array [ix]. *)
Fixpoint take (Y : list Q) (ix : list nat) : result (list Q) :=
  match ix with
  | [] => Ok []
  | i :: ix' =>
      match nth_error Y i with
      | Some y => rest <- take Y ix' ;; Ok (y :: rest)
      | None => Raise (IndexError i (length Y))
      end
  end.

Fixpoint list_set {A : Type} (i : nat) (v : A) (l : list A) : list A :=
  match l, i with
  | [], _ => []
  | _ :: l', O => v :: l'
  | a :: l', S i' => a :: list_set i' v l'
  end.

(* ================================================================= *)
(** ** scipy.stats.rankdata, method 'ordinal' *)

(** One step of a stable sort of positions by value: [i] goes after every
    position whose value is not larger. *)
Fixpoint insert_by (a : list Q) (i : nat) (s : list nat) : list nat :=
  match s with
  | [] => [i]
  | k :: s' =>
      if Qle_bool (nth k a 0) (nth i a 0) then k :: insert_by a i s'
      else i :: s
  end.

(** [np.argsort(a, kind='mergesort')]: the stable sorting permutation. *)
Definition argsort (a : list Q) : list nat :=
  fold_left (fun s i => insert_by a i s) (seq 0 (length a)) [].

(** [inv = np.empty(n); inv[sorter] = np.arange(n)]. *)
Definition scatter (sorter : list nat) (init : list nat) : list nat :=
  fold_left (fun inv pk => list_set (fst pk) (snd pk) inv)
            (combine sorter (seq 0 (length sorter))) init.

Definition rankdata (a : list Q) : list nat :=
  let sorter := argsort a in
  let inv := scatter sorter (repeat O (length sorter)) in
  map S inv.

Example rankdata_ties : rankdata [3; 1; 2; 1] = [4; 1; 3; 2]%nat.
Proof. reflexivity. Qed.

Example linspace_halves : map Qred (linspace 0 5 3) = [0; 5 # 2; 5].
Proof. reflexivity. Qed.

Example trapz_constant : Qred (trapz [1; 1; 1] [0; 1; 3]) = 3.
Proof. reflexivity. Qed.


(** [np.min(Y)] and [np.max(Y)]: an empty array has no minimum. *)
Definition np_min (Y : list Q) : result Q :=
  match Y with
  | [] =>
      Raise (ValueError
               "zero-size array to reduction operation minimum which has no identity")
  | y :: Y' => Ok (fold_left Qmin Y' y)
  end.

Definition np_max (Y : list Q) : result Q :=
  match Y with
  | [] =>
      Raise (ValueError
               "zero-size array to reduction operation maximum which has no identity")
  | y :: Y' => Ok (fold_left Qmax Y' y)
  end.

(** The boolean array [(xr > lo) & (xr <= hi)]. *)
Definition in_bin (lo hi : Q) (r : nat) : bool :=
  Qlt_bool lo (of_nat r) && Qle_bool (of_nat r) hi.

Definition bin_mask (xr : list nat) (lo hi : Q) : list bool :=
  map (in_bin lo hi) xr.

(** [np.where((xr > m[j]) & (xr <= m[j + 1]))[0]]. *)
Definition bin_indices (xr : list nat) (m : list Q) (j : nat) : list nat :=
  np_where (bin_mask xr (nth j m 0) (nth (S j) m 0)).

(* ================================================================= *)
(** ** The world: random draws and the console *)

Record world : Type := mkWorld {
  rng_draws : nat -> nat;   (* the raw draws of the generator, in order *)
  rng_pos : nat;            (* how many have been consumed *)
  console : list string     (* the lines printed so far *)
}.

Definition io (A : Type) : Type := world -> result A * world.

Definition ret {A : Type} (a : A) : io A := fun w => (Ok a, w).

Definition raise {A : Type} (e : exn) : io A := fun w => (Raise e, w).

Definition lift {A : Type} (c : result A) : io A := fun w => (c, w).

Definition bind_io {A B : Type} (c : io A) (k : A -> io B) : io B :=
  fun w =>
    match c w with
    | (Ok a, w') => k a w'
    | (Raise e, w') => (Raise e, w')
    end.

Notation "x <~ c ;; k" := (bind_io c (fun x => k))
  (at level 61, c at next level, right associativity) : result_scope.

Fixpoint for_io {A S : Type} (l : list A) (body : S -> A -> io S) (s : S)
  : io S :=
  match l with
  | [] => ret s
  | a :: l' => s' <~ body s a ;; for_io l' body s'
  end.

(** [np.random.randint(high, size=size)]: [size] draws from [0, high). *)
Definition randint (high size : nat) : io (list nat) :=
  fun w =>
    match high with
    | O => (Raise (ValueError "low >= high"), w)
    | _ =>
        (Ok (map (fun k => (rng_draws w (rng_pos w + k) mod high)%nat)
                 (seq 0 size)),
         mkWorld (rng_draws w) (rng_pos w + size) (console w))
    end.

Definition print (line : string) : io unit :=
  fun w => (Ok tt, mkWorld (rng_draws w) (rng_pos w) (console w ++ [line])).

(* ================================================================= *)
(** ** The inputs and the result of [analyze] *)

Record problem_t : Type := mkProblem {
  num_vars : nat;
  names : list string
}.

(** A two-dimensional array, row by row. *)
Record matrix : Type := mkMatrix {
  ncols : nat;
  rows : list (list Q)
}.

(** [X[:, i]]. *)
Definition column (X : matrix) (i : nat) : result (list Q) :=
  if (i <? ncols X)%nat then Ok (map (fun row => nth i row 0) (rows X))
  else Raise (IndexError i (ncols X)).

(** The dictionary [S] with its four keys. *)
Record sens : Type := mkSens {
  delta : list npfloat;
  delta_conf : list npfloat;
  S1 : list npfloat;
  S1_conf : list npfloat
}.

Definition np_zeros (n : nat) : list npfloat := repeat (Fin 0) n.

(** [np.empty(n)]: the content is overwritten before it is read. *)
Definition np_empty (n : nat) : list npfloat := repeat (Fin 0) n.

(** The library primitives that are not rational functions: numpy's [exp],
    [sqrt], [pi], [power] and [tanh], scipy's normal quantile [norm.ppf],
    and the [%f] conversion of [print]. *)
Class Libm : Type := mkLibm {
  np_exp : Q -> Q;
  np_sqrt : Q -> Q;
  np_pi : Q;
  np_power : Q -> Q -> Q;
  np_tanh : Q -> Q;
  norm_ppf : Q -> npfloat;
  format_f : npfloat -> string
}.

Section Delta.

Context {L : Libm}.

(** [np.sqrt]. *)
Definition fsqrt (x : npfloat) : npfloat :=
  match x with
  | Fin q => if Qlt_bool q 0 then NaN else Fin (np_sqrt q)
  | PInf => PInf
  | NInf => NaN
  | NaN => NaN
  end.

(** [arr.std(ddof)]. *)
Definition np_std (ddof : nat) (l : list npfloat) : npfloat :=
  fsqrt (np_var ddof l).

(* ----------------------------------------------------------------- *)
(** *** scipy.stats.gaussian_kde, one-dimensional, Silverman bandwidth *)

Record kde_t : Type := mkKde {
  dataset : list Q;
  kde_n : nat;
  factor : Q;
  covariance : Q;
  inv_cov : Q;
  norm_factor : Q
}.

(** [np.cov(dataset, bias=False)] of a sample with at least two points. *)
Definition data_covariance (data : list Q) : Q :=
  let n := of_nat (length data) in
  let mean := Qsum data / n in
  Qsum (map (fun x => (x - mean) * (x - mean)) data) / (n - 1).

Definition silverman_factor (n : nat) : Q :=
  np_power (of_nat n * (1 + 2) / 4) (- 1 / (1 + 4)).

(** The constructor: it refuses a sample of fewer than two points and
    cannot invert the covariance of a sample without spread. *)
Definition gaussian_kde (data : list Q) : result kde_t :=
  if (length data <=? 1)%nat then
    Raise (ValueError "`dataset` input should have multiple elements.")
  else
    let dc := data_covariance data in
    if Qeq_bool dc 0 then Raise (LinAlgError "singular matrix")
    else
      let f := silverman_factor (length data) in
      let cov := dc * (f * f) in
      Ok (mkKde data (length data) f cov
                ((1 / dc) / (f * f))
                (np_sqrt (2 * np_pi * cov) * of_nat (length data))).

(** [kde(points)]: the density at every point. *)
Definition kde_evaluate (k : kde_t) (points : list Q) : list Q :=
  map (fun x =>
         Qsum (map (fun xi =>
                      let diff := xi - x in
                      let tdiff := inv_cov k * diff in
                      np_exp (- (diff * tdiff / 2)))
                   (dataset k))
         / norm_factor k)
      points.

(* ----------------------------------------------------------------- *)
(** *** calc_delta *)

Definition calc_delta (Y Ygrid X m : list Q) : result Q :=
  let N := length Y in
  k <- gaussian_kde Y ;;
  let fy := kde_evaluate k Ygrid in
  let xr := rankdata X in
  for_ (seq 0 (length m - 1))
       (fun d_hat j =>
          let ix := bin_indices xr m j in
          let nm := length ix in
          Yix <- take Y ix ;;
          kc <- gaussian_kde Yix ;;
          let fyc := kde_evaluate kc Ygrid in
          w <- py_truediv nm (2 * N) ;;
          Ok (d_hat + w * trapz (abs_diff fy fyc) Ygrid))
       0.

(* ----------------------------------------------------------------- *)
(** *** bias_reduced_delta *)

Definition bias_reduced_delta (Y Ygrid X m : list Q) (num_resamples : nat)
    (conf_level : Q) : io (npfloat * npfloat) :=
  let d := np_empty num_resamples in
  d_hat <~ lift (calc_delta Y Ygrid X m) ;;
  d <~ for_io (seq 0 num_resamples)
         (fun d i =>
            r <~ randint (length Y) (length Y) ;;
            Yr <~ lift (take Y r) ;;
            Xr <~ lift (take X r) ;;
            di <~ lift (calc_delta Yr Ygrid Xr m) ;;
            ret (list_set i (Fin di) d))
         d ;;
  let d := map (fun di => fsub (fmul (Fin 2) (Fin d_hat)) di) d in
  ret (np_mean d, fmul (norm_ppf ((1 # 2) + conf_level / 2)) (np_std 1 d)).

(* ----------------------------------------------------------------- *)
(** *** sobol_first and sobol_first_conf *)

Definition sobol_first (Y X m : list Q) : result npfloat :=
  let xr := rankdata X in
  let N := length Y in
  Vi <- for_ (seq 0 (length m - 1))
          (fun Vi j =>
             let ix := bin_indices xr m j in
             let nm := length ix in
             w <- py_truediv nm N ;;
             Yix <- take Y ix ;;
             Ok (fadd Vi
                   (fmul (Fin w)
                      (fsqr (fsub (np_mean (map Fin Yix))
                                  (np_mean (map Fin Y)))))))
          (Fin 0) ;;
  Ok (fdiv Vi (np_var 0 (map Fin Y))).

Definition sobol_first_conf (Y X m : list Q) (num_resamples : nat)
    (conf_level : Q) : io npfloat :=
  let s := np_empty num_resamples in
  s <~ for_io (seq 0 num_resamples)
         (fun s i =>
            r <~ randint (length Y) (length Y) ;;
            Yr <~ lift (take Y r) ;;
            Xr <~ lift (take X r) ;;
            si <~ lift (sobol_first Yr Xr m) ;;
            ret (list_set i si s))
         s ;;
  ret (fmul (norm_ppf ((1 # 2) + conf_level / 2)) (np_std 1 s)).

(* ----------------------------------------------------------------- *)
(** *** analyze *)

(** [min(np.ceil(N ** (2 / (7 + np.tanh((1500 - N) / 500)))), 48)]. *)
Definition bin_count (N : nat) : Z :=
  Z.min
    (Qceiling
       (np_power (of_nat N) (2 / (7 + np_tanh ((1500 - of_nat N) / 500)))))
    48.

Definition header : string :=
  "Parameter delta delta_conf S1 S1_conf".

Definition row_line (name : string) (a b c d : npfloat) : string :=
  (name ++ " " ++ format_f a ++ " " ++ format_f b ++ " " ++ format_f c
        ++ " " ++ format_f d)%string.

Definition names_get (problem : problem_t) (i : nat) : result string :=
  match nth_error (names problem) i with
  | Some s => Ok s
  | None => Raise (IndexError i (length (names problem)))
  end.

Definition analyze (problem : problem_t) (X : matrix) (Y : list Q)
    (calc_second_order : bool) (num_resamples : nat) (conf_level : Q)
    (print_to_console : bool) : io sens :=
  let D := num_vars problem in
  let N := length Y in
  if Qlt_bool conf_level 0 || Qlt_bool 1 conf_level then
    raise (RuntimeError "Confidence level must be between 0-1.")
  else
    let M := bin_count N in
    let m := linspace 0 (of_nat N) (Z.to_nat (M + 1)) in
    ymin <~ lift (np_min Y) ;;
    ymax <~ lift (np_max Y) ;;
    let Ygrid := linspace ymin ymax 100 in
    let S := mkSens (np_zeros D) (np_zeros D) (np_zeros D) (np_zeros D) in
    _ <~ (if print_to_console then print header else ret tt) ;;
    for_io (seq 0 D)
      (fun S i =>
         Xi <~ lift (column X i) ;;
         dd <~ bias_reduced_delta Y Ygrid Xi m num_resamples conf_level ;;
         let S := mkSens (list_set i (fst dd) (delta S))
                         (list_set i (snd dd) (delta_conf S))
                         (S1 S) (S1_conf S) in
         Xi <~ lift (column X i) ;;
         s1 <~ lift (sobol_first Y Xi m) ;;
         let S := mkSens (delta S) (delta_conf S)
                         (list_set i s1 (S1 S)) (S1_conf S) in
         Xi <~ lift (column X i) ;;
         s1c <~ sobol_first_conf Y Xi m num_resamples conf_level ;;
         let S := mkSens (delta S) (delta_conf S) (S1 S)
                         (list_set i s1c (S1_conf S)) in
         _ <~ (if print_to_console then
                 name <~ lift (names_get problem i) ;;
                 print (row_line name (nth i (delta S) NaN)
                          (nth i (delta_conf S) NaN) (nth i (S1 S) NaN)
                          (nth i (S1_conf S) NaN))
               else ret tt) ;;
         ret S)
      S.

(* ----------------------------------------------------------------- *)
(** *** Reference definitions

    The quantities of the estimator written as closed formulas, to compare
    the loops above with. *)

(** The entries of [Y] at the positions [ix]. *)
Definition select (Y : list Q) (ix : list nat) : list Q :=
  map (fun i => nth i Y 0) ix.

(** The output sub-sample of bin [j]. *)
Definition bin_sample (Y X m : list Q) (j : nat) : list Q :=
  select Y (bin_indices (rankdata X) m j).

(** A sample on which the density estimator is defined: at least two
    points, and not all of them equal. *)
Definition kde_defined (data : list Q) : bool :=
  negb (length data <=? 1)%nat && negb (Qeq_bool (data_covariance data) 0).

(** The estimator that [gaussian_kde] builds on such a sample. *)
Definition kde_of (data : list Q) : kde_t :=
  let dc := data_covariance data in
  let f := silverman_factor (length data) in
  let cov := dc * (f * f) in
  mkKde data (length data) f cov ((1 / dc) / (f * f))
        (np_sqrt (2 * np_pi * cov) * of_nat (length data)).

(** The kernel density estimate of [data] on the grid. *)
Definition density (data grid : list Q) : list Q :=
  kde_evaluate (kde_of data) grid.

(** The sum over the bins of [|bin j| / (2 N)] times the integral over
    the grid of [|fy - fy_c|]. *)
Definition delta_sum (Y Ygrid X m : list Q) : Q :=
  Qsum
    (map (fun j =>
            let Yj := bin_sample Y X m j in
            of_nat (length Yj) / (2 * of_nat (length Y))
            * trapz (abs_diff (density Y Ygrid) (density Yj Ygrid)) Ygrid)
         (seq 0 (length m - 1))).

(** One turn of the loop of [calc_delta]. *)
Definition delta_step (Y Ygrid X m : list Q) (k : kde_t) (d_hat : Q) (j : nat)
  : result Q :=
  Yix <- take Y (bin_indices (rankdata X) m j) ;;
  kc <- gaussian_kde Yix ;;
  w <- py_truediv (length (bin_indices (rankdata X) m j)) (2 * length Y) ;;
  Ok (d_hat
      + w * trapz (abs_diff (kde_evaluate k Ygrid) (kde_evaluate kc Ygrid))
                  Ygrid).

(** The arithmetic mean, the sum of squared deviations from [c] and the
    population variance of a sample. *)
Definition mean (l : list Q) : Q := Qsum l / of_nat (length l).

Definition sqdev (c : Q) (l : list Q) : Q :=
  Qsum (map (fun y => (y - c) * (y - c)) l).

Definition pvar (l : list Q) : Q := sqdev (mean l) l / of_nat (length l).

(** The sum over the bins of [(|bin| / N) * (mean(Y in bin) - mean(Y))^2]. *)
Definition between_var (Y X m : list Q) : Q :=
  Qsum
    (map (fun j =>
            let Yj := bin_sample Y X m j in
            of_nat (length Yj) / of_nat (length Y)
            * ((mean Yj - mean Y) * (mean Yj - mean Y)))
         (seq 0 (length m - 1))).

(** [np.compress(mask, Y)]: the entries of [Y] where the mask is true. *)
Fixpoint compress (mask : list bool) (Y : list Q) : list Q :=
  match mask, Y with
  | b :: mask', y :: Y' =>
      if b then y :: compress mask' Y' else compress mask' Y'
  | _, _ => []
  end.

End Delta.

(* ================================================================= *)
(** ** A rational instance of the primitives

    Coarse rational stand-ins for the transcendental primitives, so that
    the definitions above can be run on examples.  No accuracy is claimed
    for them; what matters below is that they are functions of the number
    (not of its representation as a fraction) and that they keep the
    ranges of the functions they stand for. *)

Module TestLibm.

(** Newton's iteration for the square root. *)
Fixpoint newton_sqrt (fuel : nat) (q x : Q) : Q :=
  match fuel with
  | O => x
  | S fuel' => newton_sqrt fuel' q (Qred ((x + q / x) / 2))
  end.

(** Rounding down to a multiple of [2 ^ -16]. *)
Definition dyadic (q : Q) : Q := Qfloor (q * 65536) # 65536.

Definition sqrt (q : Q) : Q :=
  let q := Qred q in
  if Qle_bool q 0 then 0
  else dyadic (newton_sqrt 5 q (Qred ((q + 1) / 2))).

(** The Taylor polynomial of degree 4, inverted on the negative side so
    that the value stays positive. *)
Definition exp_pos (x : Q) : Q :=
  1 + x + x * x / 2 + x * x * x / 6 + x * x * x * x / 24.

Definition exp (x : Q) : Q :=
  let x := Qred x in
  if Qle_bool 0 x then dyadic (exp_pos x) else dyadic (1 / exp_pos (- x)).

Definition pi : Q := 355 # 113.

(** [b ** e]: the chord [1 + |e| (b - 1)] of the power function, inverted
    for a negative exponent. *)
Definition power (b e : Q) : Q :=
  let b := Qred b in
  let e := Qred e in
  if Qle_bool 0 e then Qred (1 + e * (b - 1))
  else Qred (1 / (1 + - e * (b - 1))).

(** A Pade approximant of [tanh], clamped to [[-1, 1]]. *)
Definition tanh (x : Q) : Q :=
  let x := Qred x in
  Qmax (- (1)) (Qmin 1 (Qred (x * (15 + x * x) / (15 + 6 * (x * x))))).

(** The normal quantile on the upper half, by linear interpolation in a
    short table; the lower half by symmetry. *)
Definition ppf_table : list (Q * Q) :=
  [ (1 # 2, 0); (3 # 4, 6745 # 10000); (9 # 10, 12816 # 10000);
    (95 # 100, 16449 # 10000); (975 # 1000, 196 # 100);
    (99 # 100, 23263 # 10000); (999 # 1000, 30902 # 10000) ].

Fixpoint interpolate (t : list (Q * Q)) (p : Q) : Q :=
  match t with
  | (p0, z0) :: (((p1, z1) :: _) as t') =>
      if Qle_bool p p1 then z0 + (p - p0) * (z1 - z0) / (p1 - p0)
      else interpolate t' p
  | [(_, z0)] => z0
  | [] => 0
  end.

Definition ppf (p : Q) : npfloat :=
  let p := Qred p in
  if Qlt_bool p 0 || Qlt_bool 1 p then NaN
  else if Qeq_bool p 0 then NInf
  else if Qeq_bool p 1 then PInf
  else if Qle_bool (1 # 2) p then Fin (Qred (interpolate ppf_table p))
  else Fin (Qred (- interpolate ppf_table (1 - p))).

Definition fmt (x : npfloat) : string :=
  match x with
  | Fin _ => "<float>"
  | PInf => "inf"
  | NInf => "-inf"
  | NaN => "nan"
  end.

Definition libm : Libm := mkLibm exp sqrt pi power tanh ppf fmt.

(** A generator for the examples: a recorded sequence of draws, nothing
    consumed and nothing printed yet. *)
Definition draws0 : list nat := [2; 3; 3; 0; 1; 1; 2; 0]%nat.

Definition world0 : world := mkWorld (fun k => nth k draws0 O) 0 [].

End TestLibm.

(* ================================================================= *)
(** ** The Sobol estimator in binary64 arithmetic

    numpy's [float64] is the IEEE binary64 format, and so are the kernel's
    primitive floats: [+], [-], [*] and [/] below round to nearest, ties to
    even, as numpy's do, and [0 / 0] is [nan].  The parameter column [X]
    and the boundaries [m] enter [sobol_first] through comparisons only,
    which are exact on floats: they are given by the rationals that their
    entries are, and [rankdata] and [bin_indices] are those of the
    embedding above. *)

Module F64.

Import PrimFloat.
Local Open Scope float_scope.

(** The float of a Python [int] (exact below [2 ^ 53]). *)
Fixpoint of_pos (p : positive) : float :=
  match p with
  | xH => 1
  | xO p' => 2 * of_pos p'
  | xI p' => 2 * of_pos p' + 1
  end.

Definition of_nat (n : nat) : float :=
  match n with
  | O => 0
  | S _ => of_pos (Pos.of_nat n)
  end.

(** numpy's pairwise summation ([pairwise_sum] of its [umath] loops):
    fewer than 8 numbers are added from left to right; up to 128 numbers
    go to 8 accumulators that are then added in pairs, the rest after
    them; a longer array is split in two near the middle, at a multiple
    of 8. *)
Definition sum_lt8 (a : list float) : float := fold_left add a 0.

Fixpoint add_blocks (k : nat) (r a : list float) : list float * list float :=
  match k with
  | O => (r, a)
  | S k' =>
      add_blocks k' (map (fun p => fst p + snd p) (combine r (firstn 8 a)))
                 (skipn 8 a)
  end.

Definition sum_block (a : list float) : float :=
  let (r, rest) := add_blocks (length a / 8 - 1) (firstn 8 a) (skipn 8 a) in
  match r with
  | [r0; r1; r2; r3; r4; r5; r6; r7] =>
      fold_left add rest (((r0 + r1) + (r2 + r3)) + ((r4 + r5) + (r6 + r7)))
  | _ => sum_lt8 a
  end.

Fixpoint pairwise_sum (fuel : nat) (a : list float) : float :=
  let n := length a in
  if (n <? 8)%nat then sum_lt8 a
  else if (n <=? 128)%nat then sum_block a
  else
    match fuel with
    | O => sum_block a
    | S fuel' =>
        let n2 := (n / 2 - (n / 2) mod 8)%nat in
        pairwise_sum fuel' (firstn n2 a) + pairwise_sum fuel' (skipn n2 a)
    end.

(** [np.add.reduce]: the identity 0, then the pairwise sum of the array
    (the length is fuel enough: every split halves it). *)
Definition np_sum (a : list float) : float := 0 + pairwise_sum (length a) a.

(** [arr.mean()]: [sum / size], [nan] on an empty array. *)
Definition np_mean (a : list float) : float := np_sum a / of_nat (length a).

(** [np.var(arr)] with [ddof = 0]. *)
Definition np_var (a : list float) : float :=
  let arrmean := np_mean a in
  let x := map (fun y => (y - arrmean) * (y - arrmean)) a in
  np_sum x / of_nat (length a).

(** [Y[ix]] for an index array [ix]. *)
Fixpoint take (Y : list float) (ix : list nat) : result (list float) :=
  match ix with
  | [] => Ok []
  | i :: ix' =>
      match nth_error Y i with
      | Some y => rest <- take Y ix' ;; Ok (y :: rest)
      | None => Raise (IndexError i (length Y))
      end
  end.

(** Python's [/] on two [int]s: the quotient, correctly rounded. *)
Definition py_truediv (a b : nat) : result float :=
  match b with
  | O => Raise (ZeroDivisionError "division by zero")
  | _ => Ok (of_nat a / of_nat b)
  end.

Definition sobol_first (Y : list float) (X m : list Q) : result float :=
  let xr := rankdata X in
  let N := length Y in
  Vi <- for_ (seq 0 (length m - 1))
          (fun Vi j =>
             let ix := bin_indices xr m j in
             let nm := length ix in
             w <- py_truediv nm N ;;
             Yix <- take Y ix ;;
             let dev := np_mean Yix - np_mean Y in
             Ok (Vi + w * (dev * dev)))
          0 ;;
  Ok (Vi / np_var Y).

(** The float [0.1], and the next float above it. *)
Definition tenth : float := 1 / 10.

Definition tenth_up : float := next_up tenth.

End F64.

(* ================================================================= *)
(** ** Definitions used in the statements and proofs *)

Definition conf_level_message : string :=
  "Confidence level must be between 0-1.".

(** [quiet c]: the computation [c] does not raise a [RuntimeError]. *)
Definition quiet {A : Type} (c : result A) : Prop :=
  forall msg, c <> Raise (RuntimeError msg).

Definition quiet_io {A : Type} (c : io A) : Prop :=
  forall w, quiet (fst (c w)).

Create HintDb quiet.

(** Writing the values [vs] into an array, from position [k0] on. *)
Definition fill (k0 : nat) (vs : list Q) (d : list npfloat) : list npfloat :=
  fold_left (fun d iv => list_set (fst iv) (Fin (snd iv)) d)
            (combine (seq k0 (length vs)) vs) d.

(** The sample variance (ddof = 1) of at least two finite values. *)
Definition var1 (l : list Q) : Q :=
  let mu := Qsum l / of_nat (length l) in
  Qsum (map (fun x => (x + - mu) * (x + - mu)) l) / of_nat (length l - 1).

(** The index vector of resample [k] in a run that starts in world [w],
    for a sample of size [N]: [N] draws, each reduced to [0 .. N - 1]. *)
Definition resample_indices (w : world) (N k : nat) : list nat :=
  map (fun t => (rng_draws w (rng_pos w + k * N + t) mod N)%nat) (seq 0 N).

(** What the accumulator [Vi] can be when the output is constant. *)
Definition zero_or_nan (x : npfloat) : Prop :=
  match x with
  | Fin q => q == 0
  | NaN => True
  | _ => False
  end.


(** One turn of the loop of [sobol_first]. *)
Definition sobol_step (Y X m : list Q) (Vi : npfloat) (j : nat)
  : result npfloat :=
  w <- py_truediv (length (bin_indices (rankdata X) m j)) (length Y) ;;
  Yix <- take Y (bin_indices (rankdata X) m j) ;;
  Ok (fadd Vi
        (fmul (Fin w)
           (fsqr (fsub (np_mean (map Fin Yix)) (np_mean (map Fin Y)))))).

(** The order of ordinal ranking: by value, and by position among equal
    values. *)
Definition rank_before (a : list Q) (i j : nat) : Prop :=
  nth i a 0 < nth j a 0 \/ (nth i a 0 == nth j a 0 /\ (i < j)%nat).

(** [raises_only P c]: if [c] fails, its exception satisfies [P]. *)
Definition raises_only {A : Type} (P : exn -> Prop) (c : result A) : Prop :=
  match c with
  | Ok _ => True
  | Raise e => P e
  end.

(** The exceptions of [gaussian_kde], and those of indexing besides. *)
Definition is_kde_exn (e : exn) : Prop :=
  e = ValueError "`dataset` input should have multiple elements."
  \/ e = LinAlgError "singular matrix".

Definition is_kde_or_index_exn (e : exn) : Prop :=
  is_kde_exn e \/ exists i n, e = IndexError i n.

(** [effect k p c]: a run of [c] that succeeds has consumed [k] draws of
    the generator and printed [p] lines, and nothing else has changed. *)
Definition effect {A : Type} (k p : nat) (c : io A) : Prop :=
  forall w a w',
    c w = (Ok a, w') ->
    rng_draws w' = rng_draws w
    /\ rng_pos w' = (rng_pos w + k)%nat
    /\ exists lines, console w' = console w ++ lines /\ length lines = p.

(** [silent c]: no run of [c], failing or not, prints anything. *)
Definition silent {A : Type} (c : io A) : Prop :=
  forall w, console (snd (c w)) = console w.

Section ResultOfAnalyze.

Context {L : Libm}.

(** The entries of index [i] in the result [S] are what the three
    estimators return for column [i] of [X], the bootstraps reading the
    generator of the call from draw [i * 2 * R * N] on. *)
Definition param_result (X : matrix) (Y Ygrid m : list Q) (R : nat) (c : Q)
    (w0 : world) (S : sens) (i : nat) : Prop :=
  exists Xi w1 w2 w3,
    column X i = Ok Xi
    /\ rng_draws w1 = rng_draws w0
    /\ rng_pos w1 = (rng_pos w0 + i * (2 * (R * length Y)))%nat
    /\ bias_reduced_delta Y Ygrid Xi m R c w1
       = (Ok (nth i (delta S) NaN, nth i (delta_conf S) NaN), w2)
    /\ sobol_first Y Xi m = Ok (nth i (S1 S) NaN)
    /\ sobol_first_conf Y Xi m R c w2 = (Ok (nth i (S1_conf S) NaN), w3).

End ResultOfAnalyze.

(** Writing the floats [vs] into an array, from position [k0] on. *)
Definition fill_np (k0 : nat) (vs d : list npfloat) : list npfloat :=
  fold_left (fun d iv => list_set (fst iv) (snd iv) d)
            (combine (seq k0 (length vs)) vs) d.

(** The estimate of [sobol_first] on resample [k], [nan] standing for a
    failure. *)
Definition sobol_resample (Y X m : list Q) (w : world) (k : nat) : npfloat :=
  match sobol_first (map (fun i => nth i Y 0)
                         (resample_indices w (length Y) k))
                    (map (fun i => nth i X 0)
                         (resample_indices w (length Y) k)) m with
  | Ok v => v
  | Raise _ => NaN
  end.

(** The exceptions that can leave [analyze]. *)
Definition is_analyze_exn (e : exn) : Prop :=
  e = RuntimeError "Confidence level must be between 0-1."
  \/ e = ValueError
           "zero-size array to reduction operation minimum which has no identity"
  \/ is_kde_or_index_exn e.

(** [raises_io P c]: in whatever world [c] is run, if it fails, its
    exception satisfies [P]. *)
Definition raises_io {A : Type} (P : exn -> Prop) (c : io A) : Prop :=
  forall w, raises_only P (fst (c w)).

(* ================================================================= *)
(** ** Properties *)

(** *** The validation of [conf_level] *)

Lemma quiet_Ok {A : Type} (a : A) : quiet (Ok a).
Proof. intros msg H; discriminate. Qed.

Lemma quiet_bind {A B : Type} (c : result A) (k : A -> result B) :
  quiet c -> (forall a, quiet (k a)) -> quiet (bind c k).
Proof.
  intros Hc Hk msg. destruct c as [a | e]; simpl.
  - apply Hk.
  - intros H. apply (Hc msg). injection H as ->. reflexivity.
Qed.

Lemma quiet_for {A S : Type} (l : list A) (body : S -> A -> result S) :
  (forall s a, quiet (body s a)) -> forall s, quiet (for_ l body s).
Proof.
  intros Hb. induction l as [| a l IH]; intros s; simpl.
  - apply quiet_Ok.
  - apply quiet_bind; auto.
Qed.

Lemma quiet_py_truediv a b : quiet (py_truediv a b).
Proof. destruct b; intros msg H; discriminate. Qed.

Lemma quiet_take Y ix : quiet (take Y ix).
Proof.
  induction ix as [| i ix IH]; simpl.
  - apply quiet_Ok.
  - destruct (nth_error Y i).
    + apply quiet_bind; [exact IH | intros; apply quiet_Ok].
    + intros msg H; discriminate.
Qed.

Lemma quiet_np_min Y : quiet (np_min Y).
Proof. destruct Y; intros msg H; discriminate. Qed.

Lemma quiet_np_max Y : quiet (np_max Y).
Proof. destruct Y; intros msg H; discriminate. Qed.

Lemma quiet_column X i : quiet (column X i).
Proof.
  unfold column. destruct (i <? ncols X)%nat; intros msg H; discriminate.
Qed.

Lemma quiet_names_get p i : quiet (names_get p i).
Proof.
  unfold names_get. destruct (nth_error (names p) i);
    intros msg H; discriminate.
Qed.

#[export] Hint Resolve quiet_Ok quiet_bind quiet_for quiet_py_truediv
  quiet_take quiet_np_min quiet_np_max quiet_column quiet_names_get : quiet.

Lemma quiet_io_ret {A : Type} (a : A) : quiet_io (ret a).
Proof. intros w msg H; discriminate. Qed.

Lemma quiet_io_lift {A : Type} (c : result A) : quiet c -> quiet_io (lift c).
Proof. intros H w. exact H. Qed.

Lemma quiet_io_bind {A B : Type} (c : io A) (k : A -> io B) :
  quiet_io c -> (forall a, quiet_io (k a)) -> quiet_io (bind_io c k).
Proof.
  intros Hc Hk w. unfold bind_io. specialize (Hc w).
  destruct (c w) as [[a | e] w']; simpl in *.
  - apply Hk.
  - intros msg H. apply (Hc msg). injection H as ->. reflexivity.
Qed.

Lemma quiet_io_for {A S : Type} (l : list A) (body : S -> A -> io S) :
  (forall s a, quiet_io (body s a)) -> forall s, quiet_io (for_io l body s).
Proof.
  intros Hb. induction l as [| a l IH]; intros s; simpl.
  - apply quiet_io_ret.
  - apply quiet_io_bind; auto.
Qed.

Lemma quiet_io_randint high size : quiet_io (randint high size).
Proof. intros w msg. unfold randint. destruct high; discriminate. Qed.

Lemma quiet_io_print line : quiet_io (print line).
Proof. intros w msg H; discriminate. Qed.

#[export] Hint Resolve quiet_io_ret quiet_io_lift quiet_io_bind quiet_io_for
  quiet_io_randint quiet_io_print : quiet.

(** *** Arithmetic on converted naturals *)

Lemma of_nat_add a b : of_nat (a + b) == of_nat a + of_nat b.
Proof. unfold of_nat. rewrite Nat2Z.inj_add, inject_Z_plus. reflexivity. Qed.

Lemma of_nat_mul a b : of_nat (a * b) == of_nat a * of_nat b.
Proof. unfold of_nat. rewrite Nat2Z.inj_mul, inject_Z_mult. reflexivity. Qed.

Lemma of_nat_S a : of_nat (S a) == of_nat a + 1.
Proof.
  unfold of_nat. rewrite Nat2Z.inj_succ, <- Z.add_1_r, inject_Z_plus.
  reflexivity.
Qed.

Lemma of_nat_lt a b : of_nat a < of_nat b <-> (a < b)%nat.
Proof. unfold of_nat. rewrite <- Zlt_Qlt. lia. Qed.

Lemma of_nat_le a b : of_nat a <= of_nat b <-> (a <= b)%nat.
Proof. unfold of_nat. rewrite <- Zle_Qle. lia. Qed.

Lemma of_nat_nonneg a : 0 <= of_nat a.
Proof. change 0 with (of_nat 0). apply of_nat_le. lia. Qed.

Lemma of_nat_pos a : (0 < a)%nat -> 0 < of_nat a.
Proof. intros H. change 0 with (of_nat 0). apply of_nat_lt. exact H. Qed.

Lemma Qlt_bool_iff a b : Qlt_bool a b = true <-> a < b.
Proof.
  unfold Qlt_bool. rewrite negb_true_iff. split.
  - intros H. apply Qnot_le_lt. intros Hle.
    apply Qle_bool_iff in Hle. congruence.
  - intros H. apply not_true_is_false. rewrite Qle_bool_iff. lra.
Qed.

Lemma in_bin_spec lo hi r :
  in_bin lo hi r = true <-> lo < of_nat r /\ of_nat r <= hi.
Proof.
  unfold in_bin. rewrite andb_true_iff, Qlt_bool_iff, Qle_bool_iff.
  reflexivity.
Qed.

(** *** [linspace] *)

Lemma nth_map_seq {A : Type} (f : nat -> A) (d : A) (n j : nat) :
  (j < n)%nat -> nth j (map f (seq 0 n)) d = f j.
Proof.
  intros Hj. rewrite (nth_indep _ d (f O))
    by (rewrite length_map, length_seq; exact Hj).
  rewrite map_nth, seq_nth by exact Hj. reflexivity.
Qed.

Lemma linspace_length a b n : length (linspace a b n) = n.
Proof.
  destruct n as [| [| n]]; simpl; try reflexivity.
  rewrite length_app, length_map, length_seq. simpl. lia.
Qed.

(** The boundary of index [j] lies at [a + j (b - a) / M]. *)
Lemma linspace_nth a b M j :
  (1 <= M)%nat -> (j <= M)%nat ->
  nth j (linspace a b (S M)) 0 == a + of_nat j * ((b - a) / of_nat M).
Proof.
  intros HM Hj. destruct M as [| M']; [lia |].
  set (M := S M') in *.
  assert (Hpos : 0 < of_nat M) by (apply of_nat_pos; lia).
  change (linspace a b (S M))
    with (map (fun k => of_nat k * ((b - a) / of_nat M) + a) (seq 0 M)
              ++ [b]).
  destruct (Nat.eq_dec j M) as [-> | Hne].
  - rewrite app_nth2 by (rewrite length_map, length_seq; lia).
    rewrite length_map, length_seq, Nat.sub_diag. simpl nth.
    field. lra.
  - rewrite app_nth1 by (rewrite length_map, length_seq; lia).
    rewrite nth_map_seq by lia. ring.
Qed.

(** Membership in bin [j] of the equal-frequency partition, in integers. *)
Lemma in_bin_linspace N M j r :
  (1 <= M)%nat -> (j < M)%nat ->
  in_bin (nth j (linspace 0 (of_nat N) (S M)) 0)
         (nth (S j) (linspace 0 (of_nat N) (S M)) 0) r = true
  <-> (j * N < r * M /\ r * M <= S j * N)%nat.
Proof.
  intros HM Hj. rewrite in_bin_spec.
  rewrite !linspace_nth by lia.
  assert (Hpos : 0 < of_nat M) by (apply of_nat_pos; lia).
  rewrite <- of_nat_lt, <- of_nat_le, !of_nat_mul.
  set (x := of_nat N) in *. set (y := of_nat M) in *.
  set (u := of_nat j). set (v := of_nat (S j)). set (t := of_nat r).
  assert (E1 : (0 + u * ((x - 0) / y)) * y == u * x) by (field; lra).
  assert (E2 : (0 + v * ((x - 0) / y)) * y == v * x) by (field; lra).
  set (p := 0 + u * ((x - 0) / y)) in *.
  set (q := 0 + v * ((x - 0) / y)) in *.
  split; intros [H1 H2]; split; nra.
Qed.

Lemma sorted_map_seq_app (f : nat -> Q) (b : Q) n s :
  (forall k, f k <= f (S k)) ->
  (forall k, (k < s + n)%nat -> f k <= b) ->
  Sorted Qle (map f (seq s n) ++ [b]).
Proof.
  intros Hstep. revert s. induction n as [| n IH]; intros s Hb; simpl.
  - repeat constructor.
  - constructor.
    + apply IH. intros k Hk. apply Hb. lia.
    + destruct n as [| n]; simpl; constructor.
      * apply Hb. lia.
      * apply Hstep.
Qed.

(** From a lower to a higher end point the values do not decrease. *)
Lemma linspace_sorted a b n : a <= b -> Sorted Qle (linspace a b n).
Proof.
  intros Hab. destruct n as [| [| d]]; [constructor | repeat constructor |].
  unfold linspace.
  assert (Hd : 0 < of_nat (S d)) by (apply of_nat_pos; lia).
  set (step := (b - a) / of_nat (S d)).
  assert (Hstep : 0 <= step) by (apply Qle_shift_div_l; lra).
  assert (Hfull : of_nat (S d) * step == b - a) by (unfold step; field; lra).
  apply sorted_map_seq_app.
  - intros k. rewrite of_nat_S. lra.
  - intros k Hk.
    assert (of_nat k <= of_nat (S d)) by (apply of_nat_le; lia).
    nra.
Qed.

Lemma fold_Qmin_le l a : fold_left Qmin l a <= a.
Proof.
  revert a. induction l as [| x l IH]; intros a; simpl.
  - lra.
  - eapply Qle_trans; [apply IH | apply Q.le_min_l].
Qed.

Lemma fold_Qmax_ge l a : a <= fold_left Qmax l a.
Proof.
  revert a. induction l as [| x l IH]; intros a; simpl.
  - lra.
  - eapply Qle_trans; [apply Q.le_max_l | apply IH].
Qed.

(** The evaluation grid that [analyze] builds is non-decreasing. *)
Lemma evaluation_grid_sorted Y lo hi :
  np_min Y = Ok lo -> np_max Y = Ok hi -> Sorted Qle (linspace lo hi 100).
Proof.
  destruct Y as [| y Y]; [discriminate |]. cbn [np_min np_max].
  intros Hlo Hhi. injection Hlo as <-. injection Hhi as <-.
  apply linspace_sorted.
  eapply Qle_trans; [apply fold_Qmin_le | apply fold_Qmax_ge].
Qed.

(** *** Sums *)

Lemma fold_left_Qplus l a : fold_left Qplus l a == a + Qsum l.
Proof.
  unfold Qsum. revert a. induction l as [| x l IH]; intros a; simpl.
  - ring.
  - rewrite IH, (IH (0 + x)). ring.
Qed.

Lemma Qsum_cons x l : Qsum (x :: l) == x + Qsum l.
Proof. unfold Qsum at 1. simpl. rewrite fold_left_Qplus. ring. Qed.

Lemma Qsum_nil : Qsum [] == 0.
Proof. reflexivity. Qed.

Lemma Qsum_app l1 l2 : Qsum (l1 ++ l2) == Qsum l1 + Qsum l2.
Proof.
  induction l1 as [| x l1 IH]; simpl.
  - rewrite Qsum_nil. ring.
  - rewrite !Qsum_cons, IH. ring.
Qed.

Lemma Qsum_ext {A : Type} (f g : A -> Q) l :
  (forall a, In a l -> f a == g a) -> Qsum (map f l) == Qsum (map g l).
Proof.
  induction l as [| x l IH]; intros H; simpl.
  - reflexivity.
  - assert (Hx : f x == g x) by (apply H; simpl; auto).
    assert (Hl : Qsum (map f l) == Qsum (map g l))
      by (apply IH; intros; apply H; simpl; auto).
    rewrite !Qsum_cons, Hx, Hl. reflexivity.
Qed.

Lemma Qsum_nonneg l : (forall x, In x l -> 0 <= x) -> 0 <= Qsum l.
Proof.
  induction l as [| x l IH]; intros H.
  - rewrite Qsum_nil. lra.
  - rewrite Qsum_cons. assert (0 <= x) by (apply H; simpl; auto).
    assert (0 <= Qsum l) by (apply IH; intros; apply H; simpl; auto). lra.
Qed.

Lemma Qsum_const l c :
  (forall x, In x l -> x == c) -> Qsum l == of_nat (length l) * c.
Proof.
  induction l as [| x l IH]; intros H.
  - rewrite Qsum_nil. simpl. change (of_nat 0) with 0. ring.
  - assert (Hx : x == c) by (apply H; simpl; auto).
    assert (Hl : Qsum l == of_nat (length l) * c)
      by (apply IH; intros; apply H; simpl; auto).
    rewrite Qsum_cons. simpl length. rewrite of_nat_S, Hl, Hx. ring.
Qed.

Lemma fold_left_fadd_Fin l a :
  fold_left fadd (map Fin l) (Fin a) = Fin (fold_left Qplus l a).
Proof.
  revert a. induction l as [| x l IH]; intros a; simpl.
  - reflexivity.
  - apply IH.
Qed.

Lemma np_sum_Fin l : np_sum (map Fin l) = Fin (Qsum l).
Proof. apply fold_left_fadd_Fin. Qed.

Lemma Qeq_bool_of_nat_S n : Qeq_bool (of_nat (S n)) 0 = false.
Proof.
  apply not_true_is_false. rewrite Qeq_bool_iff.
  pose proof (of_nat_pos (S n) ltac:(lia)). lra.
Qed.

(** The mean of a non-empty array of finite values is finite. *)
Lemma np_mean_Fin l :
  l <> [] -> np_mean (map Fin l) = Fin (Qsum l / of_nat (length l)).
Proof.
  intros Hl. unfold np_mean. rewrite np_sum_Fin, length_map.
  destruct l as [| x l]; [congruence |].
  simpl length. unfold fdiv. rewrite Qeq_bool_of_nat_S. reflexivity.
Qed.

(** The mean of an empty array is [nan]. *)
Lemma np_mean_nil : np_mean [] = NaN.
Proof. reflexivity. Qed.

Lemma py_truediv_ok a b :
  b <> O -> py_truediv a b = Ok (of_nat a / of_nat b).
Proof. destruct b; [congruence | reflexivity]. Qed.

(** *** Index arrays *)

Lemma where_from_bound k mask i :
  In i (where_from k mask) -> (k <= i < k + length mask)%nat.
Proof.
  revert k. induction mask as [| b mask IH]; intros k; simpl.
  - intros [].
  - destruct b; simpl.
    + intros [<- | H]; [lia | apply IH in H; lia].
    + intros H. apply IH in H. lia.
Qed.

Lemma bin_indices_bound xr m j i :
  In i (bin_indices xr m j) -> (i < length xr)%nat.
Proof.
  unfold bin_indices, np_where, bin_mask. intros H.
  apply where_from_bound in H. rewrite length_map in H. lia.
Qed.

(** Indexing succeeds when every index is in range, and then it reads the
    entries at these indices. *)
Lemma take_ok Y ix :
  (forall i, In i ix -> (i < length Y)%nat) ->
  take Y ix = Ok (map (fun i => nth i Y 0) ix).
Proof.
  induction ix as [| i ix IH]; intros H; simpl.
  - reflexivity.
  - assert (Hi : (i < length Y)%nat) by (apply H; simpl; auto).
    rewrite (nth_error_nth' Y 0 Hi), IH by (intros; apply H; simpl; auto).
    reflexivity.
Qed.

(** *** [rankdata] *)

Lemma insert_by_length a i s : length (insert_by a i s) = S (length s).
Proof.
  induction s as [| k s IH]; simpl.
  - reflexivity.
  - destruct (Qle_bool (nth k a 0) (nth i a 0)); simpl; [rewrite IH |];
      reflexivity.
Qed.

Lemma fold_insert_length a l s :
  length (fold_left (fun s i => insert_by a i s) l s)
  = (length l + length s)%nat.
Proof.
  revert s. induction l as [| i l IH]; intros s; simpl.
  - reflexivity.
  - rewrite IH, insert_by_length. lia.
Qed.

Lemma argsort_length a : length (argsort a) = length a.
Proof.
  unfold argsort. rewrite fold_insert_length, length_seq. simpl. lia.
Qed.

Lemma list_set_length {A : Type} i (v : A) l :
  length (list_set i v l) = length l.
Proof.
  revert i. induction l as [| x l IH]; intros [| i]; simpl;
    try reflexivity.
  rewrite IH. reflexivity.
Qed.

Lemma scatter_fold_length (l : list (nat * nat)) (init : list nat) :
  length (fold_left (fun inv pk => list_set (fst pk) (snd pk) inv) l init)
  = length init.
Proof.
  revert init. induction l as [| pk l IH]; intros init; simpl.
  - reflexivity.
  - rewrite IH. apply list_set_length.
Qed.

Lemma rankdata_length a : length (rankdata a) = length a.
Proof.
  unfold rankdata, scatter.
  rewrite length_map, scatter_fold_length, repeat_length.
  apply argsort_length.
Qed.

(** *** Loops *)

Lemma for_io_invariant {A S : Type} (P : S -> Prop) (l : list A)
    (body : S -> A -> io S) :
  (forall s a w s' w', P s -> body s a w = (Ok s', w') -> P s') ->
  forall s w s' w', P s -> for_io l body s w = (Ok s', w') -> P s'.
Proof.
  intros Hbody. induction l as [| a l IH]; intros s w s' w' Hs; cbn [for_io].
  - unfold ret. intros H. injection H as <- _. exact Hs.
  - unfold bind_io. destruct (body s a w) as [[s1 | e] w1] eqn:E.
    + apply IH. apply (Hbody _ _ _ _ _ Hs E).
    + discriminate.
Qed.

(** *** The sample variance of a single value *)

Lemma np_var_ddof1_single x : np_var 1 [x] = NaN.
Proof.
  destruct x as [q | | |]; try reflexivity.
  unfold np_var, np_mean, np_sum. cbn [map fold_left length fadd].
  change (of_nat 1) with 1. change (of_nat (1 - 1)) with 0.
  unfold fdiv at 2. change (Qeq_bool 1 0) with false. cbv iota.
  cbn [fsub fneg fadd fsqr fmul]. unfold fdiv.
  change (Qeq_bool 0 0) with true. cbv iota.
  assert (E : 0 + (q + - ((0 + q) / 1)) * (q + - ((0 + q) / 1)) == 0)
    by (field).
  apply Qeq_alt in E. rewrite E. reflexivity.
Qed.

(** *** The trapezoidal rule *)

Lemma abs_diff_nonneg a b v : In v (abs_diff a b) -> 0 <= v.
Proof.
  revert b. induction a as [| a0 a IH]; intros [| b0 b];
    cbn [abs_diff In]; try tauto.
  intros [<- | H]; [apply Qabs_nonneg | eapply IH; exact H].
Qed.

Lemma trapz_cons2 y0 y1 y x0 x1 x :
  trapz (y0 :: y1 :: y) (x0 :: x1 :: x)
  = (x1 - x0) * (y1 + y0) / 2 + trapz (y1 :: y) (x1 :: x).
Proof. reflexivity. Qed.

(** On a non-decreasing grid the integral of a non-negative function is
    non-negative. *)
Lemma trapz_nonneg x :
  Sorted Qle x -> forall y, (forall v, In v y -> 0 <= v) -> 0 <= trapz y x.
Proof.
  induction 1 as [| x0 x Hs IH Hd]; intros y Hy.
  - destruct y as [| y0 [| y1 y]]; simpl; lra.
  - destruct y as [| y0 [| y1 y]]; [simpl; lra .. |].
    destruct x as [| x1 x]; [simpl; lra |].
    rewrite trapz_cons2.
    inversion Hd as [| ? ? H01]; subst.
    assert (0 <= y0) by (apply Hy; simpl; auto).
    assert (0 <= y1) by (apply Hy; simpl; auto).
    assert (0 <= trapz (y1 :: y) (x1 :: x)).
    { apply IH. intros v Hv. apply Hy. simpl. simpl in Hv. tauto. }
    assert (0 <= (x1 - x0) * (y1 + y0)) by nra.
    assert ((x1 - x0) * (y1 + y0) / 2 == (x1 - x0) * (y1 + y0) * (1 # 2))
      by field.
    lra.
Qed.

(** *** Floats as numbers *)

Lemma feq_refl x : feq x x.
Proof. destruct x; simpl; auto. reflexivity. Qed.

Lemma feq_finf_of c : feq (finf_of c) (finf_of c).
Proof. apply feq_refl. Qed.

Lemma fmul_feq_r a b b' : feq b b' -> feq (fmul a b) (fmul a b').
Proof.
  destruct a as [x | | |], b as [y | | |], b' as [y' | | |]; simpl;
    try tauto; try (intros _; apply feq_refl).
  - intros H. rewrite H. reflexivity.
  - intros H. rewrite (Qcompare_comp _ _ H 0 0 (Qeq_refl 0)).
    apply feq_refl.
  - intros H. rewrite (Qcompare_comp 0 0 (Qeq_refl 0) _ _ H).
    apply feq_refl.
Qed.

(** *** Filling an array position by position *)

Lemma list_set_app {A : Type} (pre : list A) x rest v :
  list_set (length pre) v (pre ++ x :: rest) = pre ++ v :: rest.
Proof.
  induction pre as [| p pre IH]; simpl.
  - reflexivity.
  - rewrite IH. reflexivity.
Qed.

Lemma fill_app pre vs x :
  fill (length pre) vs (pre ++ repeat x (length vs)) = pre ++ map Fin vs.
Proof.
  revert pre. induction vs as [| v vs IH]; intros pre; unfold fill; simpl.
  - reflexivity.
  - rewrite list_set_app.
    change (pre ++ Fin v :: repeat x (length vs))
      with (pre ++ [Fin v] ++ repeat x (length vs)).
    rewrite app_assoc.
    replace (S (length pre)) with (length (pre ++ [Fin v]))
      by (rewrite length_app; simpl; lia).
    fold (fill (length (pre ++ [Fin v])) vs
               ((pre ++ [Fin v]) ++ repeat x (length vs))).
    rewrite IH, <- app_assoc. reflexivity.
Qed.

Lemma fill_all vs x : fill 0 vs (repeat x (length vs)) = map Fin vs.
Proof. apply (fill_app [] vs x). Qed.

(** *** Mean and variance of finite arrays *)

Lemma Qsum_affine c l :
  Qsum (map (fun x => c + - x) l) == of_nat (length l) * c - Qsum l.
Proof.
  induction l as [| x l IH].
  - simpl. rewrite Qsum_nil. change (of_nat 0) with 0. ring.
  - cbn [map length]. rewrite !Qsum_cons, IH, of_nat_S. ring.
Qed.

Lemma np_var_ddof1_Fin l :
  (2 <= length l)%nat -> np_var 1 (map Fin l) = Fin (var1 l).
Proof.
  intros Hl. unfold np_var.
  rewrite np_mean_Fin by (destruct l; [simpl in Hl; lia | discriminate]).
  rewrite map_map, length_map.
  change (fun x => fsqr (fsub (Fin x) (Fin (Qsum l / of_nat (length l)))))
    with (fun x => Fin ((x + - (Qsum l / of_nat (length l)))
                        * (x + - (Qsum l / of_nat (length l))))).
  rewrite <- (map_map (fun x => (x + - (Qsum l / of_nat (length l)))
                                * (x + - (Qsum l / of_nat (length l)))) Fin),
    np_sum_Fin.
  unfold fdiv.
  destruct (length l - 1)%nat as [| n] eqn:E; [lia |].
  rewrite Qeq_bool_of_nat_S, <- E. reflexivity.
Qed.

Lemma np_var_ddof1_short l :
  (length l <= 1)%nat -> np_var 1 (map Fin l) = NaN.
Proof.
  destruct l as [| x [| y l]]; simpl length; intros H; try lia.
  - reflexivity.
  - apply np_var_ddof1_single.
Qed.

(** The variance does not change under [x |-> c - x]. *)
Lemma var1_reflect c l :
  (2 <= length l)%nat -> var1 (map (fun x => c + - x) l) == var1 l.
Proof.
  intros Hl. unfold var1. rewrite !length_map.
  assert (Hn : 0 < of_nat (length l)) by (apply of_nat_pos; lia).
  assert (Hn1 : 0 < of_nat (length l - 1)) by (apply of_nat_pos; lia).
  assert (Hmu : Qsum (map (fun x => c + - x) l) / of_nat (length l)
                == c + - (Qsum l / of_nat (length l))).
  { rewrite Qsum_affine. field. lra. }
  rewrite map_map.
  rewrite (Qsum_ext
             (fun x => (c + - x + - (Qsum (map (fun x0 => c + - x0) l)
                                     / of_nat (length l)))
                       * (c + - x + - (Qsum (map (fun x0 => c + - x0) l)
                                       / of_nat (length l))))
             (fun x => (x + - (Qsum l / of_nat (length l)))
                       * (x + - (Qsum l / of_nat (length l))))).
  - reflexivity.
  - intros x _. rewrite Hmu. ring.
Qed.

(** *** Index vectors of a bootstrap *)

Lemma resample_indices_length w N k : length (resample_indices w N k) = N.
Proof.
  unfold resample_indices. rewrite length_map, length_seq. reflexivity.
Qed.

Lemma resample_indices_bound w N k i :
  N <> O -> In i (resample_indices w N k) -> (i < N)%nat.
Proof.
  intros HN H. unfold resample_indices in H. apply in_map_iff in H.
  destruct H as [t [<- _]]. apply Nat.mod_upper_bound. exact HN.
Qed.

Lemma randint_resample w N k con :
  N <> O ->
  randint N N (mkWorld (rng_draws w) (rng_pos w + k * N) con)
  = (Ok (resample_indices w N k),
     mkWorld (rng_draws w) (rng_pos w + S k * N) con).
Proof.
  intros HN. unfold randint. destruct N as [| n]; [congruence |].
  cbn [rng_draws rng_pos console]. unfold resample_indices.
  f_equal. f_equal. lia.
Qed.

Lemma take_bin Y X m j :
  length X = length Y ->
  take Y (bin_indices (rankdata X) m j) = Ok (bin_sample Y X m j).
Proof.
  intros Hlen. apply take_ok. intros i Hi.
  apply bin_indices_bound in Hi. rewrite rankdata_length in Hi. lia.
Qed.

Lemma bin_sample_length Y X m j :
  length (bin_sample Y X m j) = length (bin_indices (rankdata X) m j).
Proof. unfold bin_sample, select. apply length_map. Qed.

(** *** Ordinal ranks are a permutation of [1 .. N] *)

Lemma insert_by_perm a i s : Permutation (insert_by a i s) (i :: s).
Proof.
  induction s as [| k s IH]; simpl.
  - apply Permutation_refl.
  - destruct (Qle_bool (nth k a 0) (nth i a 0)).
    + rewrite IH. apply perm_swap.
    + apply Permutation_refl.
Qed.

Lemma fold_insert_perm a l s :
  Permutation (fold_left (fun s i => insert_by a i s) l s) (l ++ s).
Proof.
  revert s. induction l as [| i l IH]; intros s; simpl.
  - apply Permutation_refl.
  - rewrite IH, insert_by_perm. symmetry. apply Permutation_middle.
Qed.

Lemma argsort_perm a : Permutation (argsort a) (seq 0 (length a)).
Proof.
  unfold argsort. rewrite fold_insert_perm, app_nil_r.
  apply Permutation_refl.
Qed.

Lemma argsort_NoDup a : NoDup (argsort a).
Proof.
  apply (Permutation_NoDup (Permutation_sym (argsort_perm a))).
  apply seq_NoDup.
Qed.

Lemma argsort_bound a i : In i (argsort a) -> (i < length a)%nat.
Proof.
  intros H. apply (Permutation_in _ (argsort_perm a)) in H.
  apply in_seq in H. lia.
Qed.

Lemma list_set_nth_same {A : Type} i (v d : A) l :
  (i < length l)%nat -> nth i (list_set i v l) d = v.
Proof.
  revert i. induction l as [| x l IH]; intros [| i]; simpl; intros H;
    try lia; [reflexivity | apply IH; lia].
Qed.

Lemma list_set_nth_other {A : Type} i j (v d : A) l :
  i <> j -> nth j (list_set i v l) d = nth j l d.
Proof.
  revert i j. induction l as [| x l IH]; intros [| i] [| j] H; simpl;
    try reflexivity; try congruence.
  apply IH. congruence.
Qed.

(** A position that is not written keeps its content. *)
Lemma scatter_fold_skip (lp : list (nat * nat)) (init : list nat) p :
  ~ In p (map fst lp) ->
  nth p (fold_left (fun inv pk => list_set (fst pk) (snd pk) inv) lp init) O
  = nth p init O.
Proof.
  revert init. induction lp as [| [p0 v0] lp IH]; intros init Hp; simpl.
  - reflexivity.
  - rewrite IH by (intros H; apply Hp; simpl; auto).
    apply list_set_nth_other. intros ->. apply Hp. simpl. auto.
Qed.

(** A position that is written once holds what was written. *)
Lemma scatter_fold_hit (lp : list (nat * nat)) (init : list nat) p v :
  NoDup (map fst lp) -> In (p, v) lp -> (p < length init)%nat ->
  nth p (fold_left (fun inv pk => list_set (fst pk) (snd pk) inv) lp init) O
  = v.
Proof.
  revert init. induction lp as [| [p0 v0] lp IH]; intros init Hnd Hin Hp;
    [destruct Hin |].
  simpl in Hnd. inversion Hnd as [| ? ? Hnotin Hnd']; subst.
  destruct Hin as [E | Hin]; simpl.
  - injection E as -> ->.
    rewrite scatter_fold_skip by exact Hnotin.
    apply list_set_nth_same. exact Hp.
  - apply IH; [exact Hnd' | exact Hin | rewrite list_set_length; exact Hp].
Qed.

Lemma combine_fst_seq (l : list nat) :
  map fst (combine l (seq 0 (length l))) = l.
Proof.
  generalize 0%nat. induction l as [| x l IH]; intros k; simpl.
  - reflexivity.
  - rewrite IH. reflexivity.
Qed.

(** The position that the sort puts at place [k] gets rank [k + 1]. *)
Lemma rankdata_argsort a k :
  (k < length a)%nat -> nth (nth k (argsort a) O) (rankdata a) O = S k.
Proof.
  intros Hk. unfold rankdata.
  assert (Hlen : length (argsort a) = length a) by apply argsort_length.
  assert (Hi : (nth k (argsort a) O < length a)%nat).
  { apply argsort_bound, nth_In. lia. }
  rewrite (nth_indep _ O (S O))
    by (rewrite length_map; unfold scatter;
        rewrite scatter_fold_length, repeat_length; lia).
  rewrite map_nth. f_equal. unfold scatter.
  apply scatter_fold_hit.
  - rewrite combine_fst_seq. apply argsort_NoDup.
  - assert (E : nth k (combine (argsort a) (seq 0 (length (argsort a))))
                    (O, O)
                = (nth k (argsort a) O, k)).
    { rewrite combine_nth by (rewrite length_seq; reflexivity).
      rewrite seq_nth by lia. reflexivity. }
    rewrite <- E. apply nth_In.
    rewrite length_combine, length_seq. lia.
  - rewrite repeat_length. lia.
Qed.

(** Every rank [1 .. N] is taken. *)
Lemma rankdata_onto a r :
  (1 <= r <= length a)%nat ->
  exists i, (i < length a)%nat /\ nth i (rankdata a) O = r.
Proof.
  intros Hr. destruct r as [| k]; [lia |].
  exists (nth k (argsort a) O). split.
  - apply argsort_bound, nth_In. rewrite argsort_length. lia.
  - apply rankdata_argsort. lia.
Qed.

Lemma rankdata_perm a : Permutation (seq 1 (length a)) (rankdata a).
Proof.
  apply NoDup_Permutation_bis.
  - apply seq_NoDup.
  - rewrite rankdata_length, length_seq. lia.
  - intros r Hr. apply in_seq in Hr.
    destruct (rankdata_onto a r ltac:(lia)) as [i [Hi <-]].
    apply nth_In. rewrite rankdata_length. exact Hi.
Qed.

(** *** Bins of the equal-frequency partition *)

Lemma where_from_In k mask i :
  nth_error mask i = Some true -> In (k + i)%nat (where_from k mask).
Proof.
  revert k i. induction mask as [| b mask IH]; intros k [| i] H;
    simpl in H; try discriminate.
  - injection H as ->. simpl. rewrite Nat.add_0_r. auto.
  - simpl. replace (k + S i)%nat with (S k + i)%nat by lia.
    destruct b; [right |]; apply IH; exact H.
Qed.

(** With at most as many bins as samples no bin is empty. *)
Lemma bin_indices_nonempty X N M j :
  length X = N -> (1 <= M <= N)%nat -> (j < M)%nat ->
  bin_indices (rankdata X) (linspace 0 (of_nat N) (S M)) j <> [].
Proof.
  intros HX HM Hj.
  set (r := ((S j * N) / M)%nat).
  assert (Hr1 : (r * M <= S j * N)%nat)
    by (unfold r; rewrite Nat.mul_comm; apply Nat.Div0.mul_div_le).
  assert (Hr2 : (S j * N < S r * M)%nat).
  { unfold r. rewrite (Nat.mul_comm _ M).
    apply Nat.mul_succ_div_gt. lia. }
  assert (Hr : (1 <= r <= N)%nat) by nia.
  destruct (rankdata_onto X r ltac:(lia)) as [i [Hi Hrank]].
  assert (Hin : In (0 + i)%nat
                   (bin_indices (rankdata X)
                      (linspace 0 (of_nat N) (S M)) j)).
  { unfold bin_indices, np_where. apply where_from_In.
    unfold bin_mask. rewrite nth_error_map.
    rewrite (nth_error_nth' _ O) by (rewrite rankdata_length; lia).
    rewrite Hrank. simpl. f_equal.
    apply in_bin_linspace; [lia | exact Hj |]. nia. }
  intros E. rewrite E in Hin. destruct Hin.
Qed.

(** *** Sums of squares *)

Lemma Qsquare_nonneg z : 0 <= z * z.
Proof. destruct (Qlt_le_dec z 0); nra. Qed.

Lemma Qsquare_pos z : ~ z == 0 -> 0 < z * z.
Proof.
  intros H. destruct (Q_dec z 0) as [[Hl | Hg] | He]; [nra | nra | tauto].
Qed.

Lemma Qsum_le {A : Type} (f g : A -> Q) l :
  (forall a, In a l -> f a <= g a) -> Qsum (map f l) <= Qsum (map g l).
Proof.
  induction l as [| x l IH]; intros H; cbn [map].
  - lra.
  - assert (f x <= g x) by (apply H; simpl; auto).
    assert (Qsum (map f l) <= Qsum (map g l))
      by (apply IH; intros; apply H; simpl; auto).
    rewrite !Qsum_cons. lra.
Qed.

Lemma Qsum_scal {A : Type} c (f : A -> Q) l :
  Qsum (map (fun a => c * f a) l) == c * Qsum (map f l).
Proof.
  induction l as [| x l IH]; cbn [map].
  - rewrite Qsum_nil. ring.
  - rewrite !Qsum_cons, IH. ring.
Qed.

Lemma Qsum_pos l :
  (forall x, In x l -> 0 <= x) -> (exists x, In x l /\ 0 < x) -> 0 < Qsum l.
Proof.
  induction l as [| y l IH]; intros Hnn [x [Hx Hpos]]; [destruct Hx |].
  rewrite Qsum_cons.
  assert (0 <= y) by (apply Hnn; simpl; auto).
  assert (0 <= Qsum l) by (apply Qsum_nonneg; intros; apply Hnn; simpl; auto).
  destruct Hx as [-> | Hx]; [lra |].
  assert (0 < Qsum l)
    by (apply IH; [intros; apply Hnn; simpl; auto | exists x; auto]).
  lra.
Qed.

Lemma sqdev_nonneg c l : 0 <= sqdev c l.
Proof.
  unfold sqdev. apply Qsum_nonneg. intros x Hx.
  apply in_map_iff in Hx. destruct Hx as [y [<- _]].
  apply Qsquare_nonneg.
Qed.

Lemma sqdev_expand c l :
  sqdev c l
  == Qsum (map (fun y => y * y) l) - 2 * c * Qsum l
     + of_nat (length l) * (c * c).
Proof.
  unfold sqdev. induction l as [| y l IH]; cbn [map length].
  - rewrite !Qsum_nil. change (of_nat 0) with 0. ring.
  - rewrite !Qsum_cons, IH, of_nat_S. ring.
Qed.

(** The squared deviations from any [c] are at least [n] times the squared
    distance of the mean from [c]. *)
Lemma sqdev_mean_le c l :
  l <> [] ->
  of_nat (length l) * ((mean l - c) * (mean l - c)) <= sqdev c l.
Proof.
  intros Hl.
  assert (Hn : 0 < of_nat (length l)).
  { apply of_nat_pos. destruct l; [congruence | simpl; lia]. }
  assert (HS : Qsum l == of_nat (length l) * mean l)
    by (unfold mean; field; lra).
  assert (E : sqdev c l
              == sqdev (mean l) l
                 + of_nat (length l) * ((mean l - c) * (mean l - c))).
  { rewrite !sqdev_expand, HS. ring. }
  pose proof (sqdev_nonneg (mean l) l). lra.
Qed.

(** A sample with two different values has a positive spread. *)
Lemma sqdev_pos l a b :
  In a l -> In b l -> ~ a == b -> 0 < sqdev (mean l) l.
Proof.
  intros Ha Hb Hab. unfold sqdev. apply Qsum_pos.
  - intros x Hx. apply in_map_iff in Hx. destruct Hx as [y [<- _]].
    apply Qsquare_nonneg.
  - destruct (Qeq_dec a (mean l)) as [Ea | Na].
    + exists ((b - mean l) * (b - mean l)). split.
      * apply in_map_iff. exists b. auto.
      * apply Qsquare_pos. intros E. apply Hab. rewrite Ea. lra.
    + exists ((a - mean l) * (a - mean l)). split.
      * apply in_map_iff. exists a. auto.
      * apply Qsquare_pos. intros E. apply Na. lra.
Qed.

(** *** Sums over the bins *)

Lemma select_where_from mask pre Y :
  (length mask <= length Y)%nat ->
  select (pre ++ Y) (where_from (length pre) mask) = compress mask Y.
Proof.
  revert pre Y. induction mask as [| b mask IH]; intros pre Y Hlen.
  - reflexivity.
  - destruct Y as [| y Y]; [simpl in Hlen; lia |].
    assert (E : select (pre ++ y :: Y) (where_from (S (length pre)) mask)
                = compress mask Y).
    { replace (S (length pre)) with (length (pre ++ [y]))
        by (rewrite length_app; simpl; lia).
      replace (pre ++ y :: Y) with ((pre ++ [y]) ++ Y)
        by (rewrite <- app_assoc; reflexivity).
      apply IH. simpl in Hlen. lia. }
    cbn [where_from compress]. destruct b.
    + unfold select in *. cbn [map]. rewrite E. f_equal.
      rewrite app_nth2, Nat.sub_diag by lia. reflexivity.
    + exact E.
Qed.

(** The sub-sample of a bin, read off the mask. *)
Lemma bin_sample_compress Y X m j :
  length X = length Y ->
  bin_sample Y X m j
  = compress (bin_mask (rankdata X) (nth j m 0) (nth (S j) m 0)) Y.
Proof.
  intros Hlen. unfold bin_sample, bin_indices, np_where.
  apply (select_where_from _ [] Y).
  unfold bin_mask. rewrite length_map, rankdata_length. lia.
Qed.

Lemma Qsum_compress (f : Q -> Q) (p : nat -> bool) xr Y :
  Qsum (map f (compress (map p xr) Y))
  == Qsum (map (fun ry => if p (fst ry) then f (snd ry) else 0)
               (combine xr Y)).
Proof.
  revert Y. induction xr as [| r xr IH]; intros Y; [reflexivity |].
  destruct Y as [| y Y]; [reflexivity |].
  cbn [map compress combine fst snd]. rewrite Qsum_cons.
  destruct (p r); cbn [map].
  - rewrite Qsum_cons, IH. reflexivity.
  - rewrite IH. ring.
Qed.

Lemma Qsum_swap {A B : Type} (g : A -> B -> Q) la lb :
  Qsum (map (fun a => Qsum (map (g a) lb)) la)
  == Qsum (map (fun b => Qsum (map (fun a => g a b) la)) lb).
Proof.
  induction la as [| a la IH]; cbn [map].
  - rewrite Qsum_nil. symmetry.
    rewrite (Qsum_const _ 0); [ring |].
    intros x Hx. apply in_map_iff in Hx. destruct Hx as [b [<- _]].
    reflexivity.
  - rewrite Qsum_cons, IH. clear IH.
    induction lb as [| b lb IHb]; cbn [map].
    + rewrite !Qsum_nil. ring.
    + rewrite !Qsum_cons, <- IHb. ring.
Qed.

(** A value counted for at most one index is counted at most once. *)
Lemma Qsum_at_most_one (p : nat -> bool) v lj :
  NoDup lj -> 0 <= v ->
  (forall j j', In j lj -> In j' lj -> p j = true -> p j' = true -> j = j') ->
  Qsum (map (fun j => if p j then v else 0) lj) <= v.
Proof.
  intros Hnd Hv. induction Hnd as [| j lj Hnotin Hnd IH]; intros Huniq.
  - rewrite Qsum_nil. exact Hv.
  - cbn [map]. rewrite Qsum_cons. destruct (p j) eqn:Ej.
    + rewrite (Qsum_const _ 0); [ring_simplify; lra |].
      intros x Hx. apply in_map_iff in Hx. destruct Hx as [j' [<- Hj']].
      destruct (p j') eqn:Ej'; [| reflexivity].
      exfalso. apply Hnotin.
      rewrite (Huniq j j'); simpl; auto.
    + assert (Qsum (map (fun j0 => if p j0 then v else 0) lj) <= v).
      { apply IH. intros a b Ha Hb. apply Huniq; simpl; auto. }
      lra.
Qed.

Lemma map_snd_combine {A B : Type} (la : list A) (lb : list B) :
  length la = length lb -> map snd (combine la lb) = lb.
Proof.
  revert lb. induction la as [| a la IH]; intros [| b lb] H; simpl in *;
    try reflexivity; try discriminate.
  rewrite IH by lia. reflexivity.
Qed.

(** Summed over the bins of the partition, the squared deviations of the
    sub-samples do not exceed those of the whole sample: no sample is in
    two bins. *)
Lemma sqdev_bins_le c Y X N M :
  length Y = N -> length X = N -> (1 <= M)%nat ->
  Qsum (map (fun j =>
               sqdev c (bin_sample Y X (linspace 0 (of_nat N) (S M)) j))
            (seq 0 M))
  <= sqdev c Y.
Proof.
  intros HY HX HM.
  set (m := linspace 0 (of_nat N) (S M)).
  set (f := fun y : Q => (y - c) * (y - c)).
  set (g := fun (j : nat) (ry : nat * Q) =>
              if in_bin (nth j m 0) (nth (S j) m 0) (fst ry)
              then f (snd ry) else 0).
  rewrite (Qsum_ext _ (fun j => Qsum (map (g j) (combine (rankdata X) Y)))).
  2:{ intros j _. rewrite bin_sample_compress by lia.
      unfold sqdev, bin_mask. fold f. apply Qsum_compress. }
  rewrite Qsum_swap.
  assert (E : sqdev c Y
              == Qsum (map (fun ry => f (snd ry)) (combine (rankdata X) Y))).
  { rewrite <- (map_map snd f), map_snd_combine
      by (rewrite rankdata_length; lia).
    reflexivity. }
  rewrite E. apply Qsum_le. intros [r y] _. unfold g. cbn [fst snd].
  apply (Qsum_at_most_one
           (fun j => in_bin (nth j m 0) (nth (S j) m 0) r) (f y)).
  - apply seq_NoDup.
  - apply Qsquare_nonneg.
  - intros j j' Hj Hj' H1 H2. apply in_seq in Hj, Hj'.
    apply in_bin_linspace in H1; [| lia | lia].
    apply in_bin_linspace in H2; [| lia | lia]. nia.
Qed.

(** The between-bin variance is at most the variance. *)
Lemma between_var_le Y X N M :
  length Y = N -> length X = N -> (1 <= M <= N)%nat ->
  of_nat N * between_var Y X (linspace 0 (of_nat N) (S M))
  <= sqdev (mean Y) Y.
Proof.
  intros HY HX HM.
  unfold between_var. rewrite linspace_length. cbn [Nat.sub].
  rewrite Nat.sub_0_r, <- Qsum_scal, HY.
  assert (HN : 0 < of_nat N) by (apply of_nat_pos; lia).
  eapply Qle_trans; [| apply (sqdev_bins_le (mean Y) Y X N M HY HX); lia].
  apply Qsum_le. intros j Hj. apply in_seq in Hj. cbv zeta.
  set (b := bin_sample Y X (linspace 0 (of_nat N) (S M)) j).
  assert (Hb : b <> []).
  { intros E. apply (bin_indices_nonempty X N M j HX HM ltac:(lia)).
    apply length_zero_iff_nil.
    rewrite <- bin_sample_length with (Y := Y).
    fold b. rewrite E. reflexivity. }
  assert (E : of_nat N
              * (of_nat (length b) / of_nat N
                 * ((mean b - mean Y) * (mean b - mean Y)))
              == of_nat (length b) * ((mean b - mean Y) * (mean b - mean Y)))
    by (field; lra).
  rewrite E. apply sqdev_mean_le. exact Hb.
Qed.

Section Properties.

Context {L : Libm}.

Lemma quiet_gaussian_kde data : quiet (gaussian_kde data).
Proof.
  unfold gaussian_kde. destruct (length data <=? 1)%nat.
  - intros msg H; discriminate.
  - destruct (Qeq_bool (data_covariance data) 0); intros msg H; discriminate.
Qed.

Lemma quiet_calc_delta Y Ygrid X m : quiet (calc_delta Y Ygrid X m).
Proof.
  unfold calc_delta.
  apply quiet_bind; [apply quiet_gaussian_kde | intros k].
  apply quiet_for. intros s j.
  repeat (apply quiet_bind;
          [auto using quiet_gaussian_kde with quiet | intros ?]).
  apply quiet_Ok.
Qed.

Lemma quiet_sobol_first Y X m : quiet (sobol_first Y X m).
Proof.
  unfold sobol_first. apply quiet_bind; [| intros; apply quiet_Ok].
  apply quiet_for. intros s j.
  repeat (apply quiet_bind; [auto with quiet | intros ?]).
  apply quiet_Ok.
Qed.

Lemma quiet_io_bias_reduced_delta Y Ygrid X m R c :
  quiet_io (bias_reduced_delta Y Ygrid X m R c).
Proof.
  unfold bias_reduced_delta.
  apply quiet_io_bind; [apply quiet_io_lift, quiet_calc_delta | intros d_hat].
  apply quiet_io_bind; [| intros; apply quiet_io_ret].
  apply quiet_io_for. intros s i.
  repeat (apply quiet_io_bind;
          [auto using quiet_calc_delta with quiet | intros ?]).
  apply quiet_io_ret.
Qed.

Lemma quiet_io_sobol_first_conf Y X m R c :
  quiet_io (sobol_first_conf Y X m R c).
Proof.
  unfold sobol_first_conf.
  apply quiet_io_bind; [| intros; apply quiet_io_ret].
  apply quiet_io_for. intros s i.
  repeat (apply quiet_io_bind;
          [auto using quiet_sobol_first with quiet | intros ?]).
  apply quiet_io_ret.
Qed.

(** C7.  A confidence level below 0 or above 1 makes [analyze] raise its
    [RuntimeError] at once: whatever [X] and [Y] are, nothing is drawn from
    the generator, nothing is printed and no result is built.  With a
    confidence level in [[0, 1]] the call never ends in a [RuntimeError]. *)
Theorem analyze_conf_level_validation :
  forall problem X Y calc_second_order num_resamples conf_level
         print_to_console w,
    ((conf_level < 0 \/ 1 < conf_level) ->
     analyze problem X Y calc_second_order num_resamples conf_level
             print_to_console w
     = (Raise (RuntimeError conf_level_message), w))
    /\
    (0 <= conf_level <= 1 ->
     forall msg,
       fst (analyze problem X Y calc_second_order num_resamples conf_level
                    print_to_console w)
       <> Raise (RuntimeError msg)).
Proof.
  intros problem X Y flag R c p w. split.
  - intros Hc. unfold analyze, Qlt_bool.
    destruct Hc as [Hc | Hc].
    + replace (Qle_bool 0 c) with false; [reflexivity |].
      symmetry. apply not_true_is_false. rewrite Qle_bool_iff. lra.
    + replace (Qle_bool c 1) with false;
        [rewrite orb_true_r; reflexivity |].
      symmetry. apply not_true_is_false. rewrite Qle_bool_iff. lra.
  - intros [H0 H1]. unfold analyze, Qlt_bool.
    replace (Qle_bool 0 c) with true by (symmetry; apply Qle_bool_iff; lra).
    replace (Qle_bool c 1) with true by (symmetry; apply Qle_bool_iff; lra).
    simpl.
    match goal with
    | |- forall msg, fst (?body w) <> _ =>
        change (quiet (fst (body w))); generalize w; change (quiet_io body)
    end.
    repeat (apply quiet_io_bind; [auto with quiet | intros ?]).
    + destruct p; auto with quiet.
    + apply quiet_io_for. intros S i.
      repeat (apply quiet_io_bind;
              [auto using quiet_io_bias_reduced_delta,
                 quiet_io_sobol_first_conf, quiet_sobol_first with quiet
              | intros ?]).
      * destruct p; auto 6 with quiet.
      * apply quiet_io_ret.
Qed.

(** C9.  The flag [calc_second_order] is not read: two calls that differ
    in it alone return the same result and leave the same world. *)
Theorem analyze_ignores_calc_second_order :
  forall problem X Y flag1 flag2 num_resamples conf_level print_to_console w,
    analyze problem X Y flag1 num_resamples conf_level print_to_console w
    = analyze problem X Y flag2 num_resamples conf_level print_to_console w.
Proof. reflexivity. Qed.

(** *** The partition scheme *)

(** C3.  With [M] bins for [N >= M] samples, the rule "rank > m[j] and
    rank <= m[j + 1]" on the boundaries [linspace(0, N, M + 1)] puts every
    rank [1..N] into exactly one bin: some bin holds it, and no other. *)
Theorem bins_partition_ranks :
  forall N M r,
    (1 <= M <= N)%nat -> (1 <= r <= N)%nat ->
    exists j,
      (j < M)%nat
      /\ in_bin (nth j (linspace 0 (of_nat N) (S M)) 0)
                (nth (S j) (linspace 0 (of_nat N) (S M)) 0) r = true
      /\ forall j',
           (j' < M)%nat ->
           in_bin (nth j' (linspace 0 (of_nat N) (S M)) 0)
                  (nth (S j') (linspace 0 (of_nat N) (S M)) 0) r = true ->
           j' = j.
Proof.
  intros N M r HM Hr.
  set (j := ((r * M - 1) / N)%nat).
  assert (HN : N <> O) by lia.
  assert (Hlo : (j * N <= r * M - 1)%nat)
    by (unfold j; rewrite Nat.mul_comm; apply Nat.Div0.mul_div_le).
  assert (Hhi : (r * M - 1 < S j * N)%nat).
  { unfold j. rewrite (Nat.mul_comm _ N).
    apply Nat.mul_succ_div_gt. exact HN. }
  assert (Hpos : (1 <= r * M)%nat) by nia.
  assert (Hj : (j < M)%nat).
  { unfold j. apply Nat.Div0.div_lt_upper_bound. nia. }
  exists j. split; [exact Hj |]. split.
  - apply in_bin_linspace; lia.
  - intros j' Hj' Hin. apply in_bin_linspace in Hin; [| lia | exact Hj'].
    destruct Hin as [H1 H2]. nia.
Qed.

Hypothesis np_tanh_range : forall x, - (1) <= np_tanh x <= 1.
Hypothesis np_power_ge_1 :
  forall b e, 1 <= b -> 0 <= e -> 1 <= np_power b e.

(** C4.  For [N >= 1] the bin count is
    [min(ceil(N ** (2 / (7 + tanh((1500 - N) / 500)))), 48)], an integer
    between 1 and 48, and the boundaries are the [M + 1] equally spaced
    values from [0] to [N]: the first is [0], the last is [N] and two
    neighbours are [N / M] apart. *)
Theorem partition_scheme :
  forall N,
    (1 <= N)%nat ->
    let M := bin_count N in
    let m := linspace 0 (of_nat N) (Z.to_nat (M + 1)) in
    M = Z.min
           (Qceiling
              (np_power (of_nat N)
                 (2 / (7 + np_tanh ((1500 - of_nat N) / 500)))))
           48
    /\ (1 <= M <= 48)%Z
    /\ length m = S (Z.to_nat M)
    /\ nth 0 m 0 == 0
    /\ nth (Z.to_nat M) m 0 == of_nat N
    /\ forall j,
         (j < Z.to_nat M)%nat ->
         nth (S j) m 0 - nth j m 0 == of_nat N / of_nat (Z.to_nat M).
Proof.
  intros N HN M m.
  assert (Hrange : (1 <= M <= 48)%Z).
  { unfold M, bin_count.
    set (t := np_tanh ((1500 - of_nat N) / 500)).
    assert (Ht : - (1) <= t <= 1) by apply np_tanh_range.
    assert (He : 0 <= 2 / (7 + t)).
    { apply Qle_shift_div_l; lra. }
    assert (Hb : 1 <= of_nat N).
    { change 1 with (of_nat 1). apply of_nat_le. exact HN. }
    pose proof (np_power_ge_1 _ _ Hb He) as Hp.
    set (x := np_power (of_nat N) (2 / (7 + t))) in *.
    assert (Hc : (1 <= Qceiling x)%Z).
    { change 1%Z with (Qceiling 1). apply Qceiling_resp_le. exact Hp. }
    lia. }
  assert (Hnum : Z.to_nat (M + 1) = S (Z.to_nat M)).
  { rewrite Z2Nat.inj_add by lia. simpl. lia. }
  assert (HM : (1 <= Z.to_nat M)%nat) by lia.
  assert (Hpos : 0 < of_nat (Z.to_nat M)) by (apply of_nat_pos; lia).
  split; [reflexivity |]. split; [exact Hrange |].
  split; [unfold m; rewrite linspace_length; exact Hnum |].
  split; [| split].
  - unfold m. rewrite Hnum, linspace_nth by lia.
    change (of_nat 0) with 0. ring.
  - unfold m. rewrite Hnum, linspace_nth by lia. field. lra.
  - intros j Hj. unfold m. rewrite Hnum, !linspace_nth by lia.
    rewrite of_nat_S. field. lra.
Qed.

Hypothesis np_power_le_base :
  forall b e, 1 <= b -> 0 <= e <= 1 -> np_power b e <= b.

(** There are never more bins than samples, so the partition that
    [analyze] passes on has no empty bin. *)
Lemma bin_count_le N : (1 <= N)%nat -> (bin_count N <= Z.of_nat N)%Z.
Proof.
  intros HN. unfold bin_count.
  set (t := np_tanh ((1500 - of_nat N) / 500)).
  assert (Ht : - (1) <= t <= 1) by apply np_tanh_range.
  assert (He : 0 <= 2 / (7 + t) <= 1).
  { split; [apply Qle_shift_div_l; lra | apply Qle_shift_div_r; lra]. }
  assert (Hb : 1 <= of_nat N).
  { change 1 with (of_nat 1). apply of_nat_le. exact HN. }
  pose proof (np_power_le_base _ _ Hb He) as Hp.
  apply Qceiling_resp_le in Hp. unfold of_nat in Hp at 2.
  rewrite Qceiling_Z in Hp. lia.
Qed.

(** *** A constant output *)

Lemma zero_or_nan_step Vi w a b :
  zero_or_nan Vi ->
  match a with Fin q => q == b | NaN => True | _ => False end ->
  zero_or_nan (fadd Vi (fmul (Fin w) (fsqr (fsub a (Fin b))))).
Proof.
  destruct Vi as [q | | |]; simpl; try tauto;
    destruct a as [x | | |]; simpl; try tauto.
  intros Hq Hx. rewrite Hq, Hx. ring.
Qed.

(** In exact arithmetic a constant, non-empty output gives [nan]: the
    between-bin variance and the variance of [Y] are both zero (or the
    former is already [nan]).  Under rounding the variance need not be
    zero; see [F64.sobol_first] below. *)
Lemma sobol_first_constant_exact :
  forall Y X m c,
    Y <> [] -> length X = length Y ->
    (forall y, In y Y -> y == c) ->
    sobol_first Y X m = Ok NaN.
Proof.
  intros Y X m c Hne Hlen Hc. unfold sobol_first.
  assert (HN : exists n, length Y = S n).
  { destruct Y; [congruence | eexists; reflexivity]. }
  destruct HN as [n HN].
  assert (Hmean : np_mean (map Fin Y) = Fin (Qsum Y / of_nat (length Y)))
    by (apply np_mean_Fin; exact Hne).
  assert (Hmc : Qsum Y / of_nat (length Y) == c).
  { rewrite (Qsum_const Y c Hc). field.
    pose proof (of_nat_pos (length Y) ltac:(lia)). lra. }
  rewrite Hmean.
  set (mu := Qsum Y / of_nat (length Y)) in *.
  assert (Hloop : forall l Vi, zero_or_nan Vi ->
            exists Vi',
              for_ l
                (fun Vi j =>
                   w <- py_truediv (length (bin_indices (rankdata X) m j))
                          (length Y) ;;
                   Yix <- take Y (bin_indices (rankdata X) m j) ;;
                   Ok (fadd Vi
                         (fmul (Fin w)
                            (fsqr (fsub (np_mean (map Fin Yix)) (Fin mu))))))
                Vi = Ok Vi' /\ zero_or_nan Vi').
  { induction l as [| j l IH]; intros Vi HVi; cbn [for_].
    - exists Vi. split; [reflexivity | exact HVi].
    - rewrite py_truediv_ok by lia. cbn [bind].
      rewrite take_ok.
      2:{ intros i Hi. apply bin_indices_bound in Hi.
          rewrite rankdata_length in Hi. lia. }
      cbn [bind]. apply IH. apply zero_or_nan_step; [exact HVi |].
      set (ix := bin_indices (rankdata X) m j).
      destruct ix as [| i0 ix'] eqn:Eix.
      + simpl. exact I.
      + rewrite np_mean_Fin by discriminate.
        rewrite (Qsum_const _ c).
        * rewrite Hmc. field.
          pose proof (of_nat_pos (length (map (fun i => nth i Y 0) (i0 :: ix')))
                        ltac:(simpl; lia)). lra.
        * intros x Hx. apply in_map_iff in Hx. destruct Hx as [i [<- Hi]].
          apply Hc. apply nth_In.
          assert (In i (bin_indices (rankdata X) m j))
            by (fold ix; rewrite Eix; exact Hi).
          apply bin_indices_bound in H. rewrite rankdata_length in H. lia. }
  destruct (Hloop (seq 0 (length m - 1)) (Fin 0)) as [Vi [E HVi]];
    [simpl; reflexivity |].
  rewrite E. cbn [bind]. f_equal.
  unfold np_var. rewrite Hmean, map_map, length_map, Nat.sub_0_r.
  change (fun x => fsqr (fsub (Fin x) (Fin mu)))
    with (fun x => Fin ((x + - mu) * (x + - mu))).
  rewrite <- (map_map (fun x => (x + - mu) * (x + - mu)) Fin), np_sum_Fin.
  unfold fdiv at 2. rewrite HN, Qeq_bool_of_nat_S, <- HN.
  assert (Hz : Qsum (map (fun x => (x + - mu) * (x + - mu)) Y)
               / of_nat (length Y) == 0).
  { rewrite (Qsum_const _ 0).
    - field. pose proof (of_nat_pos (length Y) ltac:(lia)). lra.
    - intros x Hx. apply in_map_iff in Hx. destruct Hx as [y [<- Hy]].
      rewrite (Hc y Hy), Hmc. ring. }
  set (v := Qsum (map (fun x => (x + - mu) * (x + - mu)) Y)
            / of_nat (length Y)) in *.
  assert (Hvb : Qeq_bool v 0 = true) by (apply Qeq_bool_iff; exact Hz).
  destruct Vi as [q | | |]; simpl in HVi |- *; try tauto.
  rewrite Hvb. apply Qeq_alt in HVi. rewrite HVi. reflexivity.
Qed.

(** *** One resample *)

Lemma np_std_ddof1_single (d : list npfloat) :
  length d = 1%nat -> np_std 1 d = NaN.
Proof.
  destruct d as [| x [| y d]]; try discriminate. intros _.
  unfold np_std. rewrite np_var_ddof1_single. reflexivity.
Qed.

Lemma fmul_NaN_r x : fmul x NaN = NaN.
Proof. destruct x; reflexivity. Qed.

Lemma var1_nonneg l : (2 <= length l)%nat -> 0 <= var1 l.
Proof.
  intros Hl. unfold var1. apply Qle_shift_div_l.
  - apply of_nat_pos. lia.
  - rewrite Qmult_0_l. apply Qsum_nonneg. intros x Hx.
    apply in_map_iff in Hx. destruct Hx as [y [<- _]].
    apply Qsquare_nonneg.
Qed.

(** C10.  With [num_resamples = 1] the half-widths are [nan]: whenever
    [bias_reduced_delta], or [sobol_first_conf], returns, the sample
    standard deviation (ddof = 1) of its single bootstrap estimate is a
    division of zero by zero, and the product with the quantile is [nan].
    From two finite estimates on, the standard deviation is a number. *)
Theorem single_resample_conf_is_nan :
  forall Y Ygrid X m conf_level w,
    (forall a b w',
       bias_reduced_delta Y Ygrid X m 1 conf_level w = (Ok (a, b), w') ->
       b = NaN)
    /\
    (forall b w',
       sobol_first_conf Y X m 1 conf_level w = (Ok b, w') -> b = NaN)
    /\
    (forall ds,
       (2 <= length ds)%nat -> exists q, np_std 1 (map Fin ds) = Fin q).
Proof.
  intros Y Ygrid X m c w. split; [| split].
  - intros a b w'. unfold bias_reduced_delta, bind_io at 1, lift.
    destruct (calc_delta Y Ygrid X m) as [d_hat | e]; [| discriminate].
    unfold bind_io at 1.
    match goal with
    | |- context [for_io ?l ?body ?s w] =>
        destruct (for_io l body s w) as [[d | e] w1] eqn:E; [| discriminate];
        assert (Hd : length d = 1%nat)
    end.
    { revert E. apply (for_io_invariant (fun d => length d = 1%nat)).
      - intros s i w0 s' w0' Hs. unfold bind_io, lift, ret.
        destruct (randint (length Y) (length Y) w0) as [[r | e] w2];
          [| discriminate].
        destruct (take Y r); [| discriminate].
        destruct (take X r); [| discriminate].
        destruct (calc_delta _ Ygrid _ m); [| discriminate].
        intros H. injection H as <- _. rewrite list_set_length. exact Hs.
      - reflexivity. }
    unfold ret. intros H. injection H as _ <- _.
    rewrite np_std_ddof1_single by (rewrite length_map; exact Hd).
    apply fmul_NaN_r.
  - intros b w'. unfold sobol_first_conf, bind_io at 1.
    match goal with
    | |- context [for_io ?l ?body ?s w] =>
        destruct (for_io l body s w) as [[d | e] w1] eqn:E; [| discriminate];
        assert (Hd : length d = 1%nat)
    end.
    { revert E. apply (for_io_invariant (fun d => length d = 1%nat)).
      - intros s i w0 s' w0' Hs. unfold bind_io, lift, ret.
        destruct (randint (length Y) (length Y) w0) as [[r | e] w2];
          [| discriminate].
        destruct (take Y r); [| discriminate].
        destruct (take X r); [| discriminate].
        destruct (sobol_first _ _ m); [| discriminate].
        intros H. injection H as <- _. rewrite list_set_length. exact Hs.
      - reflexivity. }
    unfold ret. intros H. injection H as <- _.
    rewrite np_std_ddof1_single by exact Hd.
    apply fmul_NaN_r.
  - intros ds Hds. unfold np_std. rewrite np_var_ddof1_Fin by exact Hds.
    unfold fsqrt.
    replace (Qlt_bool (var1 ds) 0) with false.
    + eexists. reflexivity.
    + symmetry. apply not_true_is_false. rewrite Qlt_bool_iff.
      pose proof (var1_nonneg ds Hds). lra.
Qed.

(** *** The density estimator *)

Lemma gaussian_kde_defined data :
  kde_defined data = true -> gaussian_kde data = Ok (kde_of data).
Proof.
  unfold kde_defined, gaussian_kde. rewrite andb_true_iff, !negb_true_iff.
  intros [-> ->]. reflexivity.
Qed.

(** Where it is not defined, the constructor raises one of its two
    exceptions. *)
Lemma gaussian_kde_undefined data :
  kde_defined data = false ->
  gaussian_kde data
  = Raise (ValueError "`dataset` input should have multiple elements.")
  \/ gaussian_kde data = Raise (LinAlgError "singular matrix").
Proof.
  unfold kde_defined, gaussian_kde. rewrite andb_false_iff, !negb_false_iff.
  destruct (length data <=? 1)%nat; [left; reflexivity |].
  intros [H | ->]; [discriminate | right; reflexivity].
Qed.


Lemma kde_defined_length data :
  kde_defined data = true -> (2 <= length data)%nat.
Proof.
  unfold kde_defined. rewrite andb_true_iff, negb_true_iff, Nat.leb_gt.
  intros [H _]. lia.
Qed.

(** *** The delta estimator *)

Lemma calc_delta_unfold Y Ygrid X m :
  calc_delta Y Ygrid X m
  = (k <- gaussian_kde Y ;;
     for_ (seq 0 (length m - 1)) (delta_step Y Ygrid X m k) 0).
Proof. reflexivity. Qed.

Lemma delta_loop Y Ygrid X m :
  length X = length Y -> (2 <= length Y)%nat ->
  forall l,
    (forall j, In j l -> kde_defined (bin_sample Y X m j) = true) ->
    forall acc,
    exists d,
      for_ l (delta_step Y Ygrid X m (kde_of Y)) acc = Ok d
      /\ d == acc
              + Qsum
                  (map (fun j =>
                          of_nat (length (bin_sample Y X m j))
                          / (2 * of_nat (length Y))
                          * trapz (abs_diff (density Y Ygrid)
                                     (density (bin_sample Y X m j) Ygrid))
                                  Ygrid)
                       l).
Proof.
  intros Hlen HN. induction l as [| j l IH]; intros Hdef acc; cbn [for_].
  - exists acc. split; [reflexivity |]. simpl. rewrite Qsum_nil. ring.
  - unfold delta_step at 1.
    rewrite take_bin by exact Hlen. cbn [bind].
    rewrite gaussian_kde_defined by (apply Hdef; simpl; auto). cbn [bind].
    rewrite py_truediv_ok by lia. cbn [bind].
    match goal with
    | |- context [for_ l _ ?acc'] =>
        destruct (IH (fun j' H => Hdef j' (or_intror H)) acc')
          as [d [E Hd]]
    end.
    exists d. split; [exact E |].
    rewrite Hd. cbn [map]. rewrite Qsum_cons.
    rewrite bin_sample_length, of_nat_mul.
    change (of_nat 2) with 2. unfold density. ring.
Qed.

(** On a valid input [calc_delta] returns, and what it returns is the sum
    over the bins. *)
Lemma calc_delta_defined Y Ygrid X m :
  length X = length Y ->
  kde_defined Y = true ->
  (forall j, (j < length m - 1)%nat ->
             kde_defined (bin_sample Y X m j) = true) ->
  exists d, calc_delta Y Ygrid X m = Ok d /\ d == delta_sum Y Ygrid X m.
Proof.
  intros Hlen HY Hbins.
  rewrite calc_delta_unfold, (gaussian_kde_defined Y HY). cbn [bind].
  destruct (delta_loop Y Ygrid X m Hlen (kde_defined_length Y HY)
              (seq 0 (length m - 1))
              (fun j H => Hbins j (proj2 (proj1 (in_seq _ _ _) H))) 0)
    as [d [E Hd]].
  exists d. split; [exact E |].
  rewrite Hd. unfold delta_sum. ring.
Qed.

(** C1.  On a valid input ([X] as long as [Y], the density estimator
    defined on [Y] and on the sub-sample of every bin, a non-decreasing
    grid, as the one [analyze] builds is by [evaluation_grid_sorted])
    [calc_delta] returns the sum over the bins of [|bin j| / (2 N)] times
    the trapezoidal integral over the grid of [|fy - fy_c|], where [fy] and
    [fy_c] are the kernel density estimates of [Y] and of the sub-sample
    of bin [j] on the grid; this number is not negative. *)
Theorem calc_delta_value :
  forall Y Ygrid X m,
    length X = length Y ->
    kde_defined Y = true ->
    (forall j, (j < length m - 1)%nat ->
               kde_defined (bin_sample Y X m j) = true) ->
    Sorted Qle Ygrid ->
    exists d,
      calc_delta Y Ygrid X m = Ok d
      /\ d == delta_sum Y Ygrid X m
      /\ 0 <= d.
Proof.
  intros Y Ygrid X m Hlen HY Hbins Hgrid.
  destruct (calc_delta_defined Y Ygrid X m Hlen HY Hbins) as [d [E Hsum]].
  exists d. split; [exact E |]. split; [exact Hsum |].
  rewrite Hsum. unfold delta_sum. apply Qsum_nonneg.
  intros v Hv. apply in_map_iff in Hv. destruct Hv as [j [<- _]].
  cbv zeta.
  assert (HN : 0 < of_nat (length Y)).
  { apply of_nat_pos. pose proof (kde_defined_length Y HY). lia. }
  assert (Hn : 0 <= of_nat (length (bin_sample Y X m j)))
    by apply of_nat_nonneg.
  assert (Ht : 0 <= trapz (abs_diff (density Y Ygrid)
                             (density (bin_sample Y X m j) Ygrid)) Ygrid).
  { apply trapz_nonneg; [exact Hgrid |]. intros v. apply abs_diff_nonneg. }
  assert (Hw : 0 <= of_nat (length (bin_sample Y X m j))
                    / (2 * of_nat (length Y))).
  { apply Qle_shift_div_l; lra. }
  nra.
Qed.

(** *** Degenerate bins *)




(** *** The bootstrap of the delta estimator *)

Lemma calc_delta_ok_length Y Ygrid X m d :
  calc_delta Y Ygrid X m = Ok d -> (2 <= length Y)%nat.
Proof.
  rewrite calc_delta_unfold. destruct (kde_defined Y) eqn:E.
  - intros _. apply kde_defined_length. exact E.
  - destruct (gaussian_kde_undefined _ E) as [-> | ->]; discriminate.
Qed.

(** The loop of [bias_reduced_delta] over the resamples [k0 .. k0 + n - 1]. *)
Lemma bias_reduced_loop Y Ygrid X m w :
  length X = length Y -> length Y <> O ->
  forall vs k0 d con,
    (forall t, (t < length vs)%nat ->
       calc_delta (select Y (resample_indices w (length Y) (k0 + t))) Ygrid
                  (select X (resample_indices w (length Y) (k0 + t))) m
       = Ok (nth t vs 0)) ->
    for_io (seq k0 (length vs))
      (fun d i =>
         r <~ randint (length Y) (length Y) ;;
         Yr <~ lift (take Y r) ;;
         Xr <~ lift (take X r) ;;
         di <~ lift (calc_delta Yr Ygrid Xr m) ;;
         ret (list_set i (Fin di) d))
      d (mkWorld (rng_draws w) (rng_pos w + k0 * length Y) con)
    = (Ok (fill k0 vs d),
       mkWorld (rng_draws w) (rng_pos w + (k0 + length vs) * length Y) con).
Proof.
  intros Hlen HN. induction vs as [| v vs IH]; intros k0 d con Hvs.
  - cbn [length seq for_io]. unfold ret, fill. simpl.
    rewrite Nat.add_0_r. reflexivity.
  - cbn [length seq for_io]. unfold bind_io at 1. unfold bind_io at 1.
    rewrite randint_resample by exact HN.
    unfold bind_io at 1, lift at 1.
    rewrite take_ok
      by (intros i Hi; apply resample_indices_bound in Hi; lia).
    unfold bind_io at 1, lift at 1.
    rewrite take_ok
      by (intros i Hi; apply resample_indices_bound in Hi; lia).
    unfold bind_io at 1, lift at 1.
    pose proof (Hvs O ltac:(simpl; lia)) as H0.
    rewrite Nat.add_0_r in H0. unfold select in H0. rewrite H0.
    unfold ret at 1. cbn [nth].
    rewrite (IH (S k0) (list_set k0 (Fin v) d) con).
    + unfold fill. cbn [length seq combine fold_left fst snd].
      f_equal. f_equal. lia.
    + intros t Ht. specialize (Hvs (S t) ltac:(simpl; lia)).
      rewrite Nat.add_succ_r in Hvs. exact Hvs.
Qed.

Hypothesis np_sqrt_proper : forall a b, a == b -> np_sqrt a == np_sqrt b.

Lemma fsqrt_feq a b : a == b -> feq (fsqrt (Fin a)) (fsqrt (Fin b)).
Proof.
  intros H. unfold fsqrt.
  assert (E : Qlt_bool a 0 = Qlt_bool b 0).
  { apply eq_true_iff_eq. rewrite !Qlt_bool_iff, H. reflexivity. }
  rewrite E. destruct (Qlt_bool b 0); simpl; [exact I |].
  apply np_sqrt_proper. exact H.
Qed.

(** The run of [bias_reduced_delta] on a valid input, step by step. *)
Lemma bias_reduced_delta_run Y Ygrid X m R conf_level w d_hat ds :
  length X = length Y ->
  calc_delta Y Ygrid X m = Ok d_hat ->
  length ds = R ->
  (forall k, (k < R)%nat ->
     calc_delta (select Y (resample_indices w (length Y) k)) Ygrid
                (select X (resample_indices w (length Y) k)) m
     = Ok (nth k ds 0)) ->
  bias_reduced_delta Y Ygrid X m R conf_level w
  = (Ok (np_mean (map Fin (map (fun x => 2 * d_hat + - x) ds)),
         fmul (norm_ppf ((1 # 2) + conf_level / 2))
              (np_std 1 (map Fin (map (fun x => 2 * d_hat + - x) ds)))),
     mkWorld (rng_draws w) (rng_pos w + R * length Y) (console w)).
Proof.
  intros Hlen Hhat HR Hds.
  pose proof (calc_delta_ok_length _ _ _ _ _ Hhat) as HN.
  unfold bias_reduced_delta. unfold bind_io at 1, lift at 1. rewrite Hhat.
  unfold bind_io at 1.
  destruct w as [draws pos con]. cbn [rng_draws rng_pos console].
  replace (mkWorld draws pos con)
    with (mkWorld (rng_draws (mkWorld draws pos con))
                  (rng_pos (mkWorld draws pos con) + 0 * length Y) con)
    by (cbn [rng_draws rng_pos]; f_equal; lia).
  subst R.
  rewrite (bias_reduced_loop Y Ygrid X m (mkWorld draws pos con) Hlen
             ltac:(lia) ds 0%nat (np_empty (length ds)) con)
    by (intros t Ht; apply Hds; exact Ht).
  cbn [rng_draws rng_pos]. unfold np_empty. rewrite fill_all.
  unfold ret. rewrite map_map.
  change (fun x => fsub (fmul (Fin 2) (Fin d_hat)) (Fin x))
    with (fun x => Fin (2 * d_hat + - x)).
  rewrite <- (map_map (fun x => 2 * d_hat + - x) Fin).
  reflexivity.
Qed.

(** C2.  On a valid input [bias_reduced_delta] computes the point estimate
    [d_hat] on the original data, then one estimate per resample, the
    [k]-th on the rows of [Y] and [X] selected by one and the same vector
    of [N] indices drawn from [0 .. N - 1], and returns
    [2 * d_hat - mean(estimates)] together with
    [norm.ppf(0.5 + c / 2) * std(estimates, ddof = 1)]; the generator has
    advanced by [R * N] draws. *)
Theorem bias_reduced_delta_value :
  forall Y Ygrid X m R conf_level w d_hat ds,
    length X = length Y ->
    calc_delta Y Ygrid X m = Ok d_hat ->
    length ds = R ->
    (forall k, (k < R)%nat ->
       calc_delta (select Y (resample_indices w (length Y) k)) Ygrid
                  (select X (resample_indices w (length Y) k)) m
       = Ok (nth k ds 0)) ->
    (forall k, length (resample_indices w (length Y) k) = length Y
               /\ forall i, In i (resample_indices w (length Y) k) ->
                            (i < length Y)%nat)
    /\
    exists a b,
      bias_reduced_delta Y Ygrid X m R conf_level w
      = (Ok (a, b),
         mkWorld (rng_draws w) (rng_pos w + R * length Y) (console w))
      /\ feq a (fsub (Fin (2 * d_hat)) (np_mean (map Fin ds)))
      /\ feq b (fmul (norm_ppf ((1 # 2) + conf_level / 2))
                     (np_std 1 (map Fin ds))).
Proof.
  intros Y Ygrid X m R c w d_hat ds Hlen Hhat HR Hds.
  pose proof (calc_delta_ok_length _ _ _ _ _ Hhat) as HN.
  split.
  { intros k. split; [apply resample_indices_length |].
    intros i. apply resample_indices_bound. lia. }
  rewrite (bias_reduced_delta_run Y Ygrid X m R c w d_hat ds Hlen Hhat HR Hds).
  eexists. eexists. split; [reflexivity |]. split.
  - destruct ds as [| v ds]; [exact I |].
    rewrite !np_mean_Fin by discriminate.
    rewrite length_map. cbn [fsub fneg fadd feq].
    rewrite Qsum_affine.
    assert (0 < of_nat (length (v :: ds))) by (apply of_nat_pos; simpl; lia).
    field. lra.
  - apply fmul_feq_r. unfold np_std.
    destruct (le_lt_dec (length ds) 1) as [Hs | Hl].
    + rewrite !np_var_ddof1_short by (rewrite ?length_map; exact Hs).
      exact I.
    + rewrite !np_var_ddof1_Fin by (rewrite ?length_map; lia).
      apply fsqrt_feq. apply var1_reflect. lia.
Qed.

(** *** The first-order index *)

Lemma sobol_first_unfold Y X m :
  sobol_first Y X m
  = (Vi <- for_ (seq 0 (length m - 1)) (sobol_step Y X m) (Fin 0) ;;
     Ok (fdiv Vi (np_var 0 (map Fin Y)))).
Proof. reflexivity. Qed.

Lemma sobol_loop Y X m :
  length X = length Y -> length Y <> O ->
  forall l,
    (forall j, In j l -> bin_indices (rankdata X) m j <> []) ->
    forall acc,
    exists d,
      for_ l (sobol_step Y X m) (Fin acc) = Ok (Fin d)
      /\ d == acc
              + Qsum
                  (map (fun j =>
                          of_nat (length (bin_sample Y X m j))
                          / of_nat (length Y)
                          * ((mean (bin_sample Y X m j) - mean Y)
                             * (mean (bin_sample Y X m j) - mean Y)))
                       l).
Proof.
  intros Hlen HN. induction l as [| j l IH]; intros Hne acc; cbn [for_].
  - exists acc. split; [reflexivity |]. simpl. rewrite Qsum_nil. ring.
  - unfold sobol_step at 1.
    rewrite py_truediv_ok by exact HN. cbn [bind].
    rewrite take_bin by exact Hlen. cbn [bind].
    assert (Hb : bin_sample Y X m j <> []).
    { intros E. apply (Hne j (or_introl eq_refl)).
      apply length_zero_iff_nil. rewrite <- bin_sample_length with (Y := Y).
      rewrite E. reflexivity. }
    rewrite (np_mean_Fin _ Hb).
    rewrite np_mean_Fin
      by (destruct Y; [simpl in HN; congruence | discriminate]).
    cbn [fsub fneg fadd fsqr fmul].
    match goal with
    | |- context [for_ l _ (Fin ?acc')] =>
        destruct (IH (fun j' H => Hne j' (or_intror H)) acc') as [d [E Hd]]
    end.
    exists d. split; [exact E |].
    rewrite Hd. cbn [map]. rewrite Qsum_cons. unfold mean.
    rewrite !bin_sample_length. ring.
Qed.

Lemma np_var_ddof0_Fin Y :
  Y <> [] -> np_var 0 (map Fin Y) = Fin (pvar Y).
Proof.
  intros HY. unfold np_var. rewrite (np_mean_Fin _ HY).
  rewrite map_map, length_map, Nat.sub_0_r.
  change (fun x => fsqr (fsub (Fin x) (Fin (Qsum Y / of_nat (length Y)))))
    with (fun x => Fin ((x - mean Y) * (x - mean Y))).
  rewrite <- (map_map (fun x => (x - mean Y) * (x - mean Y)) Fin),
    np_sum_Fin.
  unfold fdiv. destruct Y as [| y Y]; [congruence |].
  cbn [length]. rewrite Qeq_bool_of_nat_S. reflexivity.
Qed.

(** C5, as far as it holds: in exact arithmetic.  On a valid input (an
    output that is not constant, [X] as long as [Y], the boundaries of
    [M <= N] equal-frequency bins) the formula of [sobol_first], the sum
    over the bins of [(|bin| / N) * (mean(Y in bin) - mean(Y))^2] divided
    by the population variance of [Y], evaluated without rounding, lies
    between 0 and 1.  The value that the code computes in binary64 is not
    confined to this range, see [sobol_first_range_counterexample]. *)
Theorem sobol_first_range :
  forall Y X M a b,
    length X = length Y ->
    (1 <= M <= length Y)%nat ->
    In a Y -> In b Y -> ~ a == b ->
    exists q,
      sobol_first Y X (linspace 0 (of_nat (length Y)) (S M)) = Ok (Fin q)
      /\ q == between_var Y X (linspace 0 (of_nat (length Y)) (S M))
              / pvar Y
      /\ 0 <= q <= 1.
Proof.
  intros Y X M a b Hlen HM Ha Hb Hab.
  set (N := length Y) in *.
  set (m := linspace 0 (of_nat N) (S M)).
  assert (HY : Y <> []) by (intros E; rewrite E in Ha; destruct Ha).
  assert (HN : 0 < of_nat N) by (apply of_nat_pos; lia).
  assert (Hm : (length m - 1)%nat = M).
  { unfold m. rewrite linspace_length. simpl. lia. }
  rewrite sobol_first_unfold.
  destruct (sobol_loop Y X m Hlen ltac:(fold N; lia) (seq 0 (length m - 1))
              ltac:(intros j Hj; rewrite Hm in Hj; apply in_seq in Hj;
                    apply (bin_indices_nonempty X N M j Hlen HM); lia)
              0)
    as [d [E Hd]].
  rewrite E. cbn [bind]. rewrite (np_var_ddof0_Fin Y HY).
  assert (Hbv : d == between_var Y X m).
  { rewrite Hd. unfold between_var. ring. }
  assert (Hsq : 0 < sqdev (mean Y) Y) by (apply (sqdev_pos Y a b); assumption).
  assert (Hpv : 0 < pvar Y).
  { unfold pvar. fold N. apply Qlt_shift_div_l; lra. }
  assert (Hle : of_nat N * between_var Y X m <= sqdev (mean Y) Y).
  { apply between_var_le; [reflexivity | exact Hlen | exact HM]. }
  assert (Hnn : 0 <= between_var Y X m).
  { unfold between_var. apply Qsum_nonneg. intros v Hv.
    apply in_map_iff in Hv. destruct Hv as [j [<- _]]. cbv zeta.
    assert (0 <= of_nat (length (bin_sample Y X m j)) / of_nat (length Y)).
    { apply Qle_shift_div_l; [exact HN |].
      pose proof (of_nat_nonneg (length (bin_sample Y X m j))). lra. }
    pose proof (Qsquare_nonneg (mean (bin_sample Y X m j) - mean Y)).
    nra. }
  assert (Hpvar : of_nat N * pvar Y == sqdev (mean Y) Y).
  { unfold pvar. fold N. field. lra. }
  unfold fdiv.
  replace (Qeq_bool (pvar Y) 0) with false
    by (symmetry; apply not_true_is_false; rewrite Qeq_bool_iff; lra).
  exists (d / pvar Y). split; [reflexivity |]. split.
  - rewrite Hbv. reflexivity.
  - rewrite Hbv. split.
    + apply Qle_shift_div_l; lra.
    + apply Qle_shift_div_r; [exact Hpv |]. nra.
Qed.

End Properties.

(* ================================================================= *)
(** ** Further properties of the partition *)

Lemma where_from_true k mask i :
  In i (where_from k mask) -> nth_error mask (i - k) = Some true.
Proof.
  revert k. induction mask as [| b mask IH]; intros k; simpl.
  - intros [].
  - assert (Hrec : In i (where_from (S k) mask) ->
                   nth_error (b :: mask) (i - k) = Some true).
    { intros H. pose proof (where_from_bound _ _ _ H) as Hb.
      apply IH in H. replace (i - k)%nat with (S (i - S k)) by lia.
      exact H. }
    destruct b; simpl.
    + intros [<- | H]; [rewrite Nat.sub_diag; reflexivity | auto].
    + exact Hrec.
Qed.

(** The samples of bin [j] are those whose rank lies in the bin. *)
Lemma bin_indices_In xr m j i :
  In i (bin_indices xr m j)
  <-> (i < length xr)%nat
      /\ in_bin (nth j m 0) (nth (S j) m 0) (nth i xr O) = true.
Proof.
  unfold bin_indices, np_where, bin_mask. split.
  - intros H. pose proof (where_from_bound _ _ _ H) as Hb.
    rewrite length_map in Hb. split; [lia |].
    apply where_from_true in H. rewrite Nat.sub_0_r, nth_error_map in H.
    rewrite (nth_error_nth' _ O) in H by lia.
    simpl in H. injection H as H. exact H.
  - intros [Hi Hin]. change i with (0 + i)%nat. apply where_from_In.
    rewrite nth_error_map, (nth_error_nth' _ O) by exact Hi.
    simpl. rewrite Hin. reflexivity.
Qed.

Lemma rankdata_range a i :
  (i < length a)%nat -> (1 <= nth i (rankdata a) O <= length a)%nat.
Proof.
  intros Hi.
  assert (H : In (nth i (rankdata a) O) (seq 1 (length a))).
  { apply (Permutation_in _ (Permutation_sym (rankdata_perm a))).
    apply nth_In. rewrite rankdata_length. exact Hi. }
  apply in_seq in H. lia.
Qed.

(** The bin of a rank, in integers. *)
Lemma rank_has_one_bin N M r :
  (1 <= M)%nat -> (1 <= r <= N)%nat ->
  exists j,
    (j < M)%nat /\ (j * N < r * M /\ r * M <= S j * N)%nat
    /\ forall j', (j' * N < r * M /\ r * M <= S j' * N)%nat -> j' = j.
Proof.
  intros HM Hr.
  set (j := ((r * M - 1) / N)%nat).
  assert (HN : N <> O) by lia.
  assert (Hlo : (j * N <= r * M - 1)%nat)
    by (unfold j; rewrite Nat.mul_comm; apply Nat.Div0.mul_div_le).
  assert (Hhi : (r * M - 1 < S j * N)%nat).
  { unfold j. rewrite (Nat.mul_comm _ N).
    apply Nat.mul_succ_div_gt. exact HN. }
  assert (Hpos : (1 <= r * M)%nat) by nia.
  assert (Hj : (j < M)%nat).
  { unfold j. apply Nat.Div0.div_lt_upper_bound. nia. }
  exists j. split; [exact Hj |]. split; [lia |].
  intros j' [H1 H2]. nia.
Qed.

(** X1.  Every sample belongs to exactly one bin: with [M >= 1] bins on
    the boundaries [linspace(0, N, M + 1)], each position [i < N] occurs
    in the index array of one bin and of no other. *)
Theorem every_sample_in_one_bin :
  forall X N M i,
    length X = N -> (1 <= M)%nat -> (i < N)%nat ->
    exists j,
      (j < M)%nat
      /\ In i (bin_indices (rankdata X) (linspace 0 (of_nat N) (S M)) j)
      /\ forall j',
           (j' < M)%nat ->
           In i (bin_indices (rankdata X) (linspace 0 (of_nat N) (S M)) j')
           -> j' = j.
Proof.
  intros X N M i HX HM Hi.
  pose proof (rankdata_range X i ltac:(lia)) as Hr. rewrite HX in Hr.
  destruct (rank_has_one_bin N M _ HM Hr) as [j [Hj [Hin Huniq]]].
  exists j. split; [exact Hj |]. split.
  - apply bin_indices_In. rewrite rankdata_length. split; [lia |].
    apply in_bin_linspace; [exact HM | exact Hj | exact Hin].
  - intros j' Hj' H. apply bin_indices_In in H. destruct H as [_ H].
    apply in_bin_linspace in H; [| exact HM | exact Hj'].
    apply Huniq. exact H.
Qed.

(** *** The size of a bin *)

Lemma where_from_length k mask :
  length (where_from k mask) = length (filter (fun b : bool => b) mask).
Proof.
  revert k. induction mask as [| b mask IH]; intros k; simpl.
  - reflexivity.
  - destruct b; simpl; rewrite IH; reflexivity.
Qed.

Lemma filter_map_length {A : Type} (p : A -> bool) l :
  length (filter (fun b : bool => b) (map p l)) = length (filter p l).
Proof.
  induction l as [| x l IH]; simpl.
  - reflexivity.
  - destruct (p x); simpl; rewrite IH; reflexivity.
Qed.

Lemma filter_length_perm {A : Type} (p : A -> bool) l l' :
  Permutation l l' -> length (filter p l) = length (filter p l').
Proof.
  induction 1 as [| x l l' _ IH | x y l | l l' l'' _ IH1 _ IH2]; simpl.
  - reflexivity.
  - destruct (p x); simpl; rewrite IH; reflexivity.
  - destruct (p x), (p y); reflexivity.
  - rewrite IH1. exact IH2.
Qed.

Lemma filter_all {A : Type} (p : A -> bool) l :
  (forall x, In x l -> p x = true) -> filter p l = l.
Proof.
  induction l as [| x l IH]; intros H; simpl.
  - reflexivity.
  - rewrite (H x) by (simpl; auto). rewrite IH; [reflexivity |].
    intros y Hy. apply H. simpl. auto.
Qed.

Lemma filter_none {A : Type} (p : A -> bool) l :
  (forall x, In x l -> p x = false) -> filter p l = [].
Proof.
  induction l as [| x l IH]; intros H; simpl.
  - reflexivity.
  - rewrite (H x) by (simpl; auto). apply IH.
    intros y Hy. apply H. simpl. auto.
Qed.

(** The number of ranks [1 .. N] in the interval of [lo] (excluded) to
    [hi] (included). *)
Lemma count_interval N lo hi :
  (lo <= hi <= N)%nat ->
  length (filter (fun r => (lo <? r)%nat && (r <=? hi)%nat) (seq 1 N))
  = (hi - lo)%nat.
Proof.
  intros H.
  replace N with (lo + ((hi - lo) + (N - hi)))%nat by lia.
  rewrite seq_app, seq_app, !filter_app, !length_app.
  rewrite filter_none, filter_all, filter_none.
  - simpl. rewrite length_seq. lia.
  - intros r Hr. apply in_seq in Hr. apply andb_false_iff. right.
    apply Nat.leb_gt. lia.
  - intros r Hr. apply in_seq in Hr. apply andb_true_iff.
    rewrite Nat.ltb_lt, Nat.leb_le. lia.
  - intros r Hr. apply in_seq in Hr. apply andb_false_iff. left.
    apply Nat.ltb_ge. lia.
Qed.

Lemma div_step N M j :
  (1 <= M)%nat ->
  (N / M <= S j * N / M - j * N / M <= S (N / M))%nat.
Proof.
  intros HM.
  assert (HM0 : M <> O) by lia.
  pose proof (Nat.div_mod (j * N) M HM0) as Ea.
  pose proof (Nat.div_mod N M HM0) as Eb.
  pose proof (Nat.div_mod (S j * N) M HM0) as Ec.
  pose proof (Nat.mod_upper_bound (j * N) M HM0) as Ba.
  pose proof (Nat.mod_upper_bound N M HM0) as Bb.
  pose proof (Nat.mod_upper_bound (S j * N) M HM0) as Bc.
  set (qa := (j * N / M)%nat) in *. set (ra := ((j * N) mod M)%nat) in *.
  set (qb := (N / M)%nat) in *. set (rb := (N mod M)%nat) in *.
  set (qc := (S j * N / M)%nat) in *. set (rc := ((S j * N) mod M)%nat) in *.
  assert (E : (S j * N = j * N + N)%nat) by lia.
  nia.
Qed.

Lemma bin_indices_length X N M j :
  length X = N -> (1 <= M)%nat -> (j < M)%nat ->
  length (bin_indices (rankdata X) (linspace 0 (of_nat N) (S M)) j)
  = (S j * N / M - j * N / M)%nat.
Proof.
  intros HX HM Hj.
  assert (HM0 : M <> O) by lia.
  unfold bin_indices, np_where, bin_mask.
  rewrite where_from_length, filter_map_length.
  rewrite <- (filter_length_perm _ _ _ (rankdata_perm X)), HX.
  rewrite (filter_ext_in _
             (fun r => (j * N / M <? r)%nat && (r <=? S j * N / M)%nat)).
  - apply count_interval. split.
    + apply Nat.Div0.div_le_mono. nia.
    + apply Nat.Div0.div_le_upper_bound. nia.
  - intros r _. apply eq_true_iff_eq.
    rewrite in_bin_linspace by lia.
    rewrite andb_true_iff, Nat.ltb_lt, Nat.leb_le.
    split; intros [H1 H2]; split.
    + apply Nat.Div0.div_lt_upper_bound. lia.
    + apply Nat.div_le_lower_bound; lia.
    + destruct (Nat.lt_ge_cases (j * N) (r * M)) as [Hlt | Hge];
        [exact Hlt |].
      exfalso. assert (r <= j * N / M)%nat; [| lia].
      apply Nat.div_le_lower_bound; lia.
    + destruct (Nat.le_gt_cases (r * M) (S j * N)) as [Hle | Hgt];
        [exact Hle |].
      exfalso. assert (S j * N / M < r)%nat; [| lia].
      apply Nat.Div0.div_lt_upper_bound. lia.
Qed.

Lemma in_bin_floor lo hi r :
  0 <= lo -> 0 <= hi ->
  in_bin lo hi r
  = ((Z.to_nat (Qfloor lo) <? r)%nat && (r <=? Z.to_nat (Qfloor hi))%nat).
Proof.
  intros Hlo Hhi. apply eq_true_iff_eq.
  rewrite in_bin_spec, andb_true_iff, Nat.ltb_lt, Nat.leb_le.
  assert (Flo : (0 <= Qfloor lo)%Z)
    by (change 0%Z with (Qfloor 0); apply Qfloor_resp_le; exact Hlo).
  assert (Fhi : (0 <= Qfloor hi)%Z)
    by (change 0%Z with (Qfloor 0); apply Qfloor_resp_le; exact Hhi).
  pose proof (Qfloor_le lo) as L1. pose proof (Qlt_floor lo) as L2.
  pose proof (Qfloor_le hi) as H1. pose proof (Qlt_floor hi) as H2.
  unfold of_nat.
  split; intros [A B]; split.
  - assert (inject_Z (Qfloor lo) < inject_Z (Z.of_nat r))
      by (eapply Qle_lt_trans; eassumption).
    rewrite <- Zlt_Qlt in H. lia.
  - assert (inject_Z (Z.of_nat r) < inject_Z (Qfloor hi + 1))
      by (eapply Qle_lt_trans; eassumption).
    rewrite <- Zlt_Qlt in H. lia.
  - eapply Qlt_le_trans; [exact L2 |].
    rewrite <- Zle_Qle. lia.
  - eapply Qle_trans; [| exact H1].
    rewrite <- Zle_Qle. lia.
Qed.

(** X2.  The size of a bin is fixed by its two boundaries alone: for any
    boundaries with [0 <= m[j] <= m[j + 1] <= N], exact multiples of
    [N / M] or rounded, bin [j] holds exactly
    [floor(m[j + 1]) - floor(m[j])] samples, whatever the values of the
    parameter are. *)
Theorem bin_size :
  forall X m j,
    0 <= nth j m 0 ->
    nth j m 0 <= nth (S j) m 0 ->
    nth (S j) m 0 <= of_nat (length X) ->
    length (bin_indices (rankdata X) m j)
    = (Z.to_nat (Qfloor (nth (S j) m 0%Q))
       - Z.to_nat (Qfloor (nth j m 0%Q)))%nat.
Proof.
  intros X m j Hlo Hle Hhi.
  set (lo := nth j m 0) in *. set (hi := nth (S j) m 0) in *.
  assert (Hhi0 : 0 <= hi) by (eapply Qle_trans; eassumption).
  unfold bin_indices, np_where, bin_mask. fold lo hi.
  rewrite where_from_length, filter_map_length.
  rewrite <- (filter_length_perm _ _ _ (rankdata_perm X)).
  rewrite (filter_ext _ _ (fun r => in_bin_floor lo hi r Hlo Hhi0)).
  apply count_interval. split.
  - apply Z2Nat.inj_le;
      [change 0%Z with (Qfloor 0); apply Qfloor_resp_le; exact Hlo
      | change 0%Z with (Qfloor 0); apply Qfloor_resp_le; exact Hhi0
      | apply Qfloor_resp_le; exact Hle].
  - apply Qfloor_resp_le in Hhi. unfold of_nat in Hhi.
    rewrite Qfloor_Z in Hhi. lia.
Qed.

(** *** Ranks follow the values *)

Lemma insert_by_sorted a i s :
  StronglySorted (rank_before a) s ->
  (forall k, In k s -> (k < i)%nat) ->
  StronglySorted (rank_before a) (insert_by a i s).
Proof.
  induction 1 as [| k s Hs IH Hall]; intros Hlt; simpl.
  - repeat constructor.
  - rewrite Forall_forall in Hall.
    destruct (Qle_bool (nth k a 0) (nth i a 0)) eqn:E.
    + apply Qle_bool_iff in E. constructor.
      * apply IH. intros k' Hk'. apply Hlt. simpl. auto.
      * apply Forall_forall. intros x Hx.
        apply (Permutation_in _ (insert_by_perm a i s)) in Hx.
        destruct Hx as [<- | Hx]; [| apply Hall; exact Hx].
        assert (Hki : (k < i)%nat) by (apply Hlt; simpl; auto).
        unfold rank_before.
        destruct (Qeq_dec (nth k a 0) (nth i a 0)) as [He | Hn];
          [right; split; assumption | left; lra].
    + assert (Hlt' : nth i a 0 < nth k a 0).
      { apply Qnot_le_lt. intros Hle. apply Qle_bool_iff in Hle.
        congruence. }
      constructor;
        [constructor; [exact Hs | apply Forall_forall; exact Hall] |].
      apply Forall_forall. intros x [<- | Hx]; [left; exact Hlt' |].
      left. destruct (Hall x Hx) as [H | [H _]]; lra.
Qed.

Lemma fold_insert_sorted a n k0 s :
  StronglySorted (rank_before a) s ->
  (forall k, In k s -> (k < k0)%nat) ->
  StronglySorted (rank_before a)
    (fold_left (fun s i => insert_by a i s) (seq k0 n) s).
Proof.
  revert k0 s. induction n as [| n IH]; intros k0 s Hs Hlt; simpl.
  - exact Hs.
  - apply IH.
    + apply insert_by_sorted; assumption.
    + intros k Hk. apply (Permutation_in _ (insert_by_perm a k0 s)) in Hk.
      destruct Hk as [<- | Hk]; [lia |]. apply Hlt in Hk. lia.
Qed.

Lemma argsort_sorted a : StronglySorted (rank_before a) (argsort a).
Proof.
  unfold argsort. apply fold_insert_sorted; [constructor | intros k []].
Qed.

Lemma StronglySorted_nth {A : Type} (R : A -> A -> Prop) (d : A) s :
  StronglySorted R s ->
  forall p q, (p < q < length s)%nat -> R (nth p s d) (nth q s d).
Proof.
  induction 1 as [| x s Hs IH Hall]; intros p q Hpq; simpl in Hpq;
    [lia |].
  destruct q as [| q]; [lia |]. destruct p as [| p]; simpl.
  - rewrite Forall_forall in Hall. apply Hall, nth_In. lia.
  - apply IH. lia.
Qed.

Lemma rank_before_irrefl a i : ~ rank_before a i i.
Proof. intros [H | [_ H]]; [lra | lia]. Qed.

Lemma rank_before_asym a i j : rank_before a i j -> ~ rank_before a j i.
Proof. intros [H | [H1 H2]] [H' | [H1' H2']]; try lra; lia. Qed.

Lemma rank_before_total a i j :
  rank_before a i j \/ i = j \/ rank_before a j i.
Proof.
  unfold rank_before.
  destruct (Q_dec (nth i a 0) (nth j a 0)) as [[H | H] | H]; [auto | auto |].
  destruct (Nat.lt_trichotomy i j) as [Hl | [He | Hg]]; [auto | auto |].
  right. right. right. split; [symmetry; exact H | exact Hg].
Qed.

(** The position of a sample in the sorted order. *)
Lemma argsort_position a i :
  (i < length a)%nat ->
  exists p, (p < length a)%nat /\ nth p (argsort a) O = i
            /\ nth i (rankdata a) O = S p.
Proof.
  intros Hi.
  assert (Hin : In i (argsort a)).
  { apply (Permutation_in _ (Permutation_sym (argsort_perm a))).
    apply in_seq. lia. }
  destruct (In_nth _ _ O Hin) as [p [Hp Ep]].
  rewrite argsort_length in Hp.
  exists p. split; [exact Hp |]. split; [exact Ep |].
  rewrite <- Ep. apply rankdata_argsort. exact Hp.
Qed.

Lemma rankdata_lt_iff a i j :
  (i < length a)%nat -> (j < length a)%nat ->
  ((nth i (rankdata a) O < nth j (rankdata a) O)%nat <-> rank_before a i j).
Proof.
  intros Hi Hj.
  destruct (argsort_position a i Hi) as [p [Hp [Ep Rp]]].
  destruct (argsort_position a j Hj) as [q [Hq [Eq Rq]]].
  rewrite Rp, Rq.
  assert (Hsorted : forall p q,
            (p < q < length a)%nat ->
            rank_before a (nth p (argsort a) O) (nth q (argsort a) O)).
  { intros p' q' H. apply StronglySorted_nth; [apply argsort_sorted |].
    rewrite argsort_length. exact H. }
  split.
  - intros Hlt. specialize (Hsorted p q ltac:(lia)).
    rewrite Ep, Eq in Hsorted. exact Hsorted.
  - intros Hb. destruct (Nat.lt_trichotomy p q) as [Hl | [He | Hg]].
    + lia.
    + exfalso. subst q. rewrite Ep in Eq. subst j.
      apply (rank_before_irrefl a i Hb).
    + exfalso. specialize (Hsorted q p ltac:(lia)).
      rewrite Ep, Eq in Hsorted.
      apply (rank_before_asym a i j Hb Hsorted).
Qed.

(** X3.  Ordinal ranks order the samples by value, and equal values by
    position: sample [i] gets a smaller rank than sample [j] exactly when
    its value is smaller, or equal with [i < j]. *)
Theorem rankdata_order :
  forall a i j,
    (i < length a)%nat -> (j < length a)%nat ->
    ((nth i (rankdata a) O < nth j (rankdata a) O)%nat
     <-> rank_before a i j).
Proof. intros a i j. apply rankdata_lt_iff. Qed.

(** X4.  The bins are bins of the parameter: a sample of an earlier bin
    has a parameter value that is at most that of any sample of a later
    bin. *)
Theorem bins_ordered_by_value :
  forall X N M j j' i i',
    length X = N -> (1 <= M)%nat -> (j < j')%nat -> (j' < M)%nat ->
    In i (bin_indices (rankdata X) (linspace 0 (of_nat N) (S M)) j) ->
    In i' (bin_indices (rankdata X) (linspace 0 (of_nat N) (S M)) j') ->
    nth i X 0 <= nth i' X 0.
Proof.
  intros X N M j j' i i' HX HM Hjj Hj' Hi Hi'.
  apply bin_indices_In in Hi, Hi'.
  destruct Hi as [Hi Hin], Hi' as [Hi' Hin'].
  rewrite rankdata_length in Hi, Hi'.
  apply in_bin_linspace in Hin; [| lia | lia].
  apply in_bin_linspace in Hin'; [| lia | lia].
  assert (Hr : (nth i (rankdata X) O < nth i' (rankdata X) O)%nat) by nia.
  apply (rankdata_lt_iff X i i' Hi Hi') in Hr.
  destruct Hr as [H | [H _]]; lra.
Qed.


(** *** Only the order of the parameter values matters *)

Lemma insert_by_ext a b n i s :
  (forall i j, (i < n)%nat -> (j < n)%nat ->
     Qle_bool (nth i a 0) (nth j a 0) = Qle_bool (nth i b 0) (nth j b 0)) ->
  (i < n)%nat -> (forall k, In k s -> (k < n)%nat) ->
  insert_by a i s = insert_by b i s.
Proof.
  intros Hcmp Hi. induction s as [| k s IH]; intros Hs; simpl.
  - reflexivity.
  - assert (Hk : (k < n)%nat) by (apply Hs; simpl; auto).
    rewrite (Hcmp k i Hk Hi).
    rewrite IH by (intros k' Hk'; apply Hs; simpl; auto).
    reflexivity.
Qed.

Lemma fold_insert_ext a b n l s :
  (forall i j, (i < n)%nat -> (j < n)%nat ->
     Qle_bool (nth i a 0) (nth j a 0) = Qle_bool (nth i b 0) (nth j b 0)) ->
  (forall k, In k l -> (k < n)%nat) -> (forall k, In k s -> (k < n)%nat) ->
  fold_left (fun s i => insert_by a i s) l s
  = fold_left (fun s i => insert_by b i s) l s.
Proof.
  intros Hcmp. revert s. induction l as [| i l IH]; intros s Hl Hs; simpl.
  - reflexivity.
  - assert (Hi : (i < n)%nat) by (apply Hl; simpl; auto).
    rewrite (insert_by_ext a b n i s Hcmp Hi Hs).
    apply IH.
    + intros k Hk. apply Hl. simpl. auto.
    + intros k Hk. apply (Permutation_in _ (insert_by_perm b i s)) in Hk.
      destruct Hk as [<- | Hk]; [apply Hl; simpl; auto | apply Hs; exact Hk].
Qed.

(** Two arrays that compare alike get the same ranks. *)
Lemma rankdata_ext a b :
  length a = length b ->
  (forall i j, (i < length a)%nat -> (j < length a)%nat ->
     (nth i a 0 <= nth j a 0 <-> nth i b 0 <= nth j b 0)) ->
  rankdata a = rankdata b.
Proof.
  intros Hlen Hcmp.
  assert (E : argsort a = argsort b).
  { unfold argsort. rewrite <- Hlen.
    apply (fold_insert_ext a b (length a)).
    - intros i j Hi Hj. apply eq_true_iff_eq.
      rewrite !Qle_bool_iff. apply Hcmp; assumption.
    - intros k Hk. apply in_seq in Hk. lia.
    - intros k []. }
  unfold rankdata. rewrite E. reflexivity.
Qed.

Section OrderInvariance.

Context {L : Libm}.

(** X5.  The estimators read the parameter column through its ranks only:
    replacing [X] by any column of the same length in which the samples
    compare the same way (a rescaling, a change of unit, any increasing
    transformation) changes neither [calc_delta] nor [sobol_first]. *)
Theorem estimators_depend_on_order_only :
  forall Y Ygrid X X' m,
    length X = length X' ->
    (forall i j, (i < length X)%nat -> (j < length X)%nat ->
       (nth i X 0 <= nth j X 0 <-> nth i X' 0 <= nth j X' 0)) ->
    calc_delta Y Ygrid X m = calc_delta Y Ygrid X' m
    /\ sobol_first Y X m = sobol_first Y X' m.
Proof.
  intros Y Ygrid X X' m Hlen Hcmp.
  unfold calc_delta, sobol_first.
  rewrite (rankdata_ext X X' Hlen Hcmp). split; reflexivity.
Qed.

End OrderInvariance.


(* ================================================================= *)
(** ** Errors and edge cases *)

Lemma raises_only_bind {A B : Type} (P : exn -> Prop) (c : result A)
    (k : A -> result B) :
  raises_only P c -> (forall a, c = Ok a -> raises_only P (k a)) ->
  raises_only P (bind c k).
Proof.
  intros Hc Hk. destruct c as [a | e]; simpl.
  - apply Hk. reflexivity.
  - exact Hc.
Qed.

Lemma raises_only_for {A S : Type} (P : exn -> Prop) (l : list A)
    (body : S -> A -> result S) :
  (forall s a, raises_only P (body s a)) ->
  forall s, raises_only P (for_ l body s).
Proof.
  intros Hb. induction l as [| a l IH]; intros s; simpl.
  - exact I.
  - apply raises_only_bind; auto.
Qed.

Lemma raises_only_take P Y ix :
  (forall i, In i ix -> (i < length Y)%nat) -> raises_only P (take Y ix).
Proof. intros H. rewrite take_ok by exact H. exact I. Qed.

Lemma raises_only_take_index Y ix :
  raises_only is_kde_or_index_exn (take Y ix).
Proof.
  induction ix as [| i ix IH]; simpl.
  - exact I.
  - destruct (nth_error Y i).
    + apply raises_only_bind; [exact IH | intros; exact I].
    + right. eexists. eexists. reflexivity.
Qed.

Section Errors.

Context {L : Libm}.

Lemma raises_only_gaussian_kde data :
  raises_only is_kde_exn (gaussian_kde data).
Proof.
  destruct (kde_defined data) eqn:E.
  - rewrite (gaussian_kde_defined data E). exact I.
  - destruct (gaussian_kde_undefined data E) as [-> | ->];
      [left | right]; reflexivity.
Qed.

Lemma calc_delta_raises Y Ygrid X m :
  raises_only is_kde_or_index_exn (calc_delta Y Ygrid X m).
Proof.
  rewrite calc_delta_unfold.
  destruct (kde_defined Y) eqn:EY.
  - rewrite (gaussian_kde_defined Y EY). cbn [bind].
    pose proof (kde_defined_length Y EY) as HN.
    apply raises_only_for. intros acc j. unfold delta_step.
    apply raises_only_bind; [apply raises_only_take_index | intros Yix _].
    apply raises_only_bind.
    { pose proof (raises_only_gaussian_kde Yix) as H.
      destruct (gaussian_kde Yix); [exact I | left; exact H]. }
    intros kc _. rewrite py_truediv_ok by lia. exact I.
  - destruct (gaussian_kde_undefined Y EY) as [-> | ->];
      left; [left | right]; reflexivity.
Qed.

(** X6.  [calc_delta] fails in three ways only: with one of the two
    exceptions of the density estimator, or with an [IndexError] of the
    selection [Y[ix]]; the division [nm / (2 * N)] never fails, since a
    sample of fewer than two points stops the run at the first line.
    When [X] is not longer than [Y] the [IndexError] cannot occur either. *)
Theorem calc_delta_exceptions :
  forall Y Ygrid X m,
    raises_only is_kde_or_index_exn (calc_delta Y Ygrid X m)
    /\ (length X <= length Y ->
        raises_only is_kde_exn (calc_delta Y Ygrid X m))%nat
    /\ (length Y <= 1 ->
        calc_delta Y Ygrid X m
        = Raise (ValueError
                   "`dataset` input should have multiple elements."))%nat.
Proof.
  intros Y Ygrid X m.
  split; [apply calc_delta_raises |]. rewrite calc_delta_unfold. split.
  - intros Hlen. destruct (kde_defined Y) eqn:EY.
    + rewrite (gaussian_kde_defined Y EY). cbn [bind].
      pose proof (kde_defined_length Y EY) as HN.
      apply raises_only_for. intros acc j. unfold delta_step.
      apply raises_only_bind.
      { apply raises_only_take. intros i Hi.
        apply bin_indices_bound in Hi. rewrite rankdata_length in Hi. lia. }
      intros Yix _.
      apply raises_only_bind; [apply raises_only_gaussian_kde |].
      intros kc _. rewrite py_truediv_ok by lia. exact I.
    + destruct (gaussian_kde_undefined Y EY) as [-> | ->];
        [left | right]; reflexivity.
  - intros Hlen. unfold gaussian_kde.
    replace (length Y <=? 1)%nat with true
      by (symmetry; apply Nat.leb_le; exact Hlen).
    reflexivity.
Qed.

End Errors.

Lemma sobol_first_total Y X m :
  length Y <> O -> (length X <= length Y)%nat ->
  exists v, sobol_first Y X m = Ok v.
Proof.
  intros HN Hlen. rewrite sobol_first_unfold.
  assert (Hloop : forall l acc,
            exists v, for_ l (sobol_step Y X m) acc = Ok v).
  { induction l as [| j l IH]; intros acc; cbn [for_].
    - exists acc. reflexivity.
    - unfold sobol_step at 1. rewrite py_truediv_ok by exact HN.
      cbn [bind]. rewrite take_ok.
      + cbn [bind]. apply IH.
      + intros i Hi. apply bin_indices_bound in Hi.
        rewrite rankdata_length in Hi. lia. }
  destruct (Hloop (seq 0 (length m - 1)) (Fin 0)) as [v E].
  rewrite E. cbn [bind]. eexists. reflexivity.
Qed.

(** X7.  [sobol_first] never fails on a non-empty output with a parameter
    column that is not longer: a degenerate sample shows in the value,
    not in an exception.  On an empty output with at least one bin the
    division [nm / N] of two Python integers raises
    [ZeroDivisionError]. *)
Theorem sobol_first_exceptions :
  forall Y X m,
    (length Y <> O -> (length X <= length Y)%nat ->
     exists v, sobol_first Y X m = Ok v)
    /\ (length Y = O -> (2 <= length m)%nat ->
        sobol_first Y X m = Raise (ZeroDivisionError "division by zero")).
Proof.
  intros Y X m. split.
  - apply sobol_first_total.
  - intros HN Hm. rewrite sobol_first_unfold.
    destruct (length m - 1)%nat as [| n] eqn:E; [lia |].
    cbn [seq for_]. unfold sobol_step at 1. rewrite HN. reflexivity.
Qed.

Section AnalyzeErrors.

Context {L : Libm}.

Lemma conf_level_check c :
  0 <= c <= 1 -> Qlt_bool c 0 || Qlt_bool 1 c = false.
Proof.
  intros [H0 H1]. unfold Qlt_bool.
  replace (Qle_bool 0 c) with true by (symmetry; apply Qle_bool_iff; lra).
  replace (Qle_bool c 1) with true by (symmetry; apply Qle_bool_iff; lra).
  reflexivity.
Qed.

(** X8.  On an empty output vector (and a valid confidence level)
    [analyze] fails with the [ValueError] of [np.min], before anything is
    printed or drawn, whatever the problem and [X] are. *)
Theorem analyze_empty_output :
  forall problem X calc_second_order num_resamples conf_level
         print_to_console w,
    0 <= conf_level <= 1 ->
    analyze problem X [] calc_second_order num_resamples conf_level
            print_to_console w
    = (Raise (ValueError
                "zero-size array to reduction operation minimum which has no identity"),
       w).
Proof.
  intros problem X flag R c p w Hc. unfold analyze.
  rewrite (conf_level_check c Hc). reflexivity.
Qed.

Lemma bind_io_ok {A B : Type} (c : io A) (k : A -> io B) w a w' :
  c w = (Ok a, w') -> bind_io c k w = k a w'.
Proof. intros H. unfold bind_io. rewrite H. reflexivity. Qed.

Lemma bind_io_fail {A B : Type} (c : io A) (k : A -> io B) w e w' :
  c w = (Raise e, w') -> bind_io c k w = (Raise e, w').
Proof. intros H. unfold bind_io. rewrite H. reflexivity. Qed.

Lemma for_io_cons_fail {A S : Type} (a : A) l (body : S -> A -> io S) s w e
    w' :
  body s a w = (Raise e, w') -> for_io (a :: l) body s w = (Raise e, w').
Proof. intros H. cbn [for_io]. apply bind_io_fail. exact H. Qed.

(** A failure of the point estimate is the failure of the bootstrap. *)
Lemma bias_reduced_delta_fails Y Ygrid X m R c w e :
  calc_delta Y Ygrid X m = Raise e ->
  bias_reduced_delta Y Ygrid X m R c w = (Raise e, w).
Proof.
  intros H. unfold bias_reduced_delta. apply bind_io_fail.
  unfold lift. rewrite H. reflexivity.
Qed.

(** X9.  On an output of one sample [analyze] never reaches the Sobol
    computation: for a problem with at least one parameter (and a column
    for it) the first density estimate fails with the [ValueError] of
    [gaussian_kde], after the header line if printing is on and before
    any draw. *)
Theorem analyze_single_sample :
  forall problem X y calc_second_order num_resamples conf_level
         print_to_console w,
    0 <= conf_level <= 1 ->
    (1 <= num_vars problem)%nat -> (1 <= ncols X)%nat ->
    analyze problem X [y] calc_second_order num_resamples conf_level
            print_to_console w
    = (Raise (ValueError "`dataset` input should have multiple elements."),
       if print_to_console
       then mkWorld (rng_draws w) (rng_pos w) (console w ++ [header])
       else w).
Proof.
  intros problem X y flag R c p w Hc HD Hcols.
  assert (Hdelta : forall Ygrid Xi m,
            calc_delta [y] Ygrid Xi m
            = Raise (ValueError
                       "`dataset` input should have multiple elements.")).
  { intros. rewrite calc_delta_unfold. reflexivity. }
  assert (Hcol : column X 0 = Ok (map (fun row => nth 0 row 0) (rows X))).
  { unfold column. replace (0 <? ncols X)%nat with true
      by (symmetry; apply Nat.ltb_lt; lia). reflexivity. }
  unfold analyze. rewrite (conf_level_check c Hc).
  rewrite (bind_io_ok (lift (np_min [y])) _ w y w eq_refl).
  rewrite (bind_io_ok (lift (np_max [y])) _ w y w eq_refl).
  destruct (num_vars problem) as [| D] eqn:ED; [lia |].
  cbn [seq].
  set (w1 := if p
             then mkWorld (rng_draws w) (rng_pos w) (console w ++ [header])
             else w).
  rewrite (bind_io_ok (if p then print header else ret tt) _ w tt w1)
    by (unfold w1; destruct p; reflexivity).
  apply for_io_cons_fail.
  rewrite (bind_io_ok (lift (column X 0)) _ w1 _ w1)
    by (unfold lift; rewrite Hcol; reflexivity).
  apply bind_io_fail. apply bias_reduced_delta_fails. apply Hdelta.
Qed.

End AnalyzeErrors.


(* ================================================================= *)
(** ** What a run does to the generator and the console *)

Lemma effect_weaken {A : Type} k p k' p' (c : io A) :
  k = k' -> p = p' -> effect k p c -> effect k' p' c.
Proof. intros -> ->. auto. Qed.

Lemma effect_ret {A : Type} (a : A) : effect 0 0 (ret a).
Proof.
  intros w a' w' H. unfold ret in H. injection H as _ <-.
  repeat split; [lia |]. exists []. rewrite app_nil_r. auto.
Qed.

Lemma effect_lift {A : Type} (c : result A) : effect 0 0 (lift c).
Proof.
  intros w a' w' H. unfold lift in H. injection H as _ <-.
  repeat split; [lia |]. exists []. rewrite app_nil_r. auto.
Qed.

Lemma effect_print line : effect 0 1 (print line).
Proof.
  intros w a' w' H. unfold print in H. injection H as _ <-. simpl.
  repeat split; [lia |]. exists [line]. auto.
Qed.

Lemma effect_randint high size : effect size 0 (randint high size).
Proof.
  intros w a' w' H. unfold randint in H.
  destruct high; [discriminate |]. injection H as _ <-. simpl.
  repeat split. exists []. rewrite app_nil_r. auto.
Qed.

Lemma effect_bind {A B : Type} k1 p1 k2 p2 (c : io A) (f : A -> io B) :
  effect k1 p1 c -> (forall a, effect k2 p2 (f a)) ->
  effect (k1 + k2) (p1 + p2) (bind_io c f).
Proof.
  intros Hc Hf w b w' H. unfold bind_io in H.
  destruct (c w) as [[a | e] w1] eqn:E; [| discriminate].
  destruct (Hc _ _ _ E) as [D1 [P1 [l1 [C1 L1]]]].
  destruct (Hf a _ _ _ H) as [D2 [P2 [l2 [C2 L2]]]].
  split; [congruence |]. split; [lia |].
  exists (l1 ++ l2). rewrite C2, C1, <- app_assoc, length_app. auto.
Qed.

Lemma effect_for {A S : Type} k p (l : list A) (body : S -> A -> io S) :
  (forall s a, effect k p (body s a)) ->
  forall s, effect (length l * k) (length l * p) (for_io l body s).
Proof.
  intros Hb. induction l as [| a l IH]; intros s; cbn [for_io length].
  - apply effect_ret.
  - apply (effect_weaken (k + length l * k) (p + length l * p));
      [lia | lia |].
    apply effect_bind; [apply Hb | intros s'; apply IH].
Qed.

Lemma silent_ret {A : Type} (a : A) : silent (ret a).
Proof. intros w. reflexivity. Qed.

Lemma silent_raise {A : Type} (e : exn) : silent (@raise A e).
Proof. intros w. reflexivity. Qed.

Lemma silent_lift {A : Type} (c : result A) : silent (lift c).
Proof. intros w. reflexivity. Qed.

Lemma silent_randint high size : silent (randint high size).
Proof. intros w. unfold randint. destruct high; reflexivity. Qed.

Lemma silent_bind {A B : Type} (c : io A) (f : A -> io B) :
  silent c -> (forall a, silent (f a)) -> silent (bind_io c f).
Proof.
  intros Hc Hf w. unfold bind_io. specialize (Hc w).
  destruct (c w) as [[a | e] w1]; simpl in *.
  - rewrite Hf. exact Hc.
  - exact Hc.
Qed.

Lemma silent_for {A S : Type} (l : list A) (body : S -> A -> io S) :
  (forall s a, silent (body s a)) -> forall s, silent (for_io l body s).
Proof.
  intros Hb. induction l as [| a l IH]; intros s; cbn [for_io].
  - apply silent_ret.
  - apply silent_bind; auto.
Qed.

Section Footprint.

Context {L : Libm}.

Lemma silent_bias_reduced_delta Y Ygrid X m R c :
  silent (bias_reduced_delta Y Ygrid X m R c).
Proof.
  unfold bias_reduced_delta.
  apply silent_bind; [apply silent_lift | intros d_hat].
  apply silent_bind; [| intros; apply silent_ret].
  apply silent_for. intros s i.
  repeat (apply silent_bind;
          [first [apply silent_randint | apply silent_lift] | intros ?]).
  apply silent_ret.
Qed.

Lemma silent_sobol_first_conf Y X m R c :
  silent (sobol_first_conf Y X m R c).
Proof.
  unfold sobol_first_conf.
  apply silent_bind; [| intros; apply silent_ret].
  apply silent_for. intros s i.
  repeat (apply silent_bind;
          [first [apply silent_randint | apply silent_lift] | intros ?]).
  apply silent_ret.
Qed.

Lemma effect_bias_reduced_delta Y Ygrid X m R c :
  effect (R * length Y) 0 (bias_reduced_delta Y Ygrid X m R c).
Proof.
  unfold bias_reduced_delta.
  apply (effect_weaken (0 + (length (seq 0 R) * (length Y + (0 + (0 + (0 + 0))))
                             + 0))
                       (0 + (length (seq 0 R) * (0 + (0 + (0 + (0 + 0)))) + 0)));
    [rewrite length_seq; lia | rewrite length_seq; lia |].
  apply effect_bind; [apply effect_lift | intros d_hat].
  apply effect_bind; [| intros; apply effect_ret].
  apply effect_for. intros s i.
  apply effect_bind; [apply effect_randint | intros r].
  apply effect_bind; [apply effect_lift | intros Yr].
  apply effect_bind; [apply effect_lift | intros Xr].
  apply effect_bind; [apply effect_lift | intros di].
  apply effect_ret.
Qed.

Lemma effect_sobol_first_conf Y X m R c :
  effect (R * length Y) 0 (sobol_first_conf Y X m R c).
Proof.
  unfold sobol_first_conf.
  apply (effect_weaken (length (seq 0 R) * (length Y + (0 + (0 + (0 + 0))))
                        + 0)
                       (length (seq 0 R) * (0 + (0 + (0 + (0 + 0)))) + 0));
    [rewrite length_seq; lia | rewrite length_seq; lia |].
  apply effect_bind; [| intros; apply effect_ret].
  apply effect_for. intros s i.
  apply effect_bind; [apply effect_randint | intros r].
  apply effect_bind; [apply effect_lift | intros Yr].
  apply effect_bind; [apply effect_lift | intros Xr].
  apply effect_bind; [apply effect_lift | intros si].
  apply effect_ret.
Qed.

(** X10.  A bootstrap that succeeds has drawn exactly [R * N] numbers
    ([R] index vectors of length [N]) and left the rest of the world as
    it was; failing or not, it prints nothing.  This holds for
    [bias_reduced_delta] and for [sobol_first_conf]. *)
Theorem bootstrap_footprint :
  forall Y Ygrid X m R conf_level,
    effect (R * length Y) 0 (bias_reduced_delta Y Ygrid X m R conf_level)
    /\ effect (R * length Y) 0 (sobol_first_conf Y X m R conf_level)
    /\ silent (bias_reduced_delta Y Ygrid X m R conf_level)
    /\ silent (sobol_first_conf Y X m R conf_level).
Proof.
  intros. split; [apply effect_bias_reduced_delta |].
  split; [apply effect_sobol_first_conf |].
  split; [apply silent_bias_reduced_delta | apply silent_sobol_first_conf].
Qed.

(** The body of the loop of [analyze] over the parameters. *)
Lemma effect_analyze_body problem X Y Ygrid m R c (p : bool) S i :
  effect (2 * (R * length Y)) (if p then 1 else 0)
    (Xi <~ lift (column X i) ;;
     dd <~ bias_reduced_delta Y Ygrid Xi m R c ;;
     let S := mkSens (list_set i (fst dd) (delta S))
                     (list_set i (snd dd) (delta_conf S))
                     (S1 S) (S1_conf S) in
     Xi <~ lift (column X i) ;;
     s1 <~ lift (sobol_first Y Xi m) ;;
     let S := mkSens (delta S) (delta_conf S)
                     (list_set i s1 (S1 S)) (S1_conf S) in
     Xi <~ lift (column X i) ;;
     s1c <~ sobol_first_conf Y Xi m R c ;;
     let S := mkSens (delta S) (delta_conf S) (S1 S)
                     (list_set i s1c (S1_conf S)) in
     _ <~ (if p then
             name <~ lift (names_get problem i) ;;
             print (row_line name (nth i (delta S) NaN)
                      (nth i (delta_conf S) NaN) (nth i (S1 S) NaN)
                      (nth i (S1_conf S) NaN))
           else ret tt) ;;
     ret S).
Proof.
  apply (effect_weaken
           (0 + (R * length Y + (0 + (0 + (0 + (R * length Y + (0 + 0)))))))
           (0 + (0 + (0 + (0 + (0 + (0 + ((if p then 1 else 0) + 0))))))));
    [lia | destruct p; lia |].
  apply effect_bind; [apply effect_lift | intros Xi].
  apply effect_bind; [apply effect_bias_reduced_delta | intros dd].
  apply effect_bind; [apply effect_lift | intros Xi'].
  apply effect_bind; [apply effect_lift | intros s1].
  apply effect_bind; [apply effect_lift | intros Xi''].
  apply effect_bind; [apply effect_sobol_first_conf | intros s1c].
  apply effect_bind; [| intros; apply effect_ret].
  destruct p.
  - apply (effect_weaken (0 + 0) (0 + 1)); [lia | lia |].
    apply effect_bind; [apply effect_lift | intros; apply effect_print].
  - apply effect_ret.
Qed.

(** X11.  A call of [analyze] that succeeds has drawn [D * 2 * R * N]
    numbers; with [print_to_console] it has printed the header line and
    then one line per parameter, without it nothing. *)
Theorem analyze_footprint :
  forall problem X Y calc_second_order num_resamples conf_level
         print_to_console w S w',
    analyze problem X Y calc_second_order num_resamples conf_level
            print_to_console w = (Ok S, w') ->
    rng_draws w' = rng_draws w
    /\ rng_pos w'
       = (rng_pos w + num_vars problem * (2 * (num_resamples * length Y)))%nat
    /\ exists lines,
         length lines = num_vars problem
         /\ console w'
            = console w ++ (if print_to_console then header :: lines else []).
Proof.
  intros problem X Y flag R c p w S w'. unfold analyze.
  destruct (Qlt_bool c 0 || Qlt_bool 1 c); [discriminate |].
  unfold bind_io at 1, lift at 1.
  destruct (np_min Y) as [ymin | e]; [| discriminate].
  unfold bind_io at 1, lift at 1.
  destruct (np_max Y) as [ymax | e]; [| discriminate].
  unfold bind_io at 1.
  set (w1 := if p
             then mkWorld (rng_draws w) (rng_pos w) (console w ++ [header])
             else w).
  replace ((if p then print header else ret tt) w) with (Ok tt, w1)
    by (unfold w1; destruct p; reflexivity).
  intros H.
  pose proof (effect_for (2 * (R * length Y)) (if p then 1 else 0)
                (seq 0 (num_vars problem)) _
                (fun S i => effect_analyze_body problem X Y _ _ R c p S i)
                _ _ _ _ H) as [Hd [Hp [lines [Hc Hl]]]].
  rewrite length_seq in Hp, Hl.
  split; [rewrite Hd; unfold w1; destruct p; reflexivity |].
  split; [rewrite Hp; unfold w1; destruct p; simpl; lia |].
  destruct p.
  - exists lines. split; [lia |]. rewrite Hc. unfold w1. simpl.
    rewrite <- app_assoc. reflexivity.
  - exists (repeat header (num_vars problem)).
    split; [apply repeat_length |]. rewrite Hc. unfold w1.
    destruct lines; [reflexivity | simpl in Hl; lia].
Qed.

(** X12.  Without [print_to_console] no run of [analyze] prints
    anything, whether it returns or fails. *)
Theorem analyze_silent :
  forall problem X Y calc_second_order num_resamples conf_level w,
    console (snd (analyze problem X Y calc_second_order num_resamples
                          conf_level false w))
    = console w.
Proof.
  intros problem X Y flag R c w. unfold analyze.
  destruct (Qlt_bool c 0 || Qlt_bool 1 c); [reflexivity |].
  match goal with
  | |- console (snd (?body w)) = _ => generalize w; change (silent body)
  end.
  do 2 (apply silent_bind; [apply silent_lift | intros ?]).
  apply silent_bind; [apply silent_ret | intros _].
  apply silent_for. intros S i.
  apply silent_bind; [apply silent_lift | intros ?].
  apply silent_bind; [apply silent_bias_reduced_delta | intros ?].
  apply silent_bind; [apply silent_lift | intros ?].
  apply silent_bind; [apply silent_lift | intros ?].
  apply silent_bind; [apply silent_lift | intros ?].
  apply silent_bind; [apply silent_sobol_first_conf | intros ?].
  apply silent_bind; [apply silent_ret | intros ?].
  apply silent_ret.
Qed.

End Footprint.


(* ================================================================= *)
(** ** The result of [analyze] *)

Lemma for_io_seq_invariant {S : Type} (Inv : nat -> S -> world -> Prop)
    (body : S -> nat -> io S) n :
  forall k0,
    (forall k s w s' w',
       (k0 <= k < k0 + n)%nat -> Inv k s w -> body s k w = (Ok s', w') ->
       Inv (Datatypes.S k) s' w') ->
    forall s w s' w',
      Inv k0 s w -> for_io (seq k0 n) body s w = (Ok s', w') ->
      Inv (k0 + n)%nat s' w'.
Proof.
  induction n as [| n IH]; intros k0 Hstep s w s' w' H0; cbn [seq for_io].
  - unfold ret. intros H. injection H as <- <-.
    rewrite Nat.add_0_r. exact H0.
  - unfold bind_io. destruct (body s k0 w) as [[s1 | e] w1] eqn:E;
      [| discriminate].
    intros H. replace (k0 + Datatypes.S n)%nat with (Datatypes.S k0 + n)%nat
      by lia.
    apply (IH (Datatypes.S k0)) with (s := s1) (w := w1).
    + intros k s2 w2 s3 w3 Hk. apply Hstep. lia.
    + apply (Hstep k0 s w); [lia | exact H0 | exact E].
    + exact H.
Qed.

Section AnalyzeResult.

Context {L : Libm}.

Lemma param_result_ext X Y Ygrid m R c w0 S S' i :
  nth i (delta S') NaN = nth i (delta S) NaN ->
  nth i (delta_conf S') NaN = nth i (delta_conf S) NaN ->
  nth i (S1 S') NaN = nth i (S1 S) NaN ->
  nth i (S1_conf S') NaN = nth i (S1_conf S) NaN ->
  param_result X Y Ygrid m R c w0 S i ->
  param_result X Y Ygrid m R c w0 S' i.
Proof.
  intros E1 E2 E3 E4. unfold param_result. rewrite E1, E2, E3, E4. auto.
Qed.

(** X13.  A call of [analyze] that succeeds returns four vectors of
    length [D], and their entries of index [i] are the results of
    [bias_reduced_delta], [sobol_first] and [sobol_first_conf] on column
    [i] of [X], with the boundaries [linspace(0, N, M + 1)] and the grid
    [linspace(min Y, max Y, 100)]; the two bootstraps of parameter [i]
    read the generator from draw [i * 2 * R * N] on, one after the
    other. *)
Theorem analyze_result :
  forall problem X Y calc_second_order num_resamples conf_level
         print_to_console w S w',
    analyze problem X Y calc_second_order num_resamples conf_level
            print_to_console w = (Ok S, w') ->
    exists ymin ymax,
      np_min Y = Ok ymin /\ np_max Y = Ok ymax
      /\ length (delta S) = num_vars problem
      /\ length (delta_conf S) = num_vars problem
      /\ length (S1 S) = num_vars problem
      /\ length (S1_conf S) = num_vars problem
      /\ forall i,
           (i < num_vars problem)%nat ->
           param_result X Y (linspace ymin ymax 100)
             (linspace 0 (of_nat (length Y))
                (Z.to_nat (bin_count (length Y) + 1)))
             num_resamples conf_level w S i.
Proof.
  intros problem X Y flag R c p w S w'. unfold analyze.
  destruct (Qlt_bool c 0 || Qlt_bool 1 c); [discriminate |].
  unfold bind_io at 1, lift at 1.
  destruct (np_min Y) as [ymin | e]; [| discriminate].
  unfold bind_io at 1, lift at 1.
  destruct (np_max Y) as [ymax | e]; [| discriminate].
  unfold bind_io at 1.
  set (w1 := if p
             then mkWorld (rng_draws w) (rng_pos w) (console w ++ [header])
             else w).
  replace ((if p then print header else ret tt) w) with (Ok tt, w1)
    by (unfold w1; destruct p; reflexivity).
  set (D := num_vars problem).
  set (m := linspace 0 (of_nat (length Y))
              (Z.to_nat (bin_count (length Y) + 1))).
  set (Ygrid := linspace ymin ymax 100).
  intros H. exists ymin, ymax. split; [reflexivity |]. split; [reflexivity |].
  apply (for_io_seq_invariant
           (fun k S wk =>
              length (delta S) = D /\ length (delta_conf S) = D
              /\ length (S1 S) = D /\ length (S1_conf S) = D
              /\ rng_draws wk = rng_draws w
              /\ rng_pos wk = (rng_pos w + k * (2 * (R * length Y)))%nat
              /\ forall i, (i < k)%nat ->
                           param_result X Y Ygrid m R c w S i)) in H.
  - simpl in H. destruct H as [H1 [H2 [H3 [H4 [_ [_ H]]]]]]. auto.
  - clear H. intros k S0 wk S' wk' Hk
      [L1 [L2 [L3 [L4 [Hdraws [Hpos Hdone]]]]]] H.
    cbv zeta in H.
    unfold bind_io at 1, lift at 1 in H.
    destruct (column X k) as [Xi | e] eqn:Ecol; [| discriminate].
    unfold bind_io at 1 in H.
    destruct (bias_reduced_delta Y Ygrid Xi m R c wk) as [[[d dc] | e] w2]
      eqn:Ebrd; [| discriminate].
    unfold bind_io at 1, lift at 1 in H.
    unfold bind_io at 1, lift at 1 in H.
    destruct (sobol_first Y Xi m) as [s1 | e] eqn:Es1; [| discriminate].
    unfold bind_io at 1, lift at 1 in H.
    unfold bind_io at 1 in H.
    destruct (sobol_first_conf Y Xi m R c w2) as [[s1c | e] w3] eqn:Esfc;
      [| discriminate].
    cbn [delta delta_conf S1 S1_conf fst snd] in H.
    destruct (effect_bias_reduced_delta _ _ _ _ _ _ _ _ _ Ebrd)
      as [Db [Pb _]].
    destruct (effect_sobol_first_conf _ _ _ _ _ _ _ _ Esfc) as [Ds [Ps _]].
    assert (HS : S' = mkSens (list_set k d (delta S0))
                             (list_set k dc (delta_conf S0))
                             (list_set k s1 (S1 S0))
                             (list_set k s1c (S1_conf S0))
                 /\ rng_draws wk' = rng_draws w3
                 /\ rng_pos wk' = rng_pos w3).
    { unfold bind_io at 1 in H. destruct p.
      - unfold bind_io at 1, lift at 1 in H.
        destruct (names_get problem k); [| discriminate].
        unfold print, ret in H. injection H as <- <-. auto.
      - unfold ret in H. injection H as <- <-. auto. }
    destruct HS as [-> [Dw Pw]]. cbn [delta delta_conf S1 S1_conf].
    rewrite !list_set_length.
    repeat (split; [assumption || congruence || lia |]).
    intros i Hi. destruct (Nat.eq_dec i k) as [-> | Hne].
    + exists Xi, wk, w2, w3. cbn [delta delta_conf S1 S1_conf].
      rewrite !list_set_nth_same by lia.
      repeat (split; [assumption |]). assumption.
    + apply (param_result_ext X Y Ygrid m R c w S0);
        cbn [delta delta_conf S1 S1_conf];
        try (apply list_set_nth_other; congruence).
      apply Hdone. lia.
  - unfold np_zeros. cbn [delta delta_conf S1 S1_conf].
    rewrite !repeat_length.
    repeat (split; [reflexivity |]).
    split; [unfold w1; destruct p; reflexivity |].
    split; [unfold w1; destruct p; simpl; lia |].
    intros i Hi. lia.
Qed.

End AnalyzeResult.


(* ================================================================= *)
(** ** The bootstrap of the first-order index *)

Lemma fill_np_app pre vs x :
  fill_np (length pre) vs (pre ++ repeat x (length vs)) = pre ++ vs.
Proof.
  revert pre. induction vs as [| v vs IH]; intros pre; unfold fill_np; simpl.
  - reflexivity.
  - rewrite list_set_app.
    change (pre ++ v :: repeat x (length vs))
      with (pre ++ [v] ++ repeat x (length vs)).
    rewrite app_assoc.
    replace (S (length pre)) with (length (pre ++ [v]))
      by (rewrite length_app; simpl; lia).
    fold (fill_np (length (pre ++ [v])) vs
                  ((pre ++ [v]) ++ repeat x (length vs))).
    rewrite IH, <- app_assoc. reflexivity.
Qed.

Lemma fill_np_all vs x : fill_np 0 vs (repeat x (length vs)) = vs.
Proof. apply (fill_np_app [] vs x). Qed.

Section SobolConf.

Context {L : Libm}.

(** The loop of [sobol_first_conf] over the resamples
    [k0 .. k0 + n - 1]. *)
Lemma sobol_conf_loop Y X m w :
  length X = length Y -> length Y <> O ->
  forall vs k0 d con,
    (forall t, (t < length vs)%nat ->
       sobol_first (select Y (resample_indices w (length Y) (k0 + t)))
                   (select X (resample_indices w (length Y) (k0 + t))) m
       = Ok (nth t vs NaN)) ->
    for_io (seq k0 (length vs))
      (fun s i =>
         r <~ randint (length Y) (length Y) ;;
         Yr <~ lift (take Y r) ;;
         Xr <~ lift (take X r) ;;
         si <~ lift (sobol_first Yr Xr m) ;;
         ret (list_set i si s))
      d (mkWorld (rng_draws w) (rng_pos w + k0 * length Y) con)
    = (Ok (fill_np k0 vs d),
       mkWorld (rng_draws w) (rng_pos w + (k0 + length vs) * length Y) con).
Proof.
  intros Hlen HN. induction vs as [| v vs IH]; intros k0 d con Hvs.
  - cbn [length seq for_io]. unfold ret, fill_np. simpl.
    rewrite Nat.add_0_r. reflexivity.
  - cbn [length seq for_io]. unfold bind_io at 1. unfold bind_io at 1.
    rewrite randint_resample by exact HN.
    unfold bind_io at 1, lift at 1.
    rewrite take_ok
      by (intros i Hi; apply resample_indices_bound in Hi; lia).
    unfold bind_io at 1, lift at 1.
    rewrite take_ok
      by (intros i Hi; apply resample_indices_bound in Hi; lia).
    unfold bind_io at 1, lift at 1.
    pose proof (Hvs O ltac:(simpl; lia)) as H0.
    rewrite Nat.add_0_r in H0. unfold select in H0. rewrite H0.
    unfold ret at 1. cbn [nth].
    rewrite (IH (S k0) (list_set k0 v d) con).
    + unfold fill_np. cbn [length seq combine fold_left fst snd].
      f_equal. f_equal. lia.
    + intros t Ht. specialize (Hvs (S t) ltac:(simpl; lia)).
      rewrite Nat.add_succ_r in Hvs. exact Hvs.
Qed.

(** X14.  On a non-empty output with a parameter column of the same
    length [sobol_first_conf] always returns: its value is
    [norm.ppf(0.5 + c / 2) * std(s, ddof = 1)], where [s] holds the [R]
    values of [sobol_first] on the resamples, the [k]-th on the rows of
    [Y] and [X] selected by one and the same index vector, and it has
    advanced the generator by [R * N] draws. *)
Theorem sobol_first_conf_value :
  forall Y X m R conf_level w,
    length X = length Y -> length Y <> O ->
    (forall k, (k < R)%nat ->
       sobol_first (select Y (resample_indices w (length Y) k))
                   (select X (resample_indices w (length Y) k)) m
       = Ok (sobol_resample Y X m w k))
    /\ sobol_first_conf Y X m R conf_level w
       = (Ok (fmul (norm_ppf ((1 # 2) + conf_level / 2))
                   (np_std 1 (map (sobol_resample Y X m w) (seq 0 R)))),
          mkWorld (rng_draws w) (rng_pos w + R * length Y) (console w)).
Proof.
  intros Y X m R c w Hlen HN.
  assert (Hres : forall k,
            sobol_first (select Y (resample_indices w (length Y) k))
                        (select X (resample_indices w (length Y) k)) m
            = Ok (sobol_resample Y X m w k)).
  { intros k. unfold sobol_resample, select.
    destruct (sobol_first_total
                (map (fun i => nth i Y 0) (resample_indices w (length Y) k))
                (map (fun i => nth i X 0) (resample_indices w (length Y) k))
                m) as [v E].
    - rewrite length_map, resample_indices_length. exact HN.
    - rewrite !length_map. lia.
    - rewrite E. reflexivity. }
  split; [intros k _; apply Hres |].
  unfold sobol_first_conf. unfold bind_io at 1.
  set (ss := map (sobol_resample Y X m w) (seq 0 R)).
  assert (Hss : length ss = R)
    by (unfold ss; rewrite length_map, length_seq; reflexivity).
  destruct w as [draws pos con]. cbn [rng_draws rng_pos console].
  replace (mkWorld draws pos con)
    with (mkWorld (rng_draws (mkWorld draws pos con))
                  (rng_pos (mkWorld draws pos con) + 0 * length Y) con)
    at 1 by (cbn [rng_draws rng_pos]; f_equal; lia).
  rewrite <- Hss at 1 2.
  rewrite (sobol_conf_loop Y X m (mkWorld draws pos con) Hlen HN ss 0%nat
             (np_empty (length ss)) con).
  - cbn [rng_draws rng_pos]. unfold np_empty. rewrite fill_np_all.
    unfold ret. rewrite Hss. reflexivity.
  - intros t Ht. rewrite Hss in Ht. simpl. rewrite Hres. f_equal.
    unfold ss. rewrite (nth_indep _ NaN (sobol_resample Y X m
                                           (mkWorld draws pos con) O))
      by (rewrite length_map, length_seq; exact Ht).
    rewrite map_nth, seq_nth by exact Ht. reflexivity.
Qed.

End SobolConf.


(* ================================================================= *)
(** ** A change of unit of the output *)

(** On a sample that is not constant, with [X] as long and no empty bin,
    [sobol_first] returns the variance ratio. *)
Lemma sobol_first_defined Y X m y1 y2 :
  length X = length Y ->
  In y1 Y -> In y2 Y -> ~ y1 == y2 ->
  (forall j, (j < length m - 1)%nat -> bin_indices (rankdata X) m j <> []) ->
  exists q,
    sobol_first Y X m = Ok (Fin q) /\ q == between_var Y X m / pvar Y.
Proof.
  intros Hlen H1 H2 Hne Hbins.
  assert (HY : Y <> []) by (intros E; rewrite E in H1; destruct H1).
  assert (HN : length Y <> O) by (destruct Y; [congruence | discriminate]).
  rewrite sobol_first_unfold.
  destruct (sobol_loop Y X m Hlen HN (seq 0 (length m - 1))
              ltac:(intros j Hj; apply in_seq in Hj; apply Hbins; lia) 0)
    as [d [E Hd]].
  rewrite E. cbn [bind]. rewrite (np_var_ddof0_Fin Y HY).
  assert (Hsq : 0 < sqdev (mean Y) Y) by (apply (sqdev_pos Y y1 y2); assumption).
  assert (Hpv : 0 < pvar Y).
  { unfold pvar. apply Qlt_shift_div_l; [apply of_nat_pos; lia | lra]. }
  unfold fdiv.
  replace (Qeq_bool (pvar Y) 0) with false
    by (symmetry; apply not_true_is_false; rewrite Qeq_bool_iff; lra).
  exists (d / pvar Y). split; [reflexivity |].
  rewrite Hd. unfold between_var. field. lra.
Qed.

Lemma Qsum_map_affine s t l :
  Qsum (map (fun y => s * y + t) l) == s * Qsum l + of_nat (length l) * t.
Proof.
  induction l as [| y l IH]; cbn [map length].
  - rewrite !Qsum_nil. change (of_nat 0) with 0. ring.
  - rewrite !Qsum_cons, IH, of_nat_S. ring.
Qed.

Lemma mean_affine s t l :
  l <> [] -> mean (map (fun y => s * y + t) l) == s * mean l + t.
Proof.
  intros Hl. unfold mean. rewrite length_map, Qsum_map_affine.
  field. assert (0 < of_nat (length l)); [| lra].
  apply of_nat_pos. destruct l; [congruence | simpl; lia].
Qed.

Lemma sqdev_affine s t c c' l :
  c' == s * c + t ->
  sqdev c' (map (fun y => s * y + t) l) == s * s * sqdev c l.
Proof.
  intros Hc. unfold sqdev. rewrite map_map, <- Qsum_scal.
  apply Qsum_ext. intros y _. rewrite Hc. ring.
Qed.

Lemma select_map (f : Q -> Q) Y ix :
  (forall i, In i ix -> (i < length Y)%nat) ->
  select (map f Y) ix = map f (select Y ix).
Proof.
  intros H. unfold select. rewrite map_map. apply map_ext_in.
  intros i Hi. rewrite (nth_indep _ 0 (f 0))
    by (rewrite length_map; apply H; exact Hi).
  apply map_nth.
Qed.

Lemma bin_sample_map (f : Q -> Q) Y X m j :
  length X = length Y ->
  bin_sample (map f Y) X m j = map f (bin_sample Y X m j).
Proof.
  intros Hlen. unfold bin_sample. apply select_map.
  intros i Hi. apply bin_indices_bound in Hi.
  rewrite rankdata_length in Hi. lia.
Qed.

(** X15.  The first-order index does not depend on the unit or the
    origin of the output: on a valid input, replacing every [y] by
    [s * y + t] with [s <> 0] leaves the value of [sobol_first]
    unchanged. *)
Theorem sobol_first_affine_invariant :
  forall Y X m s t y1 y2,
    length X = length Y ->
    In y1 Y -> In y2 Y -> ~ y1 == y2 ->
    ~ s == 0 ->
    (forall j, (j < length m - 1)%nat ->
               bin_indices (rankdata X) m j <> []) ->
    exists q q',
      sobol_first Y X m = Ok (Fin q)
      /\ sobol_first (map (fun y => s * y + t) Y) X m = Ok (Fin q')
      /\ q' == q.
Proof.
  intros Y X m s t y1 y2 Hlen H1 H2 Hne Hs Hbins.
  set (f := fun y => s * y + t).
  assert (HY : Y <> []) by (intros E; rewrite E in H1; destruct H1).
  destruct (sobol_first_defined Y X m y1 y2 Hlen H1 H2 Hne Hbins)
    as [q [E Hq]].
  destruct (sobol_first_defined (map f Y) X m (f y1) (f y2))
    as [q' [E' Hq']].
  - rewrite length_map. exact Hlen.
  - apply in_map. exact H1.
  - apply in_map. exact H2.
  - unfold f. intros Heq. apply Hne.
    assert (s * (y1 - y2) == 0) by lra.
    destruct (Qmult_integral _ _ H) as [H0 | H0]; [contradiction | lra].
  - exact Hbins.
  - exists q, q'. split; [exact E |]. split; [exact E' |].
    rewrite Hq, Hq'.
    assert (Hsq : 0 < sqdev (mean Y) Y)
      by (apply (sqdev_pos Y y1 y2); assumption).
    assert (HN : 0 < of_nat (length Y)).
    { apply of_nat_pos. destruct Y; [congruence | simpl; lia]. }
    assert (Hpv : 0 < pvar Y).
    { unfold pvar. apply Qlt_shift_div_l; lra. }
    assert (Hss : 0 < s * s) by (apply Qsquare_pos; exact Hs).
    assert (Ep : pvar (map f Y) == s * s * pvar Y).
    { assert (Esq : sqdev (mean (map f Y)) (map f Y)
                    == s * s * sqdev (mean Y) Y)
        by (apply sqdev_affine, mean_affine; exact HY).
      unfold pvar. rewrite length_map, Esq. field. lra. }
    assert (Eb : between_var (map f Y) X m == s * s * between_var Y X m).
    { unfold between_var. rewrite <- Qsum_scal. apply Qsum_ext.
      intros j Hj. apply in_seq in Hj. cbv zeta.
      rewrite (bin_sample_map f Y X m j Hlen), !length_map.
      assert (Hb : bin_sample Y X m j <> []).
      { intros Eb. apply (Hbins j ltac:(lia)).
        apply length_zero_iff_nil.
        rewrite <- bin_sample_length with (Y := Y). rewrite Eb.
        reflexivity. }
      pose proof (mean_affine s t _ Hb) as Mb.
      pose proof (mean_affine s t _ HY) as MY.
      fold f in Mb, MY. rewrite Mb, MY. field. lra. }
    rewrite Ep, Eb. field. lra.
Qed.


(* ================================================================= *)
(** ** The weights of the delta estimator *)

Lemma Qsum_telescope (g : nat -> Q) n :
  Qsum (map (fun j => g (S j) - g j) (seq 0 n)) == g n - g O.
Proof.
  induction n as [| n IH].
  - simpl. rewrite Qsum_nil. ring.
  - rewrite seq_S, map_app, Qsum_app, IH. cbn [map Nat.add].
    rewrite Qsum_cons, Qsum_nil. ring.
Qed.

(** The bins hold the [N] samples between them. *)
Lemma bin_sizes_sum X N M :
  length X = N -> (1 <= M)%nat ->
  Qsum (map (fun j =>
               of_nat (length (bin_indices (rankdata X)
                                 (linspace 0 (of_nat N) (S M)) j)))
            (seq 0 M))
  == of_nat N.
Proof.
  intros HX HM.
  rewrite (Qsum_ext _ (fun j => of_nat (S j * N / M) - of_nat (j * N / M))).
  - rewrite (Qsum_telescope (fun j => of_nat (j * N / M))).
    rewrite Nat.mul_comm, Nat.div_mul by lia.
    change (of_nat (0 * N / M)) with (of_nat (0 / M)).
    rewrite Nat.Div0.div_0_l. change (of_nat 0) with 0. ring.
  - intros j Hj. apply in_seq in Hj.
    rewrite (bin_indices_length X N M j HX HM) by lia.
    assert (Hle : (j * N / M <= S j * N / M)%nat)
      by (apply Nat.Div0.div_le_mono; nia).
    replace (S j * N / M)%nat
      with ((S j * N / M - j * N / M) + j * N / M)%nat at 2 by lia.
    rewrite of_nat_add. ring.
Qed.

Section DeltaWeights.

Context {L : Libm}.

(** X16.  The delta estimate is half a weighted mean of the distances
    between the densities, with the weights [|bin j| / N] adding up to 1:
    on a valid input, if the integral of [|fy - fy_c|] is at most [B] for
    every bin, the value of [calc_delta] is at most [B / 2]. *)
Theorem calc_delta_weighted_mean :
  forall Y Ygrid X M B,
    length X = length Y ->
    (1 <= M)%nat ->
    kde_defined Y = true ->
    (forall j, (j < M)%nat ->
       kde_defined
         (bin_sample Y X (linspace 0 (of_nat (length Y)) (S M)) j) = true) ->
    (forall j, (j < M)%nat ->
       trapz (abs_diff (density Y Ygrid)
                (density
                   (bin_sample Y X (linspace 0 (of_nat (length Y)) (S M)) j)
                   Ygrid))
             Ygrid <= B) ->
    Qsum (map (fun j =>
                 of_nat (length (bin_sample Y X
                                   (linspace 0 (of_nat (length Y)) (S M)) j))
                 / of_nat (length Y))
              (seq 0 M)) == 1
    /\ exists d,
         calc_delta Y Ygrid X (linspace 0 (of_nat (length Y)) (S M)) = Ok d
         /\ d <= B / 2.
Proof.
  intros Y Ygrid X M B Hlen HM HY Hbins HB.
  set (N := length Y) in *.
  set (m := linspace 0 (of_nat N) (S M)) in *.
  assert (HN : 0 < of_nat N).
  { apply of_nat_pos. pose proof (kde_defined_length Y HY). lia. }
  assert (Hm : (length m - 1)%nat = M).
  { unfold m. rewrite linspace_length. simpl. lia. }
  assert (Hsum : Qsum (map (fun j => of_nat (length (bin_sample Y X m j)))
                           (seq 0 M)) == of_nat N).
  { rewrite <- (bin_sizes_sum X N M Hlen HM). apply Qsum_ext.
    intros j _. rewrite bin_sample_length. reflexivity. }
  split.
  - rewrite (Qsum_ext _ (fun j => / of_nat N
                                  * of_nat (length (bin_sample Y X m j))))
      by (intros j _; field; lra).
    rewrite Qsum_scal, Hsum. field. lra.
  - destruct (calc_delta_defined Y Ygrid X m Hlen HY) as [d [E Hd]].
    { intros j Hj. apply Hbins. lia. }
    exists d. split; [exact E |]. rewrite Hd. unfold delta_sum. rewrite Hm.
    eapply Qle_trans.
    + apply (Qsum_le _
               (fun j => B / (2 * of_nat N)
                         * of_nat (length (bin_sample Y X m j)))).
      intros j Hj. apply in_seq in Hj. cbv zeta. fold N.
      specialize (HB j ltac:(lia)).
      set (T := trapz _ _) in *.
      pose proof (of_nat_nonneg (length (bin_sample Y X m j))) as Hn.
      set (n := of_nat (length (bin_sample Y X m j))) in *.
      assert (E1 : n / (2 * of_nat N) * T == / (2 * of_nat N) * (n * T))
        by (field; lra).
      assert (E2 : B / (2 * of_nat N) * n == / (2 * of_nat N) * (n * B))
        by (field; lra).
      rewrite E1, E2.
      assert (0 < / (2 * of_nat N)) by (apply Qinv_lt_0_compat; lra).
      assert (n * T <= n * B) by nra.
      nra.
    + rewrite Qsum_scal, Hsum. apply Qle_lteq. right. field. lra.
Qed.

End DeltaWeights.


(* ================================================================= *)
(** ** A run of [analyze] on one parameter *)

Section AnalyzeRun.

Context {L : Libm}.

(** [analyze] returns for a problem of one parameter when the three
    estimators do, the second bootstrap in the world the first has left. *)
Lemma analyze_single_run problem X Y (flag : bool) R c (p : bool) (w : world)
    ymin ymax Xi dd s1 s1c name w1 w2 :
  0 <= c <= 1 ->
  num_vars problem = 1%nat ->
  np_min Y = Ok ymin -> np_max Y = Ok ymax ->
  column X 0 = Ok Xi ->
  names_get problem 0 = Ok name ->
  bias_reduced_delta Y (linspace ymin ymax 100) Xi
    (linspace 0 (of_nat (length Y)) (Z.to_nat (bin_count (length Y) + 1)))
    R c
    (if p then mkWorld (rng_draws w) (rng_pos w) (console w ++ [header])
     else w)
  = (Ok dd, w1) ->
  sobol_first Y Xi
    (linspace 0 (of_nat (length Y)) (Z.to_nat (bin_count (length Y) + 1)))
  = Ok s1 ->
  sobol_first_conf Y Xi
    (linspace 0 (of_nat (length Y)) (Z.to_nat (bin_count (length Y) + 1)))
    R c w1
  = (Ok s1c, w2) ->
  exists S w',
    analyze problem X Y flag R c p w = (Ok S, w').
Proof.
  intros Hc HD Hmin Hmax Hcol Hname Hdd Hs1 Hs1c.
  unfold analyze. rewrite (conf_level_check c Hc), HD.
  rewrite (bind_io_ok (lift (np_min Y)) _ w ymin w)
    by (unfold lift; rewrite Hmin; reflexivity).
  rewrite (bind_io_ok (lift (np_max Y)) _ w ymax w)
    by (unfold lift; rewrite Hmax; reflexivity).
  set (w0 := if p
             then mkWorld (rng_draws w) (rng_pos w) (console w ++ [header])
             else w) in *.
  rewrite (bind_io_ok (if p then print header else ret tt) _ w tt w0)
    by (unfold w0; destruct p; reflexivity).
  cbn [seq for_io].
  unfold bind_io, lift. rewrite Hcol. cbn beta iota.
  rewrite Hdd. cbn beta iota. rewrite Hs1. cbn beta iota.
  rewrite Hs1c. cbn beta iota.
  destruct p; [rewrite Hname |]; eexists; eexists; reflexivity.
Qed.

End AnalyzeRun.


(* ================================================================= *)
(** ** The exceptions of [analyze] *)

Lemma raises_io_bind {A B : Type} (P : exn -> Prop) (c : io A)
    (k : A -> io B) :
  raises_io P c ->
  (forall w a w', c w = (Ok a, w') -> raises_only P (fst (k a w'))) ->
  raises_io P (bind_io c k).
Proof.
  intros Hc Hk w. unfold bind_io. specialize (Hc w).
  destruct (c w) as [[a | e] w'] eqn:E; [| exact Hc].
  apply (Hk w a w' E).
Qed.

Lemma raises_io_for {A S : Type} (P : exn -> Prop) (l : list A)
    (body : S -> A -> io S) :
  (forall s a, raises_io P (body s a)) ->
  forall s, raises_io P (for_io l body s).
Proof.
  intros Hb. induction l as [| a l IH]; intros s; cbn [for_io].
  - intros w. exact I.
  - apply raises_io_bind; [apply Hb |]. intros w s' w' _. apply IH.
Qed.

Lemma raises_io_lift {A : Type} (P : exn -> Prop) (c : result A) :
  raises_only P c -> raises_io P (lift c).
Proof. intros H w. exact H. Qed.

Lemma raises_io_ret {A : Type} (P : exn -> Prop) (a : A) :
  raises_io P (ret a).
Proof. intros w. exact I. Qed.

Lemma raises_io_print (P : exn -> Prop) line : raises_io P (print line).
Proof. intros w. exact I. Qed.

Lemma raises_io_randint (P : exn -> Prop) high size :
  high <> O -> raises_io P (randint high size).
Proof. intros H w. unfold randint. destruct high; [contradiction | exact I]. Qed.

Lemma randint_length high size w r w' :
  randint high size w = (Ok r, w') -> length r = size.
Proof.
  unfold randint. destruct high; [discriminate |].
  intros H. injection H as <- _. rewrite length_map, length_seq. reflexivity.
Qed.

Lemma take_length Y ix l : take Y ix = Ok l -> length l = length ix.
Proof.
  revert l. induction ix as [| i ix IH]; intros l; simpl.
  - intros H. injection H as <-. reflexivity.
  - destruct (nth_error Y i); [| discriminate].
    destruct (take Y ix) as [rest | e]; simpl; [| discriminate].
    intros H. injection H as <-. simpl. rewrite (IH rest eq_refl).
    reflexivity.
Qed.

(** On a non-empty output [sobol_first] can fail in the selection
    [Y[ix]] only. *)
Lemma sobol_first_raises Y X m :
  length Y <> O -> raises_only is_kde_or_index_exn (sobol_first Y X m).
Proof.
  intros HN. rewrite sobol_first_unfold.
  apply raises_only_bind; [| intros; exact I].
  apply raises_only_for. intros acc j. unfold sobol_step.
  rewrite py_truediv_ok by exact HN. cbn [bind].
  apply raises_only_bind; [apply raises_only_take_index | intros; exact I].
Qed.

Lemma weaken_analyze_exn {A : Type} (c : result A) :
  raises_only is_kde_or_index_exn c -> raises_only is_analyze_exn c.
Proof.
  destruct c as [a | e]; [intros; exact I |].
  intros H. right. right. exact H.
Qed.

Section AnalyzeExceptions.

Context {L : Libm}.

Lemma raises_bias_reduced_delta Y Ygrid X m R c :
  length Y <> O ->
  raises_io is_analyze_exn (bias_reduced_delta Y Ygrid X m R c).
Proof.
  intros HN. unfold bias_reduced_delta.
  apply raises_io_bind.
  { apply raises_io_lift, weaken_analyze_exn, calc_delta_raises. }
  intros w d_hat w' _.
  apply raises_io_bind; [| intros; exact I].
  apply raises_io_for. intros d i.
  apply raises_io_bind; [apply raises_io_randint; exact HN |].
  intros w1 r w1' _.
  apply raises_io_bind.
  { apply raises_io_lift, weaken_analyze_exn, raises_only_take_index. }
  intros w2 Yr w2' _.
  apply raises_io_bind.
  { apply raises_io_lift, weaken_analyze_exn, raises_only_take_index. }
  intros w3 Xr w3' _.
  apply raises_io_bind; [| intros; exact I].
  apply raises_io_lift, weaken_analyze_exn, calc_delta_raises.
Qed.

Lemma raises_sobol_first_conf Y X m R c :
  length Y <> O ->
  raises_io is_analyze_exn (sobol_first_conf Y X m R c).
Proof.
  intros HN. unfold sobol_first_conf.
  apply raises_io_bind; [| intros; exact I].
  apply raises_io_for. intros d i.
  apply raises_io_bind; [apply raises_io_randint; exact HN |].
  intros w1 r w1' Hr. apply randint_length in Hr.
  apply raises_io_bind.
  { apply raises_io_lift, weaken_analyze_exn, raises_only_take_index. }
  intros w2 Yr w2' HYr.
  assert (HYr' : length Yr <> O).
  { unfold lift in HYr. injection HYr as HYr _.
    rewrite (take_length _ _ _ HYr), Hr. exact HN. }
  apply raises_io_bind.
  { apply raises_io_lift, weaken_analyze_exn, raises_only_take_index. }
  intros w3 Xr w3' _.
  apply raises_io_bind; [| intros; exact I].
  apply raises_io_lift, weaken_analyze_exn, sobol_first_raises. exact HYr'.
Qed.

(** X17.  Whatever its arguments are, [analyze] fails in four ways only:
    with the [RuntimeError] of the check of the confidence level, with the
    [ValueError] of [np.min] on an empty output, with one of the two
    exceptions of the density estimator, or with an [IndexError] (a column
    or a name that does not exist, an index beyond a short [X]).  The
    divisions by [N] and the call of [randint] are never reached with
    [N = 0], so no [ZeroDivisionError] and no other [ValueError] leaves
    it. *)
Theorem analyze_exceptions :
  forall problem X Y calc_second_order num_resamples conf_level
         print_to_console w,
    raises_only is_analyze_exn
      (fst (analyze problem X Y calc_second_order num_resamples conf_level
                    print_to_console w)).
Proof.
  intros problem X Y flag R c p w. unfold analyze.
  destruct (Qlt_bool c 0 || Qlt_bool 1 c); [left; reflexivity |].
  destruct Y as [| y Y'].
  { right. left. reflexivity. }
  set (Y := y :: Y').
  assert (HN : length Y <> O) by discriminate.
  revert w. change (raises_io is_analyze_exn
    (bind_io (lift (np_min Y)) (fun ymin =>
       bind_io (lift (np_max Y)) (fun ymax =>
         bind_io (if p then print header else ret tt) (fun _ =>
           for_io (seq 0 (num_vars problem))
             (fun S i =>
                Xi <~ lift (column X i) ;;
                dd <~ bias_reduced_delta Y (linspace ymin ymax 100) Xi
                        (linspace 0 (of_nat (length Y))
                           (Z.to_nat (bin_count (length Y) + 1))) R c ;;
                let S := mkSens (list_set i (fst dd) (delta S))
                                (list_set i (snd dd) (delta_conf S))
                                (S1 S) (S1_conf S) in
                Xi <~ lift (column X i) ;;
                s1 <~ lift (sobol_first Y Xi
                              (linspace 0 (of_nat (length Y))
                                 (Z.to_nat (bin_count (length Y) + 1)))) ;;
                let S := mkSens (delta S) (delta_conf S)
                                (list_set i s1 (S1 S)) (S1_conf S) in
                Xi <~ lift (column X i) ;;
                s1c <~ sobol_first_conf Y Xi
                         (linspace 0 (of_nat (length Y))
                            (Z.to_nat (bin_count (length Y) + 1))) R c ;;
                let S := mkSens (delta S) (delta_conf S) (S1 S)
                                (list_set i s1c (S1_conf S)) in
                _ <~ (if p then
                        name <~ lift (names_get problem i) ;;
                        print (row_line name (nth i (delta S) NaN)
                                 (nth i (delta_conf S) NaN) (nth i (S1 S) NaN)
                                 (nth i (S1_conf S) NaN))
                      else ret tt) ;;
                ret S)
             (mkSens (np_zeros (num_vars problem))
                     (np_zeros (num_vars problem))
                     (np_zeros (num_vars problem))
                     (np_zeros (num_vars problem)))))))).
  assert (Hcol : forall i, raises_io is_analyze_exn (lift (column X i))).
  { intros i. apply raises_io_lift. unfold column.
    destruct (i <? ncols X)%nat; [exact I |].
    right. right. right. eexists. eexists. reflexivity. }
  apply raises_io_bind; [apply raises_io_lift; exact I |].
  intros w0 ymin w0' _.
  apply raises_io_bind; [apply raises_io_lift; exact I |].
  intros w1 ymax w1' _.
  apply raises_io_bind; [destruct p; intros w'; exact I |].
  intros w2 [] w2' _.
  apply raises_io_for. intros S i.
  apply raises_io_bind; [apply Hcol |]. intros w3 Xi w3' _.
  apply raises_io_bind; [apply raises_bias_reduced_delta; exact HN |].
  intros w4 dd w4' _.
  apply raises_io_bind; [apply Hcol |]. intros w5 Xi' w5' _.
  apply raises_io_bind.
  { apply raises_io_lift, weaken_analyze_exn, sobol_first_raises.
    exact HN. }
  intros w6 s1 w6' _.
  apply raises_io_bind; [apply Hcol |]. intros w7 Xi'' w7' _.
  apply raises_io_bind; [apply raises_sobol_first_conf; exact HN |].
  intros w8 s1c w8' _.
  apply raises_io_bind; [| intros; exact I].
  destruct p; [| intros w'; exact I].
  apply raises_io_bind; [| intros; exact I].
  apply raises_io_lift. unfold names_get.
  destruct (nth_error (names problem) i); [exact I |].
  right. right. right. eexists. eexists. reflexivity.
Qed.

End AnalyzeExceptions.



(* ================================================================= *)
(** ** Edge cases of the arguments *)

Section EdgeCases.

Context {L : Libm}.

(** X19.  When [X] has no column for the first parameter, [analyze] (on a
    valid confidence level and a non-empty output) fails with the
    [IndexError] of [X[:, 0]], after the header line if printing is on;
    the number of columns of [X] is never compared with
    [problem['num_vars']] beforehand. *)
Theorem analyze_missing_column :
  forall problem X Y calc_second_order num_resamples conf_level
         print_to_console w,
    0 <= conf_level <= 1 ->
    Y <> [] ->
    (1 <= num_vars problem)%nat ->
    ncols X = O ->
    analyze problem X Y calc_second_order num_resamples conf_level
            print_to_console w
    = (Raise (IndexError 0 0),
       if print_to_console
       then mkWorld (rng_draws w) (rng_pos w) (console w ++ [header])
       else w).
Proof.
  intros problem X Y flag R c p w Hc HY HD Hcols.
  unfold analyze. rewrite (conf_level_check c Hc).
  destruct Y as [| y Y']; [contradiction |].
  set (Y := y :: Y') in *.
  rewrite (bind_io_ok (lift (np_min Y)) _ w (fold_left Qmin Y' y) w eq_refl).
  rewrite (bind_io_ok (lift (np_max Y)) _ w (fold_left Qmax Y' y) w eq_refl).
  destruct (num_vars problem) as [| D] eqn:ED; [lia |].
  cbn [seq].
  set (w1 := if p
             then mkWorld (rng_draws w) (rng_pos w) (console w ++ [header])
             else w).
  rewrite (bind_io_ok (if p then print header else ret tt) _ w tt w1)
    by (unfold w1; destruct p; reflexivity).
  apply for_io_cons_fail. apply bind_io_fail.
  unfold lift, column. rewrite Hcols. reflexivity.
Qed.

(** X20.  With [num_resamples = 0] nothing is drawn and both confidence
    computations work on an empty array: [bias_reduced_delta] returns
    [(nan, nan)] whenever the point estimate exists (the estimate itself
    is lost), and [sobol_first_conf] returns [nan] without reading [Y]
    or [X]. *)
Theorem no_resamples :
  forall Y Ygrid X m conf_level w,
    (forall d_hat,
       calc_delta Y Ygrid X m = Ok d_hat ->
       bias_reduced_delta Y Ygrid X m 0 conf_level w = (Ok (NaN, NaN), w))
    /\ sobol_first_conf Y X m 0 conf_level w = (Ok NaN, w).
Proof.
  intros Y Ygrid X m c w. split.
  - intros d_hat Hhat. unfold bias_reduced_delta.
    rewrite (bind_io_ok (lift (calc_delta Y Ygrid X m)) _ w d_hat w)
      by (unfold lift; rewrite Hhat; reflexivity).
    cbn. destruct (norm_ppf ((1 # 2) + c / 2)); reflexivity.
  - unfold sobol_first_conf. cbn.
    destruct (norm_ppf ((1 # 2) + c / 2)); reflexivity.
Qed.

End EdgeCases.


(* ================================================================= *)
(** ** The Sobol estimator under rounding *)




(* ================================================================= *)
(** ** The rational instance and examples *)

Lemma test_tanh_range : forall x, - (1) <= TestLibm.tanh x <= 1.
Proof.
  intros x. unfold TestLibm.tanh. split.
  - apply Q.le_max_l.
  - apply Q.max_lub; [lra | apply Q.le_min_l].
Qed.

Lemma test_power_ge_1 :
  forall b e, 1 <= b -> 0 <= e -> 1 <= TestLibm.power b e.
Proof.
  intros b e Hb He. unfold TestLibm.power.
  replace (Qle_bool 0 (Qred e)) with true
    by (symmetry; apply Qle_bool_iff; rewrite Qred_correct; exact He).
  rewrite !Qred_correct. nra.
Qed.

Lemma test_power_le_base :
  forall b e, 1 <= b -> 0 <= e <= 1 -> TestLibm.power b e <= b.
Proof.
  intros b e Hb [He0 He1]. unfold TestLibm.power.
  replace (Qle_bool 0 (Qred e)) with true
    by (symmetry; apply Qle_bool_iff; rewrite Qred_correct; exact He0).
  rewrite !Qred_correct. nra.
Qed.

Lemma test_sqrt_proper :
  forall a b, a == b -> TestLibm.sqrt a == TestLibm.sqrt b.
Proof.
  intros a b H. unfold TestLibm.sqrt.
  rewrite (Qred_complete a b H). reflexivity.
Qed.

Example calc_delta_value_witness :
  exists d,
    calc_delta (L := TestLibm.libm) [1; 2; 3; 5] [1; 3; 5] [4; 3; 1; 2]
               (linspace 0 4 3) = Ok d
    /\ d == delta_sum (L := TestLibm.libm) [1; 2; 3; 5] [1; 3; 5]
                      [4; 3; 1; 2] (linspace 0 4 3)
    /\ 0 <= d.
Proof.
  apply (calc_delta_value (L := TestLibm.libm)).
  - reflexivity.
  - reflexivity.
  - intros [| [| j]] Hj; [reflexivity | reflexivity | simpl in Hj; lia].
  - repeat constructor; discriminate.
Defined.

Example bias_reduced_delta_value_witness :
  exists d_hat ds a b,
    calc_delta (L := TestLibm.libm) [1; 2; 3; 5] [1; 3; 5] [4; 3; 1; 2]
               (linspace 0 4 3) = Ok d_hat
    /\ length ds = 2%nat
    /\ bias_reduced_delta (L := TestLibm.libm) [1; 2; 3; 5] [1; 3; 5]
         [4; 3; 1; 2] (linspace 0 4 3) 2 (95 # 100) TestLibm.world0
       = (Ok (a, b), mkWorld (rng_draws TestLibm.world0) 8 [])
    /\ feq a (fsub (Fin (2 * d_hat)) (np_mean (map Fin ds)))
    /\ feq b (fmul (@norm_ppf TestLibm.libm ((1 # 2) + (95 # 100) / 2))
                   (np_std (L := TestLibm.libm) 1 (map Fin ds))).
Proof.
  destruct (calc_delta_defined (L := TestLibm.libm) [1; 2; 3; 5] [1; 3; 5]
              [4; 3; 1; 2] (linspace 0 4 3)) as [d_hat [Eh _]].
  { reflexivity. }
  { reflexivity. }
  { intros [| [| j]] Hj; [reflexivity | reflexivity | simpl in Hj; lia]. }
  destruct (calc_delta_defined (L := TestLibm.libm) [3; 5; 5; 1] [1; 3; 5]
              [1; 2; 2; 4] (linspace 0 4 3)) as [d0 [E0 _]].
  { reflexivity. }
  { reflexivity. }
  { intros [| [| j]] Hj; [reflexivity | reflexivity | simpl in Hj; lia]. }
  destruct (calc_delta_defined (L := TestLibm.libm) [2; 2; 3; 1] [1; 3; 5]
              [3; 3; 1; 4] (linspace 0 4 3)) as [d1 [E1 _]].
  { reflexivity. }
  { reflexivity. }
  { intros [| [| j]] Hj; [reflexivity | reflexivity | simpl in Hj; lia]. }
  destruct (bias_reduced_delta_value (L := TestLibm.libm) test_sqrt_proper
              [1; 2; 3; 5] [1; 3; 5] [4; 3; 1; 2] (linspace 0 4 3) 2
              (95 # 100) TestLibm.world0 d_hat [d0; d1])
    as [_ [a [b [E [Ha Hb]]]]].
  { reflexivity. }
  { exact Eh. }
  { reflexivity. }
  { intros [| [| k]] Hk; [exact E0 | exact E1 | lia]. }
  exists d_hat, [d0; d1], a, b.
  split; [exact Eh |]. split; [reflexivity |]. split; [exact E |].
  split; [exact Ha | exact Hb].
Defined.

Example bins_partition_ranks_witness :
  exists j,
    (j < 3)%nat
    /\ in_bin (nth j (linspace 0 (of_nat 10) 4) 0)
              (nth (S j) (linspace 0 (of_nat 10) 4) 0) 4 = true
    /\ forall j',
         (j' < 3)%nat ->
         in_bin (nth j' (linspace 0 (of_nat 10) 4) 0)
                (nth (S j') (linspace 0 (of_nat 10) 4) 0) 4 = true ->
         j' = j.
Proof. apply (bins_partition_ranks 10 3 4); lia. Defined.

Example partition_scheme_witness :
  (1 <= bin_count (L := TestLibm.libm) 100 <= 48)%Z
  /\ length (linspace 0 (of_nat 100)
               (Z.to_nat (bin_count (L := TestLibm.libm) 100 + 1)))
     = S (Z.to_nat (bin_count (L := TestLibm.libm) 100)).
Proof.
  destruct (partition_scheme (L := TestLibm.libm) test_tanh_range
              test_power_ge_1 100 ltac:(lia))
    as [_ [Hrange [Hlen _]]].
  split; [exact Hrange | exact Hlen].
Defined.

Example sobol_first_range_witness :
  exists q,
    sobol_first [1; 2; 3; 5] [4; 3; 1; 2]
                (linspace 0 (of_nat (length [1; 2; 3; 5])) 3) = Ok (Fin q)
    /\ q == between_var [1; 2; 3; 5] [4; 3; 1; 2]
              (linspace 0 (of_nat (length [1; 2; 3; 5])) 3)
            / pvar [1; 2; 3; 5]
    /\ 0 <= q <= 1.
Proof.
  apply (sobol_first_range [1; 2; 3; 5] [4; 3; 1; 2] 2 1 2).
  - reflexivity.
  - simpl. lia.
  - simpl. auto.
  - simpl. auto.
  - discriminate.
Defined.

(** The float [0.1] is the rational [3602879701896397 / 2 ^ 55], and the
    next float is [2 ^ -56] above it. *)
Example tenth_value :
  F64.tenth
  = PrimFloat.div (F64.of_pos 3602879701896397) (F64.of_pos (2 ^ 55))
  /\ F64.tenth_up
     = PrimFloat.div (F64.of_pos 7205759403792795) (F64.of_pos (2 ^ 56)).
Proof. split; vm_compute; reflexivity. Qed.

(** C5: the output [[0.1, 0.1 + ulp, 0.1, 0.1 + ulp]] is not constant, and
    with two bins of two samples both bin means equal the overall mean:
    the exact value of the index is 0.  In binary64 the overall mean and
    the bin means differ by a rounding error, the variance of [Y] is of
    the same size, and the code returns [2.0]. *)
Example sobol_first_range_counterexample :
  F64.sobol_first [F64.tenth; F64.tenth_up; F64.tenth; F64.tenth_up]
                  [1; 2; 3; 4] (linspace 0 4 3)
  = Ok (F64.of_nat 2)
  /\ PrimFloat.eqb F64.tenth F64.tenth_up = false
  /\ exists q,
       sobol_first [3602879701896397 # 2 ^ 55; 7205759403792795 # 2 ^ 56;
                    3602879701896397 # 2 ^ 55; 7205759403792795 # 2 ^ 56]
                   [1; 2; 3; 4] (linspace 0 4 3)
       = Ok (Fin q)
       /\ q == 0.
Proof.
  split; [vm_compute; reflexivity |].
  split; [vm_compute; reflexivity |].
  eexists. split; [vm_compute; reflexivity | reflexivity].
Qed.



(** In exact arithmetic the constant output [[5; 5; 5]] gives [nan]. *)
Example sobol_first_constant_exact_example :
  sobol_first [5; 5; 5] [1; 2; 3] (linspace 0 3 3) = Ok NaN.
Proof.
  apply (sobol_first_constant_exact [5; 5; 5] [1; 2; 3] (linspace 0 3 3) 5).
  - discriminate.
  - reflexivity.
  - intros y [<- | [<- | [<- | []]]]; reflexivity.
Qed.

Example analyze_conf_level_validation_witness :
  analyze (L := TestLibm.libm) (mkProblem 1 ["x1"%string])
          (mkMatrix 1 [[4]; [3]; [1]; [2]]) [1; 2; 3; 5] true 10 (3 # 2)
          false TestLibm.world0
  = (Raise (RuntimeError conf_level_message), TestLibm.world0)
  /\ forall msg,
       fst (analyze (L := TestLibm.libm) (mkProblem 1 ["x1"%string])
              (mkMatrix 1 [[4]; [3]; [1]; [2]]) [1; 2; 3; 5] true 10
              (95 # 100) false TestLibm.world0)
       <> Raise (RuntimeError msg).
Proof.
  split.
  - apply (proj1 (analyze_conf_level_validation (L := TestLibm.libm)
                    (mkProblem 1 ["x1"%string])
                    (mkMatrix 1 [[4]; [3]; [1]; [2]]) [1; 2; 3; 5] true 10
                    (3 # 2) false TestLibm.world0)).
    right. reflexivity.
  - apply (proj2 (analyze_conf_level_validation (L := TestLibm.libm)
                    (mkProblem 1 ["x1"%string])
                    (mkMatrix 1 [[4]; [3]; [1]; [2]]) [1; 2; 3; 5] true 10
                    (95 # 100) false TestLibm.world0)).
    split; discriminate.
Defined.



Example single_resample_conf_is_nan_witness :
  exists a w1 w2,
    bias_reduced_delta (L := TestLibm.libm) [1; 2; 3; 5] [1; 3; 5]
      [4; 3; 1; 2] (linspace 0 4 3) 1 (95 # 100) TestLibm.world0
    = (Ok (a, NaN), w1)
    /\ sobol_first_conf (L := TestLibm.libm) [1; 2; 3; 5] [4; 3; 1; 2]
         (linspace 0 4 3) 1 (95 # 100) TestLibm.world0
       = (Ok NaN, w2).
Proof.
  destruct (calc_delta_defined (L := TestLibm.libm) [1; 2; 3; 5] [1; 3; 5]
              [4; 3; 1; 2] (linspace 0 4 3)) as [d_hat [Eh _]].
  { reflexivity. }
  { reflexivity. }
  { intros [| [| j]] Hj; [reflexivity | reflexivity | simpl in Hj; lia]. }
  destruct (calc_delta_defined (L := TestLibm.libm) [3; 5; 5; 1] [1; 3; 5]
              [1; 2; 2; 4] (linspace 0 4 3)) as [d0 [E0 _]].
  { reflexivity. }
  { reflexivity. }
  { intros [| [| j]] Hj; [reflexivity | reflexivity | simpl in Hj; lia]. }
  pose proof (bias_reduced_delta_run (L := TestLibm.libm) [1; 2; 3; 5]
                [1; 3; 5] [4; 3; 1; 2] (linspace 0 4 3) 1 (95 # 100)
                TestLibm.world0 d_hat [d0] eq_refl Eh eq_refl) as Erun.
  assert (Hk : forall k, (k < 1)%nat ->
             calc_delta (L := TestLibm.libm)
               (select [1; 2; 3; 5]
                  (resample_indices TestLibm.world0 (length [1; 2; 3; 5]) k))
               [1; 3; 5]
               (select [4; 3; 1; 2]
                  (resample_indices TestLibm.world0 (length [1; 2; 3; 5]) k))
               (linspace 0 4 3)
             = Ok (nth k [d0] 0)).
  { intros [| k] Hk; [exact E0 | lia]. }
  specialize (Erun Hk).
  destruct (single_resample_conf_is_nan (L := TestLibm.libm) [1; 2; 3; 5]
              [1; 3; 5] [4; 3; 1; 2] (linspace 0 4 3) (95 # 100)
              TestLibm.world0) as [Hd [Hs _]].
  pose proof (Hd _ _ _ Erun) as Hnan.
  destruct (sobol_first_conf (L := TestLibm.libm) [1; 2; 3; 5] [4; 3; 1; 2]
              (linspace 0 4 3) 1 (95 # 100) TestLibm.world0)
    as [[b | e] w2] eqn:E2.
  - pose proof (Hs b w2 eq_refl) as Hb. subst b.
    eexists. eexists. exists w2. split; [| reflexivity].
    rewrite Erun, Hnan. reflexivity.
  - exfalso. vm_compute in E2. discriminate E2.
Defined.

(** The first-order index of a sample whose two bins have the means 3/2
    and 7/2 around the overall mean 5/2, with variance 5/4. *)
Example sobol_first_two_bins :
  exists q,
    sobol_first [1; 2; 3; 4] [10; 20; 30; 40] (linspace 0 4 3) = Ok (Fin q)
    /\ q == 4 # 5.
Proof. eexists. split; reflexivity. Qed.

Example bin_indices_two_bins :
  bin_indices (rankdata [4; 3; 1; 2]) (linspace 0 4 3) 0 = [2; 3]%nat
  /\ bin_indices (rankdata [4; 3; 1; 2]) (linspace 0 4 3) 1 = [0; 1]%nat.
Proof. split; reflexivity. Qed.

(* ----------------------------------------------------------------- *)
(** *** The further properties on examples *)

Example every_sample_in_one_bin_witness :
  exists j,
    (j < 2)%nat
    /\ In 1%nat (bin_indices (rankdata [4; 3; 1; 2])
                   (linspace 0 (of_nat 4) 3) j)
    /\ forall j',
         (j' < 2)%nat ->
         In 1%nat (bin_indices (rankdata [4; 3; 1; 2])
                     (linspace 0 (of_nat 4) 3) j')
         -> j' = j.
Proof.
  apply (every_sample_in_one_bin [4; 3; 1; 2] 4 2 1); [reflexivity | lia | lia].
Defined.

Example bin_size_witness :
  length (bin_indices (rankdata [4; 3; 1; 2; 7])
            [0; 24999999 # 10000000; 5] 0)
  = (Z.to_nat (Qfloor (24999999 # 10000000)) - Z.to_nat (Qfloor 0))%nat.
Proof.
  apply (bin_size [4; 3; 1; 2; 7] [0; 24999999 # 10000000; 5] 0);
    vm_compute; discriminate.
Defined.

(** Of the two samples of value 3, the earlier one gets the smaller
    rank. *)
Example rankdata_order_witness :
  rank_before [3; 1; 3] 0 2
  /\ (nth 0 (rankdata [3; 1; 3]%Q) O < nth 2 (rankdata [3; 1; 3]%Q) O)%nat.
Proof.
  assert (H : rank_before [3; 1; 3] 0 2)
    by (right; split; [reflexivity | lia]).
  split; [exact H |].
  apply (proj2 (rankdata_order [3; 1; 3] 0 2 ltac:(simpl; lia)
                  ltac:(simpl; lia))).
  exact H.
Defined.

Example bins_ordered_by_value_witness :
  nth 2 [4; 3; 1; 2] 0 <= nth 0 [4; 3; 1; 2] 0.
Proof.
  apply (bins_ordered_by_value [4; 3; 1; 2] 4 2 0 1 2 0);
    [reflexivity | lia | lia | lia | vm_compute; auto | vm_compute; auto].
Defined.

(** The column in another unit. *)
Example estimators_depend_on_order_only_witness :
  calc_delta (L := TestLibm.libm) [1; 2; 3; 5] [1; 3; 5] [4; 3; 1; 2]
             (linspace 0 4 3)
  = calc_delta (L := TestLibm.libm) [1; 2; 3; 5] [1; 3; 5] [40; 30; 10; 20]
               (linspace 0 4 3)
  /\ sobol_first [1; 2; 3; 5] [4; 3; 1; 2] (linspace 0 4 3)
     = sobol_first [1; 2; 3; 5] [40; 30; 10; 20] (linspace 0 4 3).
Proof.
  apply (estimators_depend_on_order_only (L := TestLibm.libm)).
  - reflexivity.
  - intros [| [| [| [| i]]]] [| [| [| [| j]]]] Hi Hj;
      simpl in Hi, Hj; try lia;
      split; intros H; unfold Qle in *; simpl in *; lia.
Defined.

Example calc_delta_exceptions_witness :
  calc_delta (L := TestLibm.libm) [7] [1; 3] [1] (linspace 0 1 2)
  = Raise (ValueError "`dataset` input should have multiple elements.").
Proof.
  apply (proj2 (proj2 (calc_delta_exceptions (L := TestLibm.libm) [7] [1; 3]
                         [1] (linspace 0 1 2)))).
  simpl. lia.
Defined.

Example sobol_first_exceptions_witness :
  (exists v, sobol_first [1; 2; 3; 5] [4; 3; 1; 2] (linspace 0 4 3) = Ok v)
  /\ sobol_first [] [] (linspace 0 0 3)
     = Raise (ZeroDivisionError "division by zero").
Proof.
  split.
  - apply (proj1 (sobol_first_exceptions [1; 2; 3; 5] [4; 3; 1; 2]
                    (linspace 0 4 3))).
    + discriminate.
    + simpl. lia.
  - apply (proj2 (sobol_first_exceptions [] [] (linspace 0 0 3))).
    + reflexivity.
    + simpl. lia.
Defined.

Example analyze_empty_output_witness :
  analyze (L := TestLibm.libm) (mkProblem 1 ["x1"%string]) (mkMatrix 1 []) []
          false 10 (95 # 100) true TestLibm.world0
  = (Raise (ValueError
              "zero-size array to reduction operation minimum which has no identity"),
     TestLibm.world0).
Proof.
  apply (analyze_empty_output (L := TestLibm.libm)). lra.
Defined.

Example analyze_single_sample_witness :
  analyze (L := TestLibm.libm) (mkProblem 1 ["x1"%string])
          (mkMatrix 1 [[4]]) [5] false 10 (95 # 100) true TestLibm.world0
  = (Raise (ValueError "`dataset` input should have multiple elements."),
     mkWorld (rng_draws TestLibm.world0) (rng_pos TestLibm.world0)
             (console TestLibm.world0 ++ [header])).
Proof.
  apply (analyze_single_sample (L := TestLibm.libm)
           (mkProblem 1 ["x1"%string]) (mkMatrix 1 [[4]]) 5 false 10
           (95 # 100) true TestLibm.world0).
  - lra.
  - simpl. lia.
  - simpl. lia.
Defined.

Example bootstrap_footprint_witness :
  rng_pos (snd (sobol_first_conf (L := TestLibm.libm) [1; 2; 3; 5]
                  [4; 3; 1; 2] (linspace 0 4 3) 2 (95 # 100)
                  TestLibm.world0))
  = (rng_pos TestLibm.world0 + 2 * length [1; 2; 3; 5])%nat
  /\ console (snd (bias_reduced_delta (L := TestLibm.libm) [1; 2; 3; 5]
                     [1; 3; 5] [4; 3; 1; 2] (linspace 0 4 3) 2 (95 # 100)
                     TestLibm.world0))
     = console TestLibm.world0.
Proof.
  destruct (bootstrap_footprint (L := TestLibm.libm) [1; 2; 3; 5] [1; 3; 5]
              [4; 3; 1; 2] (linspace 0 4 3) 2 (95 # 100))
    as [_ [He [Hs _]]].
  split; [| exact (Hs TestLibm.world0)].
  destruct (sobol_first_conf (L := TestLibm.libm) [1; 2; 3; 5] [4; 3; 1; 2]
              (linspace 0 4 3) 2 (95 # 100) TestLibm.world0)
    as [[v | e] w'] eqn:E.
  - destruct (He _ _ _ E) as [_ [Hp _]]. exact Hp.
  - exfalso. vm_compute in E. discriminate E.
Defined.

(** A run of [analyze] that returns: one parameter, two resamples, with
    printing. *)
Lemma test_analyze_returns :
  exists S w',
    analyze (L := TestLibm.libm) (mkProblem 1 ["x1"%string])
            (mkMatrix 1 [[4]; [3]; [1]; [2]]) [1; 2; 3; 5] false 2 (95 # 100)
            true TestLibm.world0
    = (Ok S, w').
Proof.
  pose (m := linspace 0 (of_nat (length [1; 2; 3; 5]))
               (Z.to_nat (bin_count (L := TestLibm.libm)
                            (length [1; 2; 3; 5]) + 1))).
  pose (w0 := mkWorld (rng_draws TestLibm.world0) (rng_pos TestLibm.world0)
                      (console TestLibm.world0 ++ [header])).
  assert (Hm : forall j, (S (S j) < length m - 1)%nat -> False)
    by (intros j Hj; vm_compute in Hj; lia).
  destruct (calc_delta_defined (L := TestLibm.libm) [1; 2; 3; 5]
              (linspace 1 5 100) [4; 3; 1; 2] m) as [d_hat [Eh _]].
  { reflexivity. }
  { reflexivity. }
  { intros [| [| j]] Hj;
      [reflexivity | reflexivity | destruct (Hm j Hj)]. }
  destruct (calc_delta_defined (L := TestLibm.libm) [3; 5; 5; 1]
              (linspace 1 5 100) [1; 2; 2; 4] m) as [d0 [E0 _]].
  { reflexivity. }
  { reflexivity. }
  { intros [| [| j]] Hj;
      [reflexivity | reflexivity | destruct (Hm j Hj)]. }
  destruct (calc_delta_defined (L := TestLibm.libm) [2; 2; 3; 1]
              (linspace 1 5 100) [3; 3; 1; 4] m) as [d1 [E1 _]].
  { reflexivity. }
  { reflexivity. }
  { intros [| [| j]] Hj;
      [reflexivity | reflexivity | destruct (Hm j Hj)]. }
  pose proof (bias_reduced_delta_run (L := TestLibm.libm) [1; 2; 3; 5]
                (linspace 1 5 100) [4; 3; 1; 2] m 2 (95 # 100) w0 d_hat
                [d0; d1] eq_refl Eh eq_refl) as Erun.
  assert (Hk : forall k, (k < 2)%nat ->
             calc_delta (L := TestLibm.libm)
               (select [1; 2; 3; 5] (resample_indices w0 (length [1; 2; 3; 5]) k))
               (linspace 1 5 100)
               (select [4; 3; 1; 2] (resample_indices w0 (length [1; 2; 3; 5]) k))
               m
             = Ok (nth k [d0; d1] 0)).
  { intros [| [| k]] Hk; [exact E0 | exact E1 | lia]. }
  specialize (Erun Hk).
  destruct (sobol_first_total [1; 2; 3; 5] [4; 3; 1; 2] m) as [s1 Es1].
  { discriminate. }
  { simpl. lia. }
  destruct (sobol_first_conf (L := TestLibm.libm) [1; 2; 3; 5] [4; 3; 1; 2] m
              2 (95 # 100)
              (mkWorld (rng_draws w0) (rng_pos w0 + 2 * length [1; 2; 3; 5])
                       (console w0)))
    as [[s1c | e] w2] eqn:E2; [| exfalso; vm_compute in E2; discriminate E2].
  refine (analyze_single_run (L := TestLibm.libm) (mkProblem 1 ["x1"%string])
            (mkMatrix 1 [[4]; [3]; [1]; [2]]) [1; 2; 3; 5] false 2 (95 # 100)
            true TestLibm.world0 1 5 [4; 3; 1; 2] _ s1 s1c "x1"%string _ w2
            _ eq_refl eq_refl eq_refl eq_refl eq_refl Erun Es1 E2).
  lra.
Qed.

Example analyze_footprint_witness :
  exists S w',
    analyze (L := TestLibm.libm) (mkProblem 1 ["x1"%string])
            (mkMatrix 1 [[4]; [3]; [1]; [2]]) [1; 2; 3; 5] false 2 (95 # 100)
            true TestLibm.world0
    = (Ok S, w')
    /\ rng_draws w' = rng_draws TestLibm.world0
    /\ rng_pos w' = (rng_pos TestLibm.world0 + 1 * (2 * (2 * 4)))%nat
    /\ exists lines,
         length lines = 1%nat
         /\ console w' = console TestLibm.world0 ++ header :: lines.
Proof.
  destruct test_analyze_returns as [S [w' E]].
  exists S, w'. split; [exact E |].
  exact (analyze_footprint (L := TestLibm.libm) _ _ _ _ _ _ _ _ _ _ E).
Defined.

Example analyze_result_witness :
  exists S w',
    analyze (L := TestLibm.libm) (mkProblem 1 ["x1"%string])
            (mkMatrix 1 [[4]; [3]; [1]; [2]]) [1; 2; 3; 5] false 2 (95 # 100)
            true TestLibm.world0
    = (Ok S, w')
    /\ exists ymin ymax,
         np_min [1; 2; 3; 5] = Ok ymin /\ np_max [1; 2; 3; 5] = Ok ymax
         /\ length (delta S) = 1%nat
         /\ length (delta_conf S) = 1%nat
         /\ length (S1 S) = 1%nat
         /\ length (S1_conf S) = 1%nat
         /\ forall i,
              (i < 1)%nat ->
              param_result (L := TestLibm.libm)
                (mkMatrix 1 [[4]; [3]; [1]; [2]]) [1; 2; 3; 5]
                (linspace ymin ymax 100)
                (linspace 0 (of_nat (length [1; 2; 3; 5]))
                   (Z.to_nat (bin_count (L := TestLibm.libm)
                                (length [1; 2; 3; 5]) + 1)))
                2 (95 # 100) TestLibm.world0 S i.
Proof.
  destruct test_analyze_returns as [S [w' E]].
  exists S, w'. split; [exact E |].
  exact (analyze_result (L := TestLibm.libm) _ _ _ _ _ _ _ _ _ _ E).
Defined.

Example sobol_first_conf_value_witness :
  (forall k, (k < 2)%nat ->
     sobol_first
       (select [1; 2; 3; 5]
          (resample_indices TestLibm.world0 (length [1; 2; 3; 5]) k))
       (select [4; 3; 1; 2]
          (resample_indices TestLibm.world0 (length [1; 2; 3; 5]) k))
       (linspace 0 4 3)
     = Ok (sobol_resample [1; 2; 3; 5] [4; 3; 1; 2] (linspace 0 4 3)
             TestLibm.world0 k))
  /\ sobol_first_conf (L := TestLibm.libm) [1; 2; 3; 5] [4; 3; 1; 2]
       (linspace 0 4 3) 2 (95 # 100) TestLibm.world0
     = (Ok (fmul (@norm_ppf TestLibm.libm ((1 # 2) + (95 # 100) / 2))
                 (np_std (L := TestLibm.libm) 1
                    (map (sobol_resample [1; 2; 3; 5] [4; 3; 1; 2]
                            (linspace 0 4 3) TestLibm.world0)
                         (seq 0 2)))),
        mkWorld (rng_draws TestLibm.world0)
                (rng_pos TestLibm.world0 + 2 * length [1; 2; 3; 5])
                (console TestLibm.world0)).
Proof.
  apply (sobol_first_conf_value (L := TestLibm.libm) [1; 2; 3; 5]
           [4; 3; 1; 2] (linspace 0 4 3) 2 (95 # 100) TestLibm.world0);
    [reflexivity | discriminate].
Defined.

(** The output in another unit and from another origin: [2 y + 1]. *)
Example sobol_first_affine_invariant_witness :
  exists q q',
    sobol_first [1; 2; 3; 5] [4; 3; 1; 2] (linspace 0 4 3) = Ok (Fin q)
    /\ sobol_first (map (fun y => 2 * y + 1) [1; 2; 3; 5]) [4; 3; 1; 2]
                   (linspace 0 4 3)
       = Ok (Fin q')
    /\ q' == q.
Proof.
  apply (sobol_first_affine_invariant [1; 2; 3; 5] [4; 3; 1; 2]
           (linspace 0 4 3) 2 1 1 2).
  - reflexivity.
  - simpl. auto.
  - simpl. auto.
  - discriminate.
  - discriminate.
  - intros [| [| j]] Hj;
      [vm_compute; discriminate | vm_compute; discriminate
       | simpl in Hj; lia].
Defined.

Example calc_delta_weighted_mean_witness :
  Qsum (map (fun j =>
               of_nat (length (bin_sample [1; 2; 3; 5] [4; 3; 1; 2]
                                 (linspace 0 (of_nat (length [1; 2; 3; 5]))
                                    3) j))
               / of_nat (length [1; 2; 3; 5]))
            (seq 0 2)) == 1
  /\ exists d,
       calc_delta (L := TestLibm.libm) [1; 2; 3; 5] [1; 3; 5] [4; 3; 1; 2]
                  (linspace 0 (of_nat (length [1; 2; 3; 5])) 3) = Ok d
       /\ d <= 2 / 2.
Proof.
  apply (calc_delta_weighted_mean (L := TestLibm.libm) [1; 2; 3; 5]
           [1; 3; 5] [4; 3; 1; 2] 2 2).
  - reflexivity.
  - lia.
  - reflexivity.
  - intros [| [| j]] Hj; [reflexivity | reflexivity | lia].
  - intros [| [| j]] Hj;
      [vm_compute; discriminate | vm_compute; discriminate | lia].
Defined.

Example analyze_missing_column_witness :
  analyze (L := TestLibm.libm) (mkProblem 1 ["x1"%string]) (mkMatrix 0 [])
          [1; 2; 3; 5] false 10 (95 # 100) true TestLibm.world0
  = (Raise (IndexError 0 0),
     mkWorld (rng_draws TestLibm.world0) (rng_pos TestLibm.world0)
             (console TestLibm.world0 ++ [header])).
Proof.
  apply (analyze_missing_column (L := TestLibm.libm)
           (mkProblem 1 ["x1"%string]) (mkMatrix 0 []) [1; 2; 3; 5] false 10
           (95 # 100) true TestLibm.world0).
  - lra.
  - discriminate.
  - simpl. lia.
  - reflexivity.
Defined.

Example no_resamples_witness :
  bias_reduced_delta (L := TestLibm.libm) [1; 2; 3; 5] [1; 3; 5] [4; 3; 1; 2]
    (linspace 0 4 3) 0 (95 # 100) TestLibm.world0
  = (Ok (NaN, NaN), TestLibm.world0)
  /\ sobol_first_conf (L := TestLibm.libm) [1; 2; 3; 5] [4; 3; 1; 2]
       (linspace 0 4 3) 0 (95 # 100) TestLibm.world0
     = (Ok NaN, TestLibm.world0).
Proof.
  destruct (calc_delta_defined (L := TestLibm.libm) [1; 2; 3; 5] [1; 3; 5]
              [4; 3; 1; 2] (linspace 0 4 3)) as [d_hat [Eh _]].
  { reflexivity. }
  { reflexivity. }
  { intros [| [| j]] Hj; [reflexivity | reflexivity | simpl in Hj; lia]. }
  destruct (no_resamples (L := TestLibm.libm) [1; 2; 3; 5] [1; 3; 5]
              [4; 3; 1; 2] (linspace 0 4 3) (95 # 100) TestLibm.world0)
    as [Hd Hs].
  split; [exact (Hd d_hat Eh) | exact Hs].
Defined.
